(** * Tau-leaping step-size selection (GillesPy2, c_base/tau_hybrid_cpp_solver/Tau.cpp)

    A shallow embedding of [Gillespy::initialize], [Gillespy::select] and
    [Gillespy::get_reactions], and of the reading of the command line in
    [main] of c_base/tau_leaping_cpp_solver/TauLeapingSimulation.cpp.

    - [double] is the kernel's binary64 type [float]; every arithmetic
      operation is the IEEE 754 one (round to nearest, ties to even), with
      its infinities and NaN.
    - [int] is [Z]; loop counters and container indices are [nat].  The
      [int] arithmetic of these functions is a count of species and the
      absolute value of a stoichiometric change; no wrap-around is written
      out for them, and [int_changes] states the bound the second one needs.
    - [std::pow(x, 2)] is the product [x * x].
    - [std::map<std::string, T>] is [gmap string T]; where the code iterates
      over a map the entries are taken in increasing key order.
    - [TauArgs &] is threaded through [select] as explicit state.
    - Where C++ leaves the behaviour of a step undefined the step has no
      result: [select] gives an [outcome], a returned value or [Undefined]. *)

From Stdlib Require Import ZArith Floats Uint63 Lia Ascii.
From stdpp Require Import gmap strings list sorting.

Set Warnings "-inexact-float".

(** ** The numeric types of the C++ code *)

Module Double.

(** [(double) z] for an [int] z: exact, since |z| < 2^53. *)
Definition of_int (z : Z) : float :=
  if (z <? 0)%Z then (- of_uint63 (Uint63.of_Z (- z)))%float
  else of_uint63 (Uint63.of_Z z).

Definition INT_MIN : Z := (- 2 ^ 31)%Z.
Definition INT_MAX : Z := (2 ^ 31 - 1)%Z.

(** The integer part of a finite binary64 value, rounded toward zero. *)
Definition truncate (x : spec_float) : option Z :=
  match x with
  | S754_zero _ => Some 0%Z
  | S754_finite s m e =>
      let a := if (0 <=? e)%Z then (Z.pos m * 2 ^ e)%Z
               else (Z.pos m / 2 ^ (- e))%Z in
      Some (if s then (- a)%Z else a)
  | S754_infinity _ | S754_nan => None
  end.

(** [(int) x] for a [double] x: truncation toward zero, when the truncated
    value is in the range of [int].  C++ leaves every other conversion (of
    an infinity, of NaN, of a value out of range) undefined: there is no
    result. *)
Definition to_int (x : float) : option Z :=
  match truncate (Prim2SF x) with
  | Some z => if ((INT_MIN <=? z) && (z <=? INT_MAX))%Z then Some z else None
  | None => None
  end.

(** [a > b], [std::max(a, b)], [std::min(a, b)], [std::pow(a, 2)]. *)
Definition gtb (a b : float) : bool := (b <? a)%float.
Definition max (a b : float) : float := if (a <? b)%float then b else a.
Definition min (a b : float) : float := if (b <? a)%float then b else a.
Definition pow2 (a : float) : float := (a * a)%float.

End Double.

(** ** The model (model.h) *)

Module Species.
(** Modelled from the spec: [model.h], which declares [Species], [Reaction]
    and [Model], is not among the sources.  A species has a name, an integer
    id and a population; species are ordered by their ids, which is the order
    of a [std::set<Species>]. *)
Record t := mk { id : nat; name : string; population : Z }.
End Species.

Module Reaction.
(** Modelled from the spec: a reaction has a name and one signed
    stoichiometric change per species (negative: consumed, positive:
    produced).  Its propensity evaluator is not used by the functions below,
    which receive the propensities as [propensity_values]. *)
Record t := mk { name : string; species_change : list Z }.
End Reaction.

Module Model.
(** Modelled from the spec: a model is the array of its species and the array
    of its reactions; [number_species] and [number_reactions] are their
    lengths. *)
Record t := mk { species : list Species.t; reactions : list Reaction.t }.

Definition number_species (model : t) : nat := length (species model).
Definition number_reactions (model : t) : nat := length (reactions model).

(** [model.species[i].name], [model.reactions[r].name] and
    [model.reactions[r].species_change[i]]; an index past the end of an
    array reads the empty name, respectively 0. *)
Definition species_name (model : t) (i : nat) : string :=
  default EmptyString (Species.name <$> species model !! i).
Definition reaction_name (model : t) (r : nat) : string :=
  default EmptyString (Reaction.name <$> reactions model !! r).
Definition species_change (model : t) (r i : nat) : Z :=
  default 0%Z (reactions model !! r ≫= λ rxn, Reaction.species_change rxn !! i).

(** Every reaction has one stoichiometric entry per species, and species
    are told apart by their names. *)
Definition well_formed (model : t) : Prop :=
  NoDup (Species.name <$> species model) ∧
  Forall (λ rxn, length (Reaction.species_change rxn) = number_species model)
         (reactions model).
End Model.

(** ** Containers *)

(** [m[k]] read on a [std::map]: the value, [d] when the key is absent ... *)
Definition at_key `{Countable K} {V} (d : V) (m : gmap K V) (k : K) : V :=
  default d (m !! k).

(** ... and the map afterwards, where an absent key has been inserted. *)
Definition touch `{Countable K} {V} (d : V) (m : gmap K V) (k : K) : gmap K V :=
  match m !! k with
  | Some _ => m
  | None => <[k := d]> m
  end.

(** [v[i]] on a [std::vector]; an index past the end reads [d]. *)
Definition at_index {V} (d : V) (v : list V) (i : nat) : V := default d (v !! i).

(** [m[k].push_back(x)]. *)
Definition push_back (k x : nat) (m : gmap nat (list nat)) : gmap nat (list nat) :=
  <[k := at_key [] m k ++ [x]]> m.

(** [std::set<Species>::insert]; [Species] are ordered by [id]. *)
Fixpoint set_insert (s : Species.t) (l : list Species.t) : list Species.t :=
  match l with
  | [] => [s]
  | x :: l' =>
      if Species.id s <? Species.id x then s :: l
      else if Species.id x <? Species.id s then x :: set_insert s l'
      else l
  end.

(** The entries of a [std::map<std::string, T>] in iteration order. *)
Definition key_le {V} (x y : string * V) : Prop := String.leb x.1 y.1.

Definition entries {V} (m : gmap string V) : list (string * V) :=
  merge_sort key_le (map_to_list m).

(** [std::min_element] with the comparator [lhs.second < rhs.second]. *)
Definition min_element (l : list (string * float)) : option (string * float) :=
  match l with
  | [] => None
  | x :: l' =>
      Some (foldl (λ smallest y, if (y.2 <? smallest.2)%float then y else smallest) x l')
  end.

(** ** Undefined behaviour *)

(** What running a piece of the program gives: a returned value, or
    [Undefined] when the run does something that C++ leaves undefined (here
    the conversion to [int] of a [double] that [int] cannot hold, and the use
    of an iterator that an [erase] has invalidated).  Nothing is known of a
    run from that point on. *)
Inductive outcome (A : Type) : Type :=
  | Returns (a : A)
  | Undefined.

Arguments Returns {A} a.
Arguments Undefined {A}.

#[global] Instance outcome_bind : MBind outcome :=
  λ A B f x, match x with Returns a => f a | Undefined => Undefined end.

(** ** Iterators of a [std::map] *)

(** An iterator of a [std::map<std::string, T>]: the key of the entry it
    stands on ([None] for the past-the-end iterator) and whether it is
    valid.  [erase] invalidates the iterators that stand on the erased entry
    and no other. *)
Record map_iterator := mkIterator { it_key : option string; it_valid : bool }.

(** [m.begin()]. *)
Definition map_begin {V} (m : gmap string V) : map_iterator :=
  mkIterator (fst <$> head (entries m)) true.

(** [m.erase(k)]: the map, and the iterator [it], afterwards. *)
Definition map_erase {V} (k : string) (m : gmap string V) (it : map_iterator)
    : gmap string V * map_iterator :=
  (delete k m,
   if decide (it_key it = Some k) then mkIterator (it_key it) false else it).

(** [++it] on the map [m]: the iterator moves to the entry with the next
    key, or past the end.  Incrementing an invalidated iterator, or the
    past-the-end one, is undefined. *)
Definition map_next {V} (m : gmap string V) (it : map_iterator)
    : outcome map_iterator :=
  match it_key it with
  | Some k =>
      if it_valid it then
        Returns (mkIterator
                   (fst <$> head (filter (λ x, String.ltb k x.1) (entries m))) true)
      else Undefined
  | None => Undefined
  end.

(** ** TauArgs *)

Record TauArgs := mkTauArgs {
  HOR : gmap string Z;
  reactants : list Species.t;
  g_i_lambdas : gmap string (float → float);
  g_i : gmap string Z;
  epsilon_i : gmap string float;
  reactions_reactants : gmap nat (list nat);
  products : gmap nat (list nat);
  critical_threshold : Z
}.

Definition set_HOR (f : gmap string Z → gmap string Z) (a : TauArgs) : TauArgs :=
  mkTauArgs (f (HOR a)) (reactants a) (g_i_lambdas a) (g_i a) (epsilon_i a)
            (reactions_reactants a) (products a) (critical_threshold a).
Definition set_reactants (f : list Species.t → list Species.t) (a : TauArgs) : TauArgs :=
  mkTauArgs (HOR a) (f (reactants a)) (g_i_lambdas a) (g_i a) (epsilon_i a)
            (reactions_reactants a) (products a) (critical_threshold a).
Definition set_g_i_lambdas
    (f : gmap string (float → float) → gmap string (float → float)) (a : TauArgs) : TauArgs :=
  mkTauArgs (HOR a) (reactants a) (f (g_i_lambdas a)) (g_i a) (epsilon_i a)
            (reactions_reactants a) (products a) (critical_threshold a).
Definition set_g_i (f : gmap string Z → gmap string Z) (a : TauArgs) : TauArgs :=
  mkTauArgs (HOR a) (reactants a) (g_i_lambdas a) (f (g_i a)) (epsilon_i a)
            (reactions_reactants a) (products a) (critical_threshold a).
Definition set_epsilon_i (f : gmap string float → gmap string float) (a : TauArgs) : TauArgs :=
  mkTauArgs (HOR a) (reactants a) (g_i_lambdas a) (g_i a) (f (epsilon_i a))
            (reactions_reactants a) (products a) (critical_threshold a).
Definition set_reactions_reactants
    (f : gmap nat (list nat) → gmap nat (list nat)) (a : TauArgs) : TauArgs :=
  mkTauArgs (HOR a) (reactants a) (g_i_lambdas a) (g_i a) (epsilon_i a)
            (f (reactions_reactants a)) (products a) (critical_threshold a).
Definition set_products
    (f : gmap nat (list nat) → gmap nat (list nat)) (a : TauArgs) : TauArgs :=
  mkTauArgs (HOR a) (reactants a) (g_i_lambdas a) (g_i a) (epsilon_i a)
            (reactions_reactants a) (f (products a)) (critical_threshold a).

(** ** initialize *)

(** The three deferred bound functions of lines 75, 80 and 85.  In the second
    one [3 / 2] is a quotient of two [int] literals. *)
Definition lambda_2_2 (x : float) : float := (2 + (1 / (x - 1)))%float.
Definition lambda_2_3 (x : float) : float :=
  (Double.of_int (3 ÷ 2) * (2 + (1 / (x - 1))))%float.
Definition lambda_3 (x : float) : float := (3 + (1 / (x - 1)) + (2 / (x - 2)))%float.

(** [TauArgs tau_args;] followed by the loop of lines 42-45. *)
Definition tau_args_0 : TauArgs := mkTauArgs ∅ [] ∅ ∅ ∅ ∅ ∅ 10.

Definition initialize_HOR (model : Model.t) (a : TauArgs) : TauArgs :=
  foldl (λ a i, set_HOR <[Model.species_name model i := 0%Z]> a)
        a (seq 0 (Model.number_species model)).

(** Body of the loop of lines 50-60; the state is [rxn_order] and [tau_args]. *)
Definition scan_species (model : Model.t) (r : nat)
    (st : Z * TauArgs) (spec : nat) : Z * TauArgs :=
  let '(rxn_order, a) := st in
  let change := Model.species_change model r spec in
  if (0 <? change)%Z then
    (rxn_order, set_products (push_back r spec) a)
  else if (change <? 0)%Z then
    ((rxn_order + 1)%Z,
     set_reactants (set_insert (at_index (Species.mk 0 EmptyString 0) (Model.species model) spec))
       (set_reactions_reactants (push_back r spec) a))
  else st.

(** Body of the loop of lines 65-94. *)
Definition raise_HOR (model : Model.t) (tau_tol : float) (r : nat) (rxn_order : Z)
    (a : TauArgs) (reactant : nat) : TauArgs :=
  let nm := Model.species_name model reactant in
  if (at_key 0 (HOR a) nm <? rxn_order)%Z then
    let a := set_HOR <[nm := rxn_order]> a in
    let a := set_g_i <[nm := at_key 0%Z (HOR a) nm]> a in
    let count := Z.abs (Model.species_change model r reactant) in
    if ((count =? 2) && (rxn_order =? 2))%Z then
      set_g_i_lambdas <[nm := lambda_2_2]> a
    else if ((count =? 2) && (rxn_order =? 3))%Z then
      set_g_i_lambdas <[nm := lambda_2_3]> a
    else if (count =? 3)%Z then
      set_g_i_lambdas <[nm := lambda_3]> a
    else
      let a := set_g_i <[nm := at_key 0%Z (HOR a) nm]> a in
      set_epsilon_i <[nm := (tau_tol / Double.of_int (at_key 0%Z (g_i a) nm))%float]> a
  else a.

(** Body of the loop of lines 47-96. *)
Definition initialize_reaction (model : Model.t) (tau_tol : float)
    (a : TauArgs) (r : nat) : TauArgs :=
  let '(rxn_order, a) :=
    foldl (scan_species model r) (0%Z, a) (seq 0 (Model.number_species model)) in
  let rs := at_key [] (reactions_reactants a) r in
  let a := set_reactions_reactants (λ m, touch [] m r) a in
  if 0 <? length rs then foldl (raise_HOR model tau_tol r rxn_order) a rs else a.

Definition initialize (model : Model.t) (tau_tol : float) : TauArgs :=
  foldl (initialize_reaction model tau_tol)
        (initialize_HOR model tau_args_0)
        (seq 0 (Model.number_reactions model)).

(** ** select *)

(** The locals [critical], [mu_i] and [sigma_i] of [select]. *)
Record Moments := mkMoments {
  critical : bool;
  mu_i : gmap string float;
  sigma_i : gmap string float
}.

(** Lines 114-118. *)
Definition moments_0 (model : Model.t) : Moments :=
  foldl (λ ms spec,
           mkMoments (critical ms)
                     (<[Model.species_name model spec := 0%float]> (mu_i ms))
                     (<[Model.species_name model spec := 0%float]> (sigma_i ms)))
        (mkMoments false ∅ ∅) (seq 0 (Model.number_species model)).

(** Body of the loop of lines 122-136. *)
Definition accumulate (model : Model.t) (critical_threshold : Z)
    (propensity_values : list float) (current_state : list Z) (reaction : nat)
    (ms : Moments) (reactant : nat) : Moments :=
  let change := Model.species_change model reaction reactant in
  if (change <? 0)%Z then
    let v := Z.abs change in
    let p := at_index 0%float propensity_values reaction in
    let crit :=
      (Double.of_int (at_index 0%Z current_state reactant) / Double.of_int v
         <? Double.of_int critical_threshold)%float
      && Double.gtb p 0 in
    let consumed := Z.abs change in
    let nm := Model.species_name model reactant in
    mkMoments
      (if crit then true else critical ms)
      (<[nm := (at_key 0 (mu_i ms) nm + Double.of_int consumed * p)%float]> (mu_i ms))
      (<[nm := (at_key 0 (sigma_i ms) nm
                + Double.pow2 (Double.of_int consumed) * p)%float]> (sigma_i ms))
  else ms.

(** Body of the loop of lines 120-137; [tau_args.reactions_reactants[reaction]]
    creates an empty entry for a reaction index the map does not have. *)
Definition moments_reaction (model : Model.t)
    (propensity_values : list float) (current_state : list Z)
    (st : TauArgs * Moments) (reaction : nat) : TauArgs * Moments :=
  let '(a, ms) := st in
  (set_reactions_reactants (λ m, touch [] m reaction) a,
   foldl (accumulate model (critical_threshold a) propensity_values current_state reaction)
         ms (at_key [] (reactions_reactants a) reaction)).

Definition select_moments (model : Model.t) (a : TauArgs)
    (propensity_values : list float) (current_state : list Z) : TauArgs * Moments :=
  foldl (moments_reaction model propensity_values current_state)
        (a, moments_0 model) (seq 0 (Model.number_reactions model)).

(** Lines 143-147. *)
Definition critical_taus (model : Model.t) (propensity_values : list float)
    : gmap string float :=
  foldl (λ m reaction,
           let p := at_index 0%float propensity_values reaction in
           if Double.gtb p 0 then <[Model.reaction_name model reaction := (1 / p)%float]> m
           else m)
        ∅ (seq 0 (Model.number_reactions model)).

(** [min.second] of lines 150-151 and 181-182; both are reached with a map
    that has an entry. *)
Definition min_second (m : gmap string float) : float :=
  default 0%float (snd <$> min_element (entries m)).

(** Lines 141-152. *)
Definition select_critical_tau (model : Model.t) (propensity_values : list float)
    (critical : bool) : float :=
  if critical then min_second (critical_taus model propensity_values) else 0%float.

(** Lines 158-159 for the entry [x] that the iterator stands on.  The
    assignment to [g_i[x.first]], a map of [int], converts the value of the
    function. *)
Definition refine_g_i (tau_tol : float) (a : TauArgs) (x : string * (float → float))
    : outcome TauArgs :=
  match Double.to_int (x.2 (Double.of_int (at_key 0%Z (g_i a) x.1))) with
  | Some z =>
      let a := set_g_i <[x.1 := z]> a in
      Returns (set_epsilon_i
                 <[x.1 := (tau_tol / Double.of_int (at_key 0%Z (g_i a) x.1))%float]> a)
  | None => Undefined
  end.

(** The range-for loop of lines 156-161, that is
    [for (; it != end(); ++it) { x = *it; ...; g_i_lambdas.erase(x.first); }],
    from the iterator [it] on.  Line 160 erases the entry that [it] stands
    on, and the loop then increments [it].  [fuel] bounds the number of
    iterations: a traversal visits an entry at most once, so the size of the
    map is enough. *)
Fixpoint refine_loop (fuel : nat) (tau_tol : float) (a : TauArgs) (it : map_iterator)
    : outcome TauArgs :=
  match it_key it with
  | None => Returns a
  | Some k =>
      match fuel, g_i_lambdas a !! k with
      | S fuel, Some f =>
          a ← refine_g_i tau_tol a (k, f);
          let '(m, it) := map_erase k (g_i_lambdas a) it in
          let a := set_g_i_lambdas (λ _, m) a in
          it ← map_next (g_i_lambdas a) it;
          refine_loop fuel tau_tol a it
      | _, _ => Undefined
      end
  end.

(** Lines 154-162. *)
Definition select_refine (tau_tol : float) (a : TauArgs) : outcome TauArgs :=
  if 0 <? size (g_i_lambdas a)
  then refine_loop (size (g_i_lambdas a)) tau_tol a (map_begin (g_i_lambdas a))
  else Returns a.

(** [max_pop_change_mean] and the value assigned to [tau_i[r.name]] at
    lines 168-173. *)
Definition max_pop_change_mean (epsilon : float) (population : Z) : float :=
  Double.max (epsilon * Double.of_int population)%float 1%float.

Definition tau_i_value (epsilon : float) (population : Z) (mu sigma : float) : float :=
  let mean := max_pop_change_mean epsilon population in
  Double.min (abs (mean / mu))%float (Double.pow2 mean / sigma)%float.

(** Body of the loop of lines 166-175; the state is [tau_args] (whose
    [epsilon_i[r.name]] is created when absent) and [tau_i]. *)
Definition bound_species (current_state : list Z) (ms : Moments)
    (st : TauArgs * gmap string float) (r : Species.t) : TauArgs * gmap string float :=
  let '(a, tau_i) := st in
  let nm := Species.name r in
  let epsilon := at_key 0%float (epsilon_i a) nm in
  let a := set_epsilon_i (λ m, touch 0%float m nm) a in
  if Double.gtb (at_key 0%float (mu_i ms) nm) 0 then
    (a, <[nm := tau_i_value epsilon (at_index 0%Z current_state (Species.id r))
                            (at_key 0%float (mu_i ms) nm)
                            (at_key 0%float (sigma_i ms) nm)]> tau_i)
  else (a, tau_i).

Definition select_tau_i (current_state : list Z) (ms : Moments) (a : TauArgs)
    : TauArgs * gmap string float :=
  foldl (bound_species current_state ms) (a, ∅) (reactants a).

(** Lines 177-183. *)
Definition select_non_critical_tau (tau_i : gmap string float) : float :=
  if 0 <? size tau_i then min_second tau_i else 0%float.

(** Lines 186-200. *)
Definition resolve_tau (critical : bool) (tau_i : gmap string float)
    (non_critical_tau critical_tau : float) : float :=
  if negb critical then non_critical_tau
  else if size tau_i =? 0 then critical_tau
  else Double.min non_critical_tau critical_tau.

(** The literal [1e-10], that is the binary64 value nearest to it. *)
Definition tau_floor : float := 0x1.b7cdfd9d7bdbbp-34%float.

(** Lines 202-213. *)
Definition clamp_tau (tau current_time save_time : float) : float :=
  if Double.gtb tau 0 then
    let tau := Double.max tau tau_floor in
    if Double.gtb (save_time - current_time)%float 0 then
      Double.min tau (save_time - current_time)%float
    else tau
  else (save_time - current_time)%float.

(** The value of [tau] before line 202, and [tau_args] then. *)
Definition select_pre_clamp (model : Model.t) (a : TauArgs) (tau_tol : float)
    (propensity_values : list float) (current_state : list Z)
    : outcome (float * TauArgs) :=
  let '(a, ms) := select_moments model a propensity_values current_state in
  let critical_tau := select_critical_tau model propensity_values (critical ms) in
  a ← select_refine tau_tol a;
  let '(a, tau_i) := select_tau_i current_state ms a in
  Returns (resolve_tau (critical ms) tau_i (select_non_critical_tau tau_i) critical_tau, a).

(** [select] returns [tau] and leaves [tau_args] in the second component. *)
Definition select (model : Model.t) (tau_args : TauArgs) (tau_tol : float)
    (current_time save_time : float)
    (propensity_values : list float) (current_state : list Z)
    : outcome (float * TauArgs) :=
  '(tau, a) ← select_pre_clamp model tau_args tau_tol propensity_values current_state;
  Returns (clamp_tau tau current_time save_time, a).

(** ** get_reactions *)

Section GetReactions.

(** The state of a [std::mt19937], its construction from the value that
    [std::random_device] returned, and a draw of
    [std::poisson_distribution<int>] with the given mean. *)
Variable mt19937 : Type.
Variable mt19937_seed : Z → mt19937.
Variable poisson : float → mt19937 → Z * mt19937.

(** Lines 226-227. *)
Definition clip_tau_step (tau_step current_time save_time : float) : float :=
  if Double.gtb (current_time + tau_step)%float save_time
  then (save_time - current_time)%float else tau_step.

(** Body of the loop of lines 234-238; the state is [rxn_count] and
    [generator]. *)
Definition fire (model : Model.t) (propensity_values : list float) (tau_step : float)
    (st : gmap string Z * mt19937) (i : nat) : gmap string Z * mt19937 :=
  let '(rxn_count, generator) := st in
  let '(n, generator) :=
    poisson (at_index 0%float propensity_values i * tau_step)%float generator in
  (<[Model.reaction_name model i := n]> rxn_count, generator).

(** [rd] is the value that [std::random_device rd; rd()] yields in this
    call. *)
Definition get_reactions (rd : Z) (model : Model.t) (propensity_values : list float)
    (tau_step current_time save_time : float) : gmap string Z * float :=
  let tau_step := clip_tau_step tau_step current_time save_time in
  let generator := mt19937_seed rd in
  let '(rxn_count, _) :=
    foldl (fire model propensity_values tau_step) (∅, generator)
          (seq 0 (Model.number_reactions model)) in
  (rxn_count, (current_time + tau_step)%float).

End GetReactions.

(** ** Classes of binary64 values *)

(** [x] is a number when it is not NaN. *)
Definition is_number (x : float) : Prop := Prim2SF x ≠ S754_nan.

(** The value is positive; zero or positive; finite and positive; finite and
    at least 1 (the mantissa [m] and exponent [e] stand for [m * 2 ^ e]). *)
Definition sf_pos (x : spec_float) : Prop :=
  match x with
  | S754_finite false _ _ | S754_infinity false => True
  | _ => False
  end.

Definition sf_nonneg (x : spec_float) : Prop :=
  match x with
  | S754_zero _ | S754_finite false _ _ | S754_infinity false => True
  | _ => False
  end.

Definition sf_finite_pos (x : spec_float) : Prop :=
  match x with
  | S754_finite false _ _ => True
  | _ => False
  end.

Definition sf_ge1 (x : spec_float) : Prop :=
  match x with
  | S754_finite false m e => (2 ^ (- e) <= Z.pos m)%Z
  | _ => False
  end.

(** The value is a zero or NaN. *)
Definition sf_zero_or_nan (x : spec_float) : Prop :=
  match x with
  | S754_zero _ | S754_nan => True
  | _ => False
  end.

(** The locals of [select] when nothing has fired the critical flag and
    every [mu_i] entry is a zero or NaN. *)
Definition quiet (ms : Moments) : Prop :=
  critical ms = false ∧
  ∀ nm, sf_zero_or_nan (Prim2SF (at_key 0%float (mu_i ms) nm)).

(** The locals of [select] when, for every species, [mu_i] and [sigma_i] are
    zero or positive, and [sigma_i] is positive where [mu_i] is. *)
Definition drift_has_variance (ms : Moments) : Prop :=
  ∀ nm,
    (0 <=? at_key 0 (mu_i ms) nm)%float = true ∧
    (0 <=? at_key 0 (sigma_i ms) nm)%float = true ∧
    ((0 <? at_key 0 (mu_i ms) nm)%float = true →
     (0 <? at_key 0 (sigma_i ms) nm)%float = true).

(** Every stoichiometric change is an [int] whose absolute value is an [int]
    too. *)
Definition int_changes (model : Model.t) : Prop :=
  Forall (λ rxn, Forall (λ c, (Double.INT_MIN < c ≤ Double.INT_MAX)%Z)
                        (Reaction.species_change rxn))
         (Model.reactions model).

(** ** Calls of [select] on one [TauArgs] instance *)

(** The arguments of one call, [tau_args] apart. *)
Record call := mkCall {
  call_model : Model.t;
  call_tau_tol : float;
  call_current_time : float;
  call_save_time : float;
  call_propensity_values : list float;
  call_current_state : list Z
}.

(** The instance after the call, and after a sequence of calls. *)
Definition select_call (a : TauArgs) (c : call) : outcome TauArgs :=
  '(_, a) ← select (call_model c) a (call_tau_tol c) (call_current_time c)
                   (call_save_time c) (call_propensity_values c) (call_current_state c);
  Returns a.

Definition select_calls (a : TauArgs) (cs : list call) : outcome TauArgs :=
  foldl (λ o c, a ← o; select_call a c) (Returns a) cs.

(** ** Orders of reactions and the updates of HOR *)

(** The species that reaction [r] consumes, in index order, and the order of
    the reaction: the number of these species. *)
Definition consumed (model : Model.t) (r : nat) : list nat :=
  filter (λ i, (Model.species_change model r i < 0)%Z)
         (seq 0 (Model.number_species model)).

Definition rxn_order (model : Model.t) (r : nat) : Z :=
  Z.of_nat (length (consumed model r)).

(** The largest order among the reactions that consume species [i], 0 when
    there is none. *)
Definition max_order (model : Model.t) (i : nat) : Z :=
  foldr Z.max 0%Z
        (rxn_order model
           <$> filter (λ r, (Model.species_change model r i < 0)%Z)
                      (seq 0 (Model.number_reactions model))).

(** The four cases of lines 73-92. *)
Inductive hor_case := case_2_2 | case_2_3 | case_3 | case_otherwise.

Definition classify (count rxn_order : Z) : hor_case :=
  if ((count =? 2) && (rxn_order =? 2))%Z then case_2_2
  else if ((count =? 2) && (rxn_order =? 3))%Z then case_2_3
  else if (count =? 3)%Z then case_3
  else case_otherwise.

(** The updates of [HOR] for the species named [nm], read off the model:
    going through the reactions in order and through the species each one
    consumes, an update happens where the order of the reaction exceeds the
    highest order met so far.  The state is that highest order and the cases
    of the updates made. *)
Definition track_step (model : Model.t) (nm : string) (r : nat)
    (t : Z * list hor_case) (i : nat) : Z * list hor_case :=
  if decide (Model.species_name model i = nm) then
    if (t.1 <? rxn_order model r)%Z then
      (rxn_order model r,
       t.2 ++ [classify (Z.abs (Model.species_change model r i)) (rxn_order model r)])
    else t
  else t.

Definition track_reaction (model : Model.t) (nm : string)
    (t : Z * list hor_case) (r : nat) : Z * list hor_case :=
  foldl (track_step model nm r) t (consumed model r).

Definition track (model : Model.t) (nm : string) : Z * list hor_case :=
  foldl (track_reaction model nm) (0%Z, []) (seq 0 (Model.number_reactions model)).

Definition hor_updates (model : Model.t) (nm : string) : list hor_case :=
  (track model nm).2.

(** What [tau_args] holds for the species named [nm] when its updates so far
    are [t]. *)
Definition tracks (tau_tol : float) (nm : string) (a : TauArgs)
    (t : Z * list hor_case) : Prop :=
  HOR a !! nm = Some t.1 ∧
  (last t.2 = Some case_otherwise →
   g_i a !! nm = Some t.1 ∧
   epsilon_i a !! nm = Some (tau_tol / Double.of_int t.1)%float) ∧
  (g_i_lambdas a !! nm = None ↔ Forall (eq case_otherwise) t.2).

(** ** The stream of Poisson draws *)

Section Draws.

Variable mt19937 : Type.
Variable poisson : float → mt19937 → Z * mt19937.

(** Successive draws from one generator: each draw uses the state the draw
    before it has left. *)
Fixpoint draws (means : list float) (generator : mt19937) : list Z :=
  match means with
  | [] => []
  | mean :: means =>
      let '(n, generator) := poisson mean generator in
      n :: draws means generator
  end.

End Draws.

(** The mean of the draw for reaction [r] in [get_reactions]. *)
Definition firing_mean (propensity_values : list float)
    (tau_step current_time save_time : float) (r : nat) : float :=
  (at_index 0 propensity_values r * clip_tau_step tau_step current_time save_time)%float.

(** A generator to run examples with: the state is a counter, and a draw
    returns the counter and increments it. *)
Definition counter_seed (rd : Z) : Z := rd.
Definition counter_draw (mean : float) (generator : Z) : Z * Z :=
  (generator, (generator + 1)%Z).

(** ** Example inputs *)

(** Species A, B, C with the reactions 2A + B -> 0 and A + B + C -> 0. *)
Definition example_model : Model.t :=
  Model.mk [Species.mk 0 "A" 100; Species.mk 1 "B" 100; Species.mk 2 "C" 100]
           [Reaction.mk "R1" [-2; -1; 0]%Z; Reaction.mk "R2" [-1; -1; -1]%Z].

(** Species A, B, C with the single reaction 2A + B + C -> 0. *)
Definition example_model_2_3 : Model.t :=
  Model.mk [Species.mk 0 "A" 100; Species.mk 1 "B" 100; Species.mk 2 "C" 100]
           [Reaction.mk "R" [-2; -1; -1]%Z].

(** One species A with the reactions A -> 0 and 2A -> 0. *)
Definition example_model_A : Model.t :=
  Model.mk [Species.mk 0 "A" 100] [Reaction.mk "R1" [-1]%Z; Reaction.mk "R2" [-2]%Z].

(** The default tolerance 0.03, that is the binary64 value nearest to it. *)
Definition example_tau_tol : float := 0x1.eb851eb851eb8p-6%float.

(** ** Further notions used in the statements *)

(** The value is negative. *)
Definition sf_neg (x : spec_float) : Prop :=
  match x with
  | S754_finite true _ _ | S754_infinity true => True
  | _ => False
  end.

(** The species that reaction [r] produces, in index order. *)
Definition produced (model : Model.t) (r : nat) : list nat :=
  filter (λ i, (0 < Model.species_change model r i)%Z)
         (seq 0 (Model.number_species model)).

(** The species record that line 58 inserts for the species index [i]. *)
Definition species_at (model : Model.t) (i : nat) : Species.t :=
  at_index (Species.mk 0 EmptyString 0) (Model.species model) i.

(** What [tau_args] holds, during [initialize], for every species name:
    [g_i] has an entry exactly where [HOR] is positive, the entry is that of
    [HOR], and a name with a [g_i] entry has a pending deferred function or
    the bound [tau_tol / g_i]. *)
Definition bounds_kept (tau_tol : float) (a : TauArgs) : Prop :=
  ∀ nm,
    match g_i a !! nm with
    | Some h =>
        HOR a !! nm = Some h ∧ (0 < h)%Z ∧
        (is_Some (g_i_lambdas a !! nm)
         ∨ epsilon_i a !! nm = Some (tau_tol / Double.of_int h)%float)
    | None =>
        g_i_lambdas a !! nm = None ∧ epsilon_i a !! nm = None ∧
        (HOR a !! nm = None ∨ HOR a !! nm = Some 0%Z)
    end.

(** The deferred bound function that a case of lines 73-92 installs. *)
Definition installed (c : hor_case) : option (float → float) :=
  match c with
  | case_2_2 => Some lambda_2_2
  | case_2_3 => Some lambda_2_3
  | case_3 => Some lambda_3
  | case_otherwise => None
  end.

(** What [tau_args] holds for the species named [nm] when its updates so far
    are [t]: the pending deferred function is the one that the last of the
    installing updates installed. *)
Definition tracks_installed (nm : string) (a : TauArgs) (t : Z * list hor_case) : Prop :=
  (0 ≤ t.1)%Z ∧ (t.2 ≠ [] → (0 < t.1)%Z) ∧
  g_i_lambdas a !! nm = last (omap installed t.2).

(** [tau_args] with its [epsilon_i] emptied. *)
Definition without_epsilon_i (a : TauArgs) : TauArgs := set_epsilon_i (λ _, ∅) a.

(** [tau_args] after the reads [reactions_reactants[reaction]] of line 122
    and [epsilon_i[r.name]] of line 168 have created the entries that were
    missing. *)
Definition touched (model : Model.t) (a : TauArgs) : TauArgs :=
  set_epsilon_i
    (λ m, foldl (λ m r, touch 0%float m (Species.name r)) m (reactants a))
    (set_reactions_reactants
       (λ m, foldl (λ m r, touch [] m r) m (seq 0 (Model.number_reactions model))) a).

(** The non-critical bounds [tau_i] that lines 164-175 compute in a call
    that finds no function pending at line 154. *)
Definition select_bounds (model : Model.t) (a : TauArgs)
    (propensity_values : list float) (current_state : list Z) : gmap string float :=
  (select_tau_i current_state
     (select_moments model a propensity_values current_state).2
     (select_moments model a propensity_values current_state).1).2.

(** The value of [tau] before line 202 in such a call. *)
Definition select_step (model : Model.t) (a : TauArgs)
    (propensity_values : list float) (current_state : list Z) : float :=
  let ms := (select_moments model a propensity_values current_state).2 in
  let tau_i := select_bounds model a propensity_values current_state in
  resolve_tau (critical ms) tau_i (select_non_critical_tau tau_i)
              (select_critical_tau model propensity_values (critical ms)).

(** The test of lines 124-128 for the species [reactant] of [reaction]. *)
Definition critical_pair (model : Model.t) (critical_threshold : Z)
    (propensity_values : list float) (current_state : list Z)
    (reaction reactant : nat) : bool :=
  (Model.species_change model reaction reactant <? 0)%Z
  && ((Double.of_int (at_index 0%Z current_state reactant)
       / Double.of_int (Z.abs (Model.species_change model reaction reactant))
       <? Double.of_int critical_threshold)%float
      && Double.gtb (at_index 0%float propensity_values reaction) 0).

(** One species A with the single reaction 3A -> 0. *)
Definition example_model_3A : Model.t :=
  Model.mk [Species.mk 0 "A" 100] [Reaction.mk "R" [-3]%Z].

(** One species A with the single reaction 0 -> A. *)
Definition example_model_production : Model.t :=
  Model.mk [Species.mk 0 "A" 100] [Reaction.mk "R" [1]%Z].

(** ** The command line of the tau-leaping solver (TauLeapingSimulation.cpp) *)

Module CommandLine.

(** The globals of lines 13-18.  [map_variable_populations] and
    [map_variable_parameters] are declared in template.h, which is not among
    the sources: the texts handed to them are recorded, in call order, and
    the calls are taken to leave the six globals alone. *)
Record Globals := mkGlobals {
  number_trajectories : Z;
  number_timesteps : Z;
  random_seed : Z;
  end_time : float;
  seed_time : bool;
  tau_tol : float;
  populations : list string;
  parameters : list string
}.


Section Extraction.

(** [arg_stream >> x] for an [int], an [unsigned int] and a [double] [x]:
    the value of [x] after the extraction from a stream that holds the given
    text, as a function of the text and of the value before. *)
Variable extract_int : string → Z → Z.
Variable extract_unsigned : string → Z → Z.
Variable extract_double : string → float → float.

(** [arg.size() > 1 && arg[0] == '-'] (line 36). *)
Definition is_option (arg : string) : bool :=
  (1 <? String.length arg)
  && bool_decide (String.get 0 arg = Some "-"%char).

(** The body of the loop of lines 34-63 for [arg = argv[i]] and
    [value = argv[i+1]], the text of [arg_stream]. *)
Definition parse_option (arg value : string) (g : Globals) : Globals :=
  if is_option arg then
    match String.get 1 arg with
    | Some "s"%char =>
        mkGlobals (number_trajectories g) (number_timesteps g)
                  (extract_int value (random_seed g)) (end_time g) false (tau_tol g)
                  (populations g) (parameters g)
    | Some "e"%char =>
        mkGlobals (number_trajectories g) (number_timesteps g) (random_seed g)
                  (extract_double value (end_time g)) (seed_time g) (tau_tol g)
                  (populations g) (parameters g)
    | Some "i"%char =>
        mkGlobals (number_trajectories g) (number_timesteps g) (random_seed g)
                  (end_time g) (seed_time g) (tau_tol g)
                  (populations g ++ [value]) (parameters g)
    | Some "p"%char =>
        mkGlobals (number_trajectories g) (number_timesteps g) (random_seed g)
                  (end_time g) (seed_time g) (tau_tol g)
                  (populations g) (parameters g ++ [value])
    | Some "t"%char =>
        match String.get 2 arg with
        | Some "r"%char =>
            mkGlobals (extract_unsigned value (number_trajectories g))
                      (number_timesteps g) (random_seed g) (end_time g) (seed_time g)
                      (tau_tol g) (populations g) (parameters g)
        | Some "i"%char =>
            mkGlobals (number_trajectories g)
                      (extract_unsigned value (number_timesteps g)) (random_seed g)
                      (end_time g) (seed_time g) (tau_tol g)
                      (populations g) (parameters g)
        | Some "a"%char =>
            mkGlobals (number_trajectories g) (number_timesteps g) (random_seed g)
                      (end_time g) (seed_time g) (extract_double value (tau_tol g))
                      (populations g) (parameters g)
        | _ => g
        end
    | _ => g
    end
  else g.




End Extraction.



End CommandLine.

(** * Properties *)

(** ** Order on binary64 values *)

Section DoubleOrder.

Local Open Scope float_scope.

Lemma SFcompare_antisym (x y : spec_float) :
  SFcompare y x = option_map CompOpp (SFcompare x y).
Proof.
  destruct x as [[]|[]| |[] mx ex], y as [[]|[]| |[] my ey]; simpl; try reflexivity.
  - pose proof (Pos.compare_cont_antisym mx my Eq) as Hm. simpl in Hm.
    rewrite (Z.compare_antisym ex ey), <- Hm.
    destruct (ex ?= ey)%Z; simpl; rewrite ?CompOpp_involutive; reflexivity.
  - pose proof (Pos.compare_cont_antisym mx my Eq) as Hm. simpl in Hm.
    rewrite (Z.compare_antisym ex ey), <- Hm.
    destruct (ex ?= ey)%Z; reflexivity.
Qed.

Lemma SFcompare_refl (x : spec_float) :
  x ≠ S754_nan → SFcompare x x = Some Eq.
Proof.
  destruct x as [[]|[]| |[] m e]; simpl; try congruence; intros _.
  - now rewrite Z.compare_refl, Pos.compare_cont_refl.
  - now rewrite Z.compare_refl, Pos.compare_cont_refl.
Qed.

Lemma ltb_number_l (x y : float) : (x <? y) = true → is_number x.
Proof.
  rewrite FloatAxioms.ltb_spec. unfold SFltb, is_number.
  destruct (Prim2SF x); simpl; congruence.
Qed.

Lemma ltb_number_r (x y : float) : (x <? y) = true → is_number y.
Proof.
  rewrite FloatAxioms.ltb_spec. unfold SFltb, is_number.
  destruct (Prim2SF x), (Prim2SF y); simpl; congruence.
Qed.

Lemma leb_refl (x : float) : is_number x → (x <=? x) = true.
Proof.
  intros Hx. rewrite FloatAxioms.leb_spec. unfold SFleb. now rewrite SFcompare_refl.
Qed.

Lemma ltb_false_leb (x y : float) :
  is_number x → is_number y → (y <? x) = false → (x <=? y) = true.
Proof.
  unfold is_number. rewrite FloatAxioms.ltb_spec, FloatAxioms.leb_spec. unfold SFltb, SFleb.
  intros Hx Hy. rewrite (SFcompare_antisym (Prim2SF y) (Prim2SF x)).
  destruct (SFcompare (Prim2SF y) (Prim2SF x)) as [[]|] eqn:E; simpl; try congruence.
  destruct (Prim2SF x), (Prim2SF y); simpl in E; congruence.
Qed.

Lemma ltb_leb (x y : float) : (x <? y) = true → (x <=? y) = true.
Proof.
  rewrite FloatAxioms.ltb_spec, FloatAxioms.leb_spec. unfold SFltb, SFleb.
  now destruct (SFcompare (Prim2SF x) (Prim2SF y)) as [[]|].
Qed.

Lemma max_gt_0 (x y : float) : (0 <? x) = true → (0 <? y) = true → (0 <? Double.max x y) = true.
Proof. unfold Double.max. now destruct (x <? y). Qed.

Lemma min_gt_0 (x y : float) : (0 <? x) = true → (0 <? y) = true → (0 <? Double.min x y) = true.
Proof. unfold Double.min. now destruct (y <? x). Qed.

Lemma min_le_r (x y : float) : is_number x → is_number y → (Double.min x y <=? y) = true.
Proof.
  intros Hx Hy. unfold Double.min. destruct (y <? x) eqn:E.
  - now apply leb_refl.
  - now apply ltb_false_leb.
Qed.

Lemma tau_floor_gt_0 : (0 <? tau_floor) = true.
Proof. reflexivity. Qed.

End DoubleOrder.

(** ** Rounding of binary64 operations *)

Section BinaryRounding.

Local Open Scope Z_scope.

Lemma digits2_pos_bounds (m : positive) :
  2 ^ (Z.pos (digits2_pos m) - 1) <= Z.pos m < 2 ^ Z.pos (digits2_pos m).
Proof.
  induction m as [m IH|m IH|]; simpl digits2_pos.
  - rewrite Pos2Z.inj_succ, (Pos2Z.inj_xI m).
    replace (Z.succ (Z.pos (digits2_pos m)) - 1) with (Z.succ (Z.pos (digits2_pos m) - 1)) by lia.
    rewrite !Z.pow_succ_r by lia. lia.
  - rewrite Pos2Z.inj_succ, (Pos2Z.inj_xO m).
    replace (Z.succ (Z.pos (digits2_pos m)) - 1) with (Z.succ (Z.pos (digits2_pos m) - 1)) by lia.
    rewrite !Z.pow_succ_r by lia. lia.
  - simpl. lia.
Qed.

Lemma digits2_pos_le (m : positive) (t : Z) :
  Z.pos m < 2 ^ t -> Z.pos (digits2_pos m) <= t.
Proof.
  intros H. destruct (digits2_pos_bounds m) as [Hl _].
  destruct (Z_le_gt_dec (Z.pos (digits2_pos m)) t) as [|Hgt]; [assumption|].
  assert (0 <= t) by (destruct (Z_le_gt_dec 0 t); [assumption|]; rewrite Z.pow_neg_r in H; lia).
  assert (2 ^ t <= 2 ^ (Z.pos (digits2_pos m) - 1)) by (apply Z.pow_le_mono_r; lia).
  lia.
Qed.

Lemma iter_xO_spec (m d : positive) :
  Z.pos (Pos.iter xO m d) = Z.pos m * 2 ^ Z.pos d.
Proof.
  induction d as [|d IH] using Pos.peano_ind.
  - simpl. lia.
  - rewrite Pos.iter_succ, (Pos2Z.inj_xO (Pos.iter xO m d)), IH, Pos2Z.inj_succ, Z.pow_succ_r by lia. lia.
Qed.

Lemma shr_1_m (mrs : shr_record) :
  0 <= shr_m mrs -> shr_m (shr_1 mrs) = shr_m mrs / 2.
Proof.
  destruct mrs as [m r s]. simpl. intros Hm.
  destruct m as [|[p|p|]|p]; simpl; try lia.
  - reflexivity.
  - rewrite (Pos2Z.inj_xI p). apply Z.div_unique with 1; lia.
  - rewrite (Pos2Z.inj_xO p). apply Z.div_unique with 0; lia.
  - reflexivity.
Qed.

Lemma iter_shr_1_m (p : positive) (mrs : shr_record) :
  0 <= shr_m mrs -> shr_m (SpecFloat.iter_pos shr_1 p mrs) = shr_m mrs / 2 ^ Z.pos p.
Proof.
  revert mrs. induction p as [p IH|p IH|]; intros mrs Hm; simpl SpecFloat.iter_pos.
  - assert (0 <= shr_m (shr_1 mrs)) by (rewrite shr_1_m by assumption; apply Z.div_pos; lia).
    assert (0 <= shr_m (SpecFloat.iter_pos shr_1 p (shr_1 mrs)))
      by (rewrite IH by assumption; apply Z.div_pos; [assumption | apply Z.pow_pos_nonneg; lia]).
    rewrite !IH, shr_1_m by assumption.
    rewrite !Z.div_div by (try apply Z.pow_pos_nonneg; lia).
    f_equal. rewrite (Pos2Z.inj_xI p).
    replace (2 * Z.pos p + 1) with (Z.succ (Z.pos p + Z.pos p)) by lia.
    rewrite Z.pow_succ_r, Z.pow_add_r by lia. lia.
  - assert (0 <= shr_m (SpecFloat.iter_pos shr_1 p mrs))
      by (rewrite IH by assumption; apply Z.div_pos; [assumption | apply Z.pow_pos_nonneg; lia]).
    rewrite !IH by assumption.
    rewrite !Z.div_div by (try apply Z.pow_pos_nonneg; lia).
    f_equal. rewrite (Pos2Z.inj_xO p).
    replace (2 * Z.pos p) with (Z.pos p + Z.pos p) by lia.
    rewrite Z.pow_add_r by lia. lia.
  - rewrite shr_1_m by assumption. reflexivity.
Qed.


Lemma shr_m_of_loc (m : Z) (l : location) : shr_m (shr_record_of_loc m l) = m.
Proof. destruct l as [|[]]; reflexivity. Qed.

Lemma emin_value : emin = -1074.
Proof. reflexivity. Qed.

Lemma pow2_pos (n : Z) : 0 <= n -> 0 < 2 ^ n.
Proof. intros. apply Z.pow_pos_nonneg; lia. Qed.

Lemma pow2_split (a b : Z) : 0 <= a -> 0 <= b -> 2 ^ (a + b) = 2 ^ a * 2 ^ b.
Proof. intros. apply Z.pow_add_r; assumption. Qed.

(** Dividing by [2 ^ p] keeps a lower bound by a power of two. *)
Lemma div_pow2_lower (m j p : Z) :
  0 < p -> 0 <= m -> 2 ^ (j + p) <= m -> 2 ^ j <= m / 2 ^ p.
Proof.
  intros Hp Hm H. destruct (Z_lt_le_dec j 0) as [Hj|Hj].
  - rewrite (Z.pow_neg_r 2 j) by assumption.
    apply Z.div_pos; [assumption | apply pow2_pos; lia].
  - apply Z.div_le_lower_bound; [apply pow2_pos; lia |].
    rewrite <- pow2_split by lia. now rewrite (Z.add_comm p j).
Qed.

(** One application of [shr_fexp] to a positive mantissa whose value
    [m * 2 ^ e] is at least [2 ^ k], for some [k] not below [emin]. *)
Lemma shr_fexp_lower (m : positive) (e k : Z) (l : location) :
  emin <= k -> 2 ^ (k - e) <= Z.pos m ->
  exists (mrs : shr_record) (e' : Z) (m' : positive),
    shr_fexp prec emax (Z.pos m) e l = (mrs, e') /\
    shr_m mrs = Z.pos m' /\
    2 ^ (k - e') <= Z.pos m' /\
    emin <= e' /\
    Z.pos m' <= Z.pos m /\
    e' <= Z.max (Z.max e (Z.pos (digits2_pos m) + e)) emin.
Proof.
  rewrite emin_value. intros Hk Hm.
  unfold shr_fexp, shr, fexp, Zdigits2. rewrite emin_value. unfold prec.
  destruct (digits2_pos_bounds m) as [Hd1 Hd2].
  set (d := Z.pos (digits2_pos m)) in *.
  destruct (Z.max (d + e - 53) (-1074) - e) as [|p|p] eqn:En.
  - exists (shr_record_of_loc (Z.pos m) l), e, m.
    rewrite shr_m_of_loc. repeat split; try assumption; lia.
  - assert (0 <= shr_m (shr_record_of_loc (Z.pos m) l)) as H0
      by (rewrite shr_m_of_loc; lia).
    assert (2 ^ (0 + Z.pos p) <= Z.pos m) as H1.
    { destruct (Z_le_gt_dec (-1074) (d + e - 53)).
      - transitivity (2 ^ (d - 1)); [apply Z.pow_le_mono_r; lia | assumption].
      - transitivity (2 ^ (k - e)); [apply Z.pow_le_mono_r; lia | assumption]. }
    assert (2 ^ (k - (e + Z.pos p) + Z.pos p) <= Z.pos m) as H2
      by (replace (k - (e + Z.pos p) + Z.pos p) with (k - e) by lia; assumption).
    apply div_pow2_lower in H1; try lia. apply div_pow2_lower in H2; try lia.
    change (2 ^ 0) with 1 in H1.
    destruct (Z.pos m / 2 ^ Z.pos p) as [|m'|m'] eqn:Eq; try lia.
    exists (SpecFloat.iter_pos shr_1 p (shr_record_of_loc (Z.pos m) l)), (e + Z.pos p), m'.
    rewrite iter_shr_1_m, shr_m_of_loc by assumption.
    repeat split; try assumption; try lia.
    rewrite <- Eq. apply Z.div_le_upper_bound; [apply pow2_pos; lia |].
    assert (0 < 2 ^ Z.pos p) by (apply pow2_pos; lia). nia.
  - exists (shr_record_of_loc (Z.pos m) l), e, m.
    rewrite shr_m_of_loc. repeat split; try assumption; lia.
Qed.

Lemma round_nearest_even_pos (m : positive) (l : location) :
  exists m' : positive,
    round_nearest_even (Z.pos m) l = Z.pos m' /\ Z.pos m <= Z.pos m' <= Z.pos m + 1.
Proof.
  destruct l as [|[]]; unfold round_nearest_even.
  - exists m. lia.
  - destruct (Z.even (Z.pos m)); [exists m | exists (m + 1)%positive]; lia.
  - exists m. lia.
  - exists (m + 1)%positive. lia.
Qed.

(** [binary_round_aux] keeps the sign, and a lower bound [2 ^ k] on the
    value when [k] is not below [emin]. *)
Lemma binary_round_aux_lower (s : bool) (m : positive) (e k : Z) (l : location) :
  emin <= k -> 2 ^ (k - e) <= Z.pos m ->
  exists (m' : positive) (e' : Z),
    binary_round_aux prec emax s (Z.pos m) e l
    = (if e' <=? emax - prec then S754_finite s m' e' else S754_infinity s) /\
    2 ^ (k - e') <= Z.pos m' /\ emin <= e' /\
    e' <= Z.max (e + 2 * Z.pos (digits2_pos m) + 1) (emin + Z.pos (digits2_pos m) + 1) /\
    Z.pos m' <= Z.pos m + 1.
Proof.
  intros Hk Hm. unfold binary_round_aux.
  destruct (shr_fexp_lower m e k l Hk Hm) as (mrs1 & e1 & m1 & -> & -> & Hm1 & He1 & Hle1 & Hb1).
  destruct (round_nearest_even_pos m1 (loc_of_shr_record mrs1)) as (m2 & -> & Hm2).
  assert (2 ^ (k - e1) <= Z.pos m2) as Hm2' by lia.
  destruct (shr_fexp_lower m2 e1 k loc_Exact Hk Hm2') as (mrs3 & e3 & m3 & -> & -> & Hm3 & He3 & Hle3 & Hb3).
  exists m3, e3. repeat split; try assumption; try lia.
  destruct (digits2_pos_bounds m) as [_ Hd].
  assert (Z.pos (digits2_pos m2) <= Z.pos (digits2_pos m) + 1) as Hd2.
  { apply digits2_pos_le.
    replace (Z.pos (digits2_pos m) + 1) with (Z.succ (Z.pos (digits2_pos m))) by lia.
    rewrite Z.pow_succ_r by lia. lia. }
  rewrite emin_value in *. lia.
Qed.


Lemma shl_align_value (m : positive) (e e' : Z) :
  e' <= e -> Z.pos (fst (shl_align m e e')) = Z.pos m * 2 ^ (e - e').
Proof.
  intros H. unfold shl_align. destruct (e' - e) as [|d|d] eqn:Ed; simpl fst.
  - replace (e - e') with 0 by lia. lia.
  - lia.
  - rewrite iter_xO_spec. f_equal. f_equal. lia.
Qed.

Lemma binary_round_lower (s : bool) (m : positive) (e k : Z) :
  emin <= k -> 2 ^ (k - e) <= Z.pos m ->
  exists (m' : positive) (e' : Z) (d : Z),
    binary_round prec emax s m e
    = (if e' <=? emax - prec then S754_finite s m' e' else S754_infinity s) /\
    2 ^ (k - e') <= Z.pos m' /\ emin <= e' /\
    e' <= Z.max (e + 2 * d + 1) (emin + d + 1) /\
    Z.pos m' <= 2 ^ d /\ 0 <= d /\
    (forall t, Z.pos m < 2 ^ t -> d <= Z.max t prec).
Proof.
  intros Hk Hm. unfold binary_round.
  destruct (digits2_pos_bounds m) as [_ HdM].
  remember (fexp prec emax (Z.pos (digits2_pos m) + e)) as F eqn:EF.
  assert (emin <= F /\ Z.pos (digits2_pos m) + e - prec <= F) as [HF HF']
    by (subst F; unfold fexp; lia).
  clear EF.
  destruct (shl_align m e F) as [mz ez] eqn:Es.
  assert (ez <= e /\ Z.pos mz = Z.pos m * 2 ^ (e - ez) /\
          (ez = e \/ e - ez <= prec - Z.pos (digits2_pos m))) as (Hez & Hmz & Hsh).
  { revert Es. unfold shl_align.
    destruct (F - e) as [|d|d] eqn:Ed; intros [= <- <-].
    - replace (e - e) with 0 by lia. repeat split; lia.
    - replace (e - e) with 0 by lia. repeat split; lia.
    - pose proof (Pos2Z.neg_is_neg d). rewrite iter_xO_spec.
      split; [lia|]. split; [f_equal; f_equal; lia | lia]. }
  assert (0 < 2 ^ (e - ez)) as HA by (apply pow2_pos; lia).
  assert (2 ^ (k - ez) <= Z.pos mz) as Hmz'.
  { rewrite Hmz. destruct (Z_lt_le_dec (k - e) 0).
    - destruct (Z_lt_le_dec (k - ez) 0); [rewrite Z.pow_neg_r by assumption; lia|].
      assert (2 ^ (k - ez) <= 2 ^ (e - ez)) by (apply Z.pow_le_mono_r; lia).
      nia.
    - replace (k - ez) with ((k - e) + (e - ez)) by lia.
      rewrite pow2_split by lia. nia. }
  destruct (binary_round_aux_lower s mz ez k loc_Exact Hk Hmz')
    as (m' & e' & -> & H1 & H2 & H3 & H4).
  destruct (digits2_pos_bounds mz) as [_ Hdz].
  exists m', e', (Z.pos (digits2_pos mz)). repeat split; try assumption; try lia.
  intros t Hlt. apply digits2_pos_le. rewrite Hmz.
  destruct Hsh as [->|Hsh].
  - rewrite Z.sub_diag, Z.pow_0_r, Z.mul_1_r.
    destruct (Z_lt_le_dec t 0); [rewrite Z.pow_neg_r in Hlt; lia|].
    assert (2 ^ t <= 2 ^ Z.max t prec) by (apply Z.pow_le_mono_r; lia). lia.
  - assert (2 ^ (Z.pos (digits2_pos m) + (e - ez)) <= 2 ^ Z.max t prec)
      by (apply Z.pow_le_mono_r; lia).
    rewrite pow2_split in * by lia.
    assert (Z.pos m * 2 ^ (e - ez) < 2 ^ Z.pos (digits2_pos m) * 2 ^ (e - ez))
      by (apply Z.mul_lt_mono_pos_r; assumption).
    lia.
Qed.

(** Validity of a finite value, spelled out. *)
Lemma valid_finite (s : bool) (m : positive) (e : Z) :
  valid_binary (S754_finite s m e) = true ->
  emin <= e /\ e <= emax - prec /\ Z.pos (digits2_pos m) <= prec /\
  (emin < e -> Z.pos (digits2_pos m) = prec).
Proof.
  simpl. unfold bounded, canonical_mantissa, fexp. rewrite emin_value. unfold prec, emax.
  intros H. apply andb_prop in H as [H1 H2].
  apply Z.eqb_eq in H1. apply Z.leb_le in H2. lia.
Qed.



Lemma sf_pos_if (b : bool) (m : positive) (e : Z) :
  sf_pos (if b then S754_finite false m e else S754_infinity false).
Proof. now destruct b. Qed.

Lemma binary_normalize_pos (m : positive) (e : Z) :
  emin <= e -> sf_pos (binary_normalize prec emax (Z.pos m) e false).
Proof.
  intros He. simpl.
  destruct (binary_round_lower false m e emin) as (m' & e' & d & -> & _); [lia | |apply sf_pos_if].
  destruct (Z.eq_dec e emin) as [->|]; [rewrite Z.sub_diag; simpl; lia|].
  rewrite Z.pow_neg_r by lia. lia.
Qed.

Lemma compare_lt_finite (sx sy : bool) (mx my : positive) (ex ey : Z) :
  SFcompare (S754_finite sx mx ex) (S754_finite sy my ey) = Some Lt ->
  valid_binary (S754_finite sx mx ex) = true ->
  valid_binary (S754_finite sy my ey) = true ->
  0 < cond_Zopp sy (Z.pos my * 2 ^ (ey - Z.min ey ex))
      - cond_Zopp sx (Z.pos mx * 2 ^ (ex - Z.min ey ex)).
Proof.
  intros Hc Hx Hy.
  apply valid_finite in Hx as (Hx1 & _ & Hx3 & Hx4).
  apply valid_finite in Hy as (Hy1 & _ & Hy3 & Hy4).
  destruct (digits2_pos_bounds mx) as [Hdx1 Hdx2].
  destruct (digits2_pos_bounds my) as [Hdy1 Hdy2].
  assert (forall m : positive, Z.pos (digits2_pos m) <= prec -> Z.pos m < 2 ^ (prec - 1) * 2) as Hub.
  { intros m Hm. destruct (digits2_pos_bounds m) as [_ Hd].
    assert (2 ^ Z.pos (digits2_pos m) <= 2 ^ prec) by (apply Z.pow_le_mono_r; lia).
    change (2 ^ (prec - 1) * 2) with (2 ^ prec). lia. }
  assert (forall a b : Z, a < b -> 2 <= 2 ^ (b - Z.min a b) /\ 2 ^ (a - Z.min a b) = 1
                                    /\ 2 <= 2 ^ (b - Z.min b a) /\ 2 ^ (a - Z.min b a) = 1) as Hp.
  { intros a b Hab. rewrite (Z.min_comm b a), Z.min_l, Z.sub_diag by lia.
    assert (2 ^ 1 <= 2 ^ (b - a)) by (apply Z.pow_le_mono_r; lia). simpl in *. lia. }
  pose proof (Hub mx Hx3) as Hmx. pose proof (Hub my Hy3) as Hmy.
  simpl in Hc. destruct sx, sy; unfold cond_Zopp; try discriminate.
  - (* both negative *)
    destruct (ex ?= ey) eqn:Ee; try discriminate.
    + apply Z.compare_eq in Ee as ->. rewrite Z.min_id, Z.sub_diag, Z.pow_0_r.
      injection Hc as Hc. apply (f_equal CompOpp) in Hc. rewrite CompOpp_involutive in Hc.
      simpl in Hc. change (Pos.compare_cont Eq mx my) with (Pos.compare mx my) in Hc.
      apply Pos.compare_gt_iff in Hc. lia.
    + apply Z.compare_gt_iff in Ee. destruct (Hp ey ex Ee) as (H1 & H2 & _).
      rewrite H2. rewrite Hx4 in Hdx1 by lia. nia.
  - (* x negative, y positive *)
    assert (0 < 2 ^ (ey - Z.min ey ex)) by (apply pow2_pos; lia).
    assert (0 < 2 ^ (ex - Z.min ey ex)) by (apply pow2_pos; lia). nia.
  - (* both positive *)
    destruct (ex ?= ey) eqn:Ee; try discriminate.
    + apply Z.compare_eq in Ee as ->. rewrite Z.min_id, Z.sub_diag, Z.pow_0_r.
      injection Hc as Hc. change (Pos.compare_cont Eq mx my) with (Pos.compare mx my) in Hc.
      change ((mx < my)%positive) in Hc. lia.
    + change (ex < ey) in Ee. destruct (Hp ex ey Ee) as (_ & _ & H1 & H2).
      rewrite H2. rewrite Hy4 in Hdy1 by lia. nia.
Qed.

Lemma SFsub_pos (x y : spec_float) :
  SFcompare x y = Some Lt -> valid_binary x = true -> valid_binary y = true ->
  sf_pos (SF64sub y x).
Proof.
  intros Hc Hx Hy.
  destruct x as [sx|sx| |sx mx ex], y as [sy|sy| |sy my ey]; try discriminate;
    try (repeat match goal with b : bool |- _ => destruct b end;
         simpl in Hc |- *; (discriminate || exact I)).
  pose proof (compare_lt_finite _ _ _ _ _ _ Hc Hx Hy) as HM.
  apply valid_finite in Hx as (Hx1 & _). apply valid_finite in Hy as (Hy1 & _).
  unfold SF64sub, SFsub.
  rewrite !shl_align_value by lia.
  destruct (cond_Zopp sy (Z.pos my * 2 ^ (ey - Z.min ey ex))
            - cond_Zopp sx (Z.pos mx * 2 ^ (ex - Z.min ey ex))) as [|M|M] eqn:EM; try lia.
  apply binary_normalize_pos. lia.
Qed.


Lemma shr_fexp_nonneg (m e : Z) (l : location) :
  0 <= m -> 0 <= shr_m (fst (shr_fexp prec emax m e l)).
Proof.
  intros Hm. unfold shr_fexp, shr.
  destruct (fexp prec emax (Zdigits2 m + e) - e) as [|p|p]; simpl fst;
    rewrite ?iter_shr_1_m, ?shr_m_of_loc; try rewrite shr_m_of_loc; try assumption.
  apply Z.div_pos; [assumption | apply pow2_pos; lia].
Qed.

Lemma round_nearest_even_nonneg (m : Z) (l : location) :
  0 <= m -> 0 <= round_nearest_even m l.
Proof.
  intros Hm. destruct l as [|[]]; unfold round_nearest_even; try lia.
  destruct (Z.even m); lia.
Qed.

Lemma binary_round_aux_nonneg (m : positive) (e : Z) (l : location) :
  sf_nonneg (binary_round_aux prec emax false (Z.pos m) e l).
Proof.
  unfold binary_round_aux.
  pose proof (shr_fexp_nonneg (Z.pos m) e l) as H1.
  destruct (shr_fexp prec emax (Z.pos m) e l) as [mrs1 e1]. simpl fst in H1.
  pose proof (shr_fexp_nonneg (round_nearest_even (shr_m mrs1) (loc_of_shr_record mrs1))
                e1 loc_Exact) as H2.
  destruct (shr_fexp prec emax _ e1 loc_Exact) as [mrs2 e2]. simpl fst in H2.
  destruct (shr_m mrs2) as [|q|q] eqn:Eq.
  - exact I.
  - destruct (e2 <=? emax - prec); exact I.
  - exfalso. pose proof (Pos2Z.neg_is_neg q).
    assert (0 <= Z.neg q); [|lia].
    apply H2. apply round_nearest_even_nonneg. apply H1. lia.
Qed.



Lemma sf_ge1_finite_pos (x : spec_float) : sf_ge1 x -> sf_finite_pos x.
Proof. destruct x as [| | |[] m e]; simpl; tauto. Qed.

Lemma sf_pos_nonneg (x : spec_float) : sf_pos x -> sf_nonneg x.
Proof. destruct x as [|[]| |[] m e]; simpl; tauto. Qed.

Lemma SFmul_nonneg (x y : spec_float) :
  sf_finite_pos x -> sf_nonneg y -> sf_nonneg (SF64mul x y).
Proof.
  destruct x as [| | |[] mx ex]; try contradiction. intros _.
  destruct y as [sy|[]| |[] my ey]; try contradiction; intros _; try exact I.
  apply binary_round_aux_nonneg.
Qed.

Lemma SFmul_pos_inv (x y : spec_float) :
  sf_finite_pos x -> sf_nonneg y -> sf_pos (SF64mul x y) -> sf_pos y.
Proof.
  destruct x as [| | |[] mx ex]; try contradiction. intros _.
  destruct y as [sy|[]| |[] my ey]; try contradiction; intros _; simpl; tauto.
Qed.

Lemma SFmul_pos (x y : spec_float) :
  sf_ge1 x -> sf_pos y -> valid_binary y = true -> sf_pos (SF64mul x y).
Proof.
  destruct x as [| | |[] mx ex]; try contradiction. intros Hx.
  destruct y as [sy|[]| |[] my ey]; try contradiction; intros _ Hy; try exact I.
  apply valid_finite in Hy as (Hy1 & _). unfold sf_ge1 in Hx.
  unfold SF64mul, SFmul. simpl xorb.
  destruct (binary_round_aux_lower false (mx * my) (ex + ey) emin loc_Exact)
    as (m' & e' & -> & _); [lia | | apply sf_pos_if].
  rewrite Pos2Z.inj_mul.
  destruct (Z_lt_le_dec (emin - (ex + ey)) 0); [rewrite Z.pow_neg_r by assumption; lia|].
  assert (2 ^ (emin - (ex + ey)) <= 2 ^ (- ex)) by (apply Z.pow_le_mono_r; lia).
  nia.
Qed.

Lemma SFadd_nonneg (x y : spec_float) :
  valid_binary x = true -> valid_binary y = true ->
  sf_nonneg x -> sf_nonneg y ->
  sf_nonneg (SF64add x y) /\ (sf_pos (SF64add x y) <-> sf_pos x \/ sf_pos y).
Proof.
  intros Vx Vy.
  destruct x as [sx|[]| |[] mx ex]; try contradiction; intros _;
    destruct y as [sy|[]| |[] my ey]; try contradiction; intros _;
    try (simpl; tauto).
  - destruct sx, sy; simpl; tauto.
  - apply valid_finite in Vx as (Hx1 & _). apply valid_finite in Vy as (Hy1 & _).
    unfold SF64add, SFadd. simpl cond_Zopp.
    assert (sf_pos (binary_normalize prec emax
               (Z.pos (fst (shl_align mx ex (Z.min ex ey)))
                + Z.pos (fst (shl_align my ey (Z.min ex ey)))) (Z.min ex ey) false)) as H
      by (apply binary_normalize_pos; lia).
    split; [now apply sf_pos_nonneg | simpl; tauto].
Qed.

(** The product of two values that are at least 1 and not too large. *)
Lemma SFmul_ge1 (mx my : positive) (ex ey : Z) :
  2 ^ (- ex) <= Z.pos mx -> 2 ^ (- ey) <= Z.pos my ->
  Z.pos mx <= 2 ^ 53 -> Z.pos my <= 2 ^ 53 -> -53 <= ex <= 200 -> -53 <= ey <= 200 ->
  sf_ge1 (SF64mul (S754_finite false mx ex) (S754_finite false my ey)).
Proof.
  intros Hx Hy Bx By Ex Ey. unfold SF64mul, SFmul. simpl xorb.
  destruct (binary_round_aux_lower false (mx * my) (ex + ey) 0 loc_Exact)
    as (m' & e' & -> & H1 & H2 & H3 & _).
  - rewrite emin_value. lia.
  - rewrite Pos2Z.inj_mul, Z.sub_0_l.
    destruct (Z_lt_le_dec (- ex) 0) as [Hex|Hex];
      destruct (Z_lt_le_dec (- ey) 0) as [Hey|Hey].
    + rewrite Z.pow_neg_r by lia. lia.
    + assert (2 ^ (- (ex + ey)) <= 2 ^ (- ey)) by (apply Z.pow_le_mono_r; lia). nia.
    + assert (2 ^ (- (ex + ey)) <= 2 ^ (- ex)) by (apply Z.pow_le_mono_r; lia). nia.
    + replace (- (ex + ey)) with ((- ex) + (- ey)) by lia.
      rewrite pow2_split by lia.
      assert (0 < 2 ^ (- ex)) by (apply pow2_pos; lia).
      assert (0 < 2 ^ (- ey)) by (apply pow2_pos; lia). nia.
  - assert (Z.pos (digits2_pos (mx * my)) <= 107) as Hd.
    { apply digits2_pos_le. rewrite Pos2Z.inj_mul.
      change (2 ^ 107) with (2 ^ 53 * 2 ^ 53 * 2). nia. }
    rewrite emin_value in *.
    replace (e' <=? emax - prec) with true by (symmetry; apply Z.leb_le; unfold emax, prec; lia).
    unfold sf_ge1. now rewrite Z.sub_0_l in H1.
Qed.

End BinaryRounding.

Section DoubleSign.

Local Open Scope float_scope.

Lemma Prim2SF_zero : Prim2SF 0 = S754_zero false.
Proof. reflexivity. Qed.

Lemma gt_0_sf_pos (x : float) : (0 <? x) = true <-> sf_pos (Prim2SF x).
Proof.
rewrite FloatAxioms.ltb_spec, Prim2SF_zero. unfold SFltb.
destruct (Prim2SF x) as [[]|[]| |[] m e]; simpl; intuition discriminate.
Qed.

Lemma sub_pos (x y : float) : (x <? y) = true -> (0 <? y - x) = true.
Proof.
intros H. apply gt_0_sf_pos. rewrite FloatAxioms.sub_spec.
apply SFsub_pos; try apply Prim2SF_valid.
rewrite FloatAxioms.ltb_spec in H. unfold SFltb in H.
now destruct (SFcompare (Prim2SF x) (Prim2SF y)) as [[]|].
Qed.

Lemma ge_0_sf_nonneg (x : float) : (0 <=? x) = true <-> sf_nonneg (Prim2SF x).
Proof.
  rewrite FloatAxioms.leb_spec, Prim2SF_zero. unfold SFleb.
  destruct (Prim2SF x) as [[]|[]| |[] m e]; simpl; intuition discriminate.
Qed.

Lemma add_nonneg (x y : float) :
  (0 <=? x) = true -> (0 <=? y) = true ->
  (0 <=? x + y) = true /\ ((0 <? x + y) = true <-> (0 <? x) = true \/ (0 <? y) = true).
Proof.
  rewrite !ge_0_sf_nonneg, !gt_0_sf_pos, FloatAxioms.add_spec.
  apply SFadd_nonneg; apply Prim2SF_valid.
Qed.

Lemma mul_ge1 (a p : float) :
  sf_ge1 (Prim2SF a) -> (0 <=? p) = true ->
  (0 <=? a * p) = true /\ ((0 <? a * p) = true <-> (0 <? p) = true).
Proof.
  rewrite !ge_0_sf_nonneg, !gt_0_sf_pos, FloatAxioms.mul_spec. intros Ha Hp.
  split; [apply SFmul_nonneg; [now apply sf_ge1_finite_pos | assumption] |].
  split.
  - apply SFmul_pos_inv; [now apply sf_ge1_finite_pos | assumption].
  - intros Hp'. apply SFmul_pos; [assumption | assumption | apply Prim2SF_valid].
Qed.

(** [(double) c] for an [int] c ≥ 1. *)
Lemma of_int_finite (c : Z) :
  (1 <= c < 2 ^ 31)%Z ->
  exists (m : positive) (e : Z),
    Prim2SF (Double.of_int c) = S754_finite false m e /\
    (2 ^ (- e) <= Z.pos m)%Z /\ (Z.pos m <= 2 ^ 53)%Z /\ (-53 <= e <= 200)%Z.
Proof.
  intros Hc. unfold Double.of_int.
  replace (c <? 0)%Z with false by (symmetry; apply Z.ltb_ge; lia).
  rewrite of_uint63_spec, Uint63.of_Z_spec, Z.mod_small
    by (change wB with (2 ^ 63)%Z; change (2 ^ 31)%Z with 2147483648%Z in Hc; lia).
  destruct c as [|M|M]; try lia. unfold binary_normalize.
  destruct (binary_round_lower false M 0 0) as (m & e & d & -> & H1 & H2 & H3 & H4 & H5 & H6).
  - rewrite emin_value. lia.
  - simpl. lia.
  - specialize (H6 31%Z ltac:(lia)). rewrite emin_value in *. unfold prec, emax in *.
    assert (2 ^ d <= 2 ^ 53)%Z by (apply Z.pow_le_mono_r; lia).
    assert (-53 <= e)%Z.
    { destruct (Z_le_gt_dec (-53) e); [assumption|].
      assert (2 ^ 54 <= 2 ^ (0 - e))%Z by (apply Z.pow_le_mono_r; lia).
      change (2 ^ 54)%Z with (2 * 2 ^ 53)%Z in *. lia. }
    replace (e <=? 1024 - 53)%Z with true by (symmetry; apply Z.leb_le; lia).
    exists m, e. rewrite Z.sub_0_l in H1. repeat split; try assumption; lia.
Qed.

Lemma of_int_ge1 (c : Z) : (1 <= c < 2 ^ 31)%Z -> sf_ge1 (Prim2SF (Double.of_int c)).
Proof.
  intros Hc. destruct (of_int_finite c Hc) as (m & e & -> & H & _). exact H.
Qed.

Lemma pow2_of_int_ge1 (c : Z) :
  (1 <= c < 2 ^ 31)%Z -> sf_ge1 (Prim2SF (Double.pow2 (Double.of_int c))).
Proof.
  intros Hc. unfold Double.pow2. rewrite FloatAxioms.mul_spec.
  destruct (of_int_finite c Hc) as (m & e & -> & H1 & H2 & H3).
  now apply SFmul_ge1.
Qed.

End DoubleSign.

(** ** The clamp of lines 202-213 *)

Section Clamp.

Local Open Scope float_scope.

Lemma clamp_tau_pos (tau current_time save_time : float) :
  (0 <? tau) = true → (0 <? save_time - current_time) = true →
  clamp_tau tau current_time save_time
  = Double.min (Double.max tau tau_floor) (save_time - current_time).
Proof. unfold clamp_tau, Double.gtb. now intros -> ->. Qed.

Lemma clamp_tau_nonpos (tau current_time save_time : float) :
  (0 <? tau) = false → clamp_tau tau current_time save_time = save_time - current_time.
Proof. unfold clamp_tau, Double.gtb. now intros ->. Qed.

Lemma clamp_tau_bounds (tau current_time save_time : float) :
  (0 <? save_time - current_time) = true →
  (0 <? clamp_tau tau current_time save_time) = true ∧
  (clamp_tau tau current_time save_time <=? save_time - current_time) = true.
Proof.
  intros Hd. destruct (0 <? tau) eqn:Ht.
  - rewrite clamp_tau_pos by done.
    assert ((0 <? Double.max tau tau_floor) = true) as Hm
      by (apply max_gt_0; [done | apply tau_floor_gt_0]).
    split; [now apply min_gt_0 |].
    apply min_le_r; eapply ltb_number_r; eassumption.
  - rewrite clamp_tau_nonpos by done. split; [done |].
    apply leb_refl. eapply ltb_number_r; eassumption.
Qed.

End Clamp.

(** ** Fields that the steps of [select] leave alone *)

Ltac unfold_setters :=
  unfold set_HOR, set_reactants, set_g_i_lambdas, set_g_i, set_epsilon_i,
    set_reactions_reactants, set_products in *; simpl in *.

Lemma lookup_touch `{Countable K} {V} (d : V) (m : gmap K V) (k k' : K) (v : V) :
  m !! k' = Some v → touch d m k !! k' = Some v.
Proof.
  intros Hv. unfold touch. destruct (m !! k) eqn:E; [done |].
  rewrite lookup_insert_ne; [done | congruence].
Qed.

Lemma select_moments_fields (model : Model.t) (a : TauArgs)
    (propensity_values : list float) (current_state : list Z) :
  let a' := (select_moments model a propensity_values current_state).1 in
  g_i_lambdas a' = g_i_lambdas a ∧ g_i a' = g_i a ∧ epsilon_i a' = epsilon_i a ∧
  reactants a' = reactants a ∧ critical_threshold a' = critical_threshold a.
Proof.
  unfold select_moments. generalize (moments_0 model).
  generalize (seq 0 (Model.number_reactions model)). intros l. revert a.
  induction l as [|r l IH]; intros a ms; simpl; [done |].
  destruct (IH (set_reactions_reactants (λ m, touch [] m r) a)
               (foldl (accumulate model (critical_threshold a) propensity_values
                                  current_state r) ms
                      (at_key [] (reactions_reactants a) r)))
    as (H1 & H2 & H3 & H4 & H5).
  simpl in *. by rewrite H1, H2, H3, H4, H5.
Qed.

Lemma bound_species_fst (current_state : list Z) (ms : Moments)
    (a : TauArgs) (tau_i : gmap string float) (r : Species.t) :
  (bound_species current_state ms (a, tau_i) r).1
  = set_epsilon_i (λ m, touch 0%float m (Species.name r)) a.
Proof. unfold bound_species. by destruct (Double.gtb _ _). Qed.

Lemma select_tau_i_fields (current_state : list Z) (ms : Moments) (a : TauArgs) :
  let a' := (select_tau_i current_state ms a).1 in
  g_i_lambdas a' = g_i_lambdas a ∧ g_i a' = g_i a ∧
  ∀ s v, epsilon_i a !! s = Some v → epsilon_i a' !! s = Some v.
Proof.
  assert (∀ l st,
    let a' := (foldl (bound_species current_state ms) st l).1 in
    g_i_lambdas a' = g_i_lambdas st.1 ∧ g_i a' = g_i st.1 ∧
    ∀ s v, epsilon_i st.1 !! s = Some v → epsilon_i a' !! s = Some v) as Hfold.
  { induction l as [|r l IH]; intros [a0 tau_i]; simpl foldl; [done |].
    destruct (IH (bound_species current_state ms (a0, tau_i) r)) as (H1 & H2 & H3).
    rewrite bound_species_fst in H1, H2, H3. simpl in *.
    split; [done |]. split; [done |].
    intros s v Hs. apply H3. by apply lookup_touch. }
  apply (Hfold (reactants a) (a, ∅)).
Qed.

(** ** The entries of a map, in key order *)

Lemma entries_Permutation {V} (m : gmap string V) : entries m ≡ₚ map_to_list m.
Proof. unfold entries. apply merge_sort_Permutation. Qed.

Lemma elem_of_entries {V} (m : gmap string V) (s : string) (v : V) :
  (s, v) ∈ entries m ↔ m !! s = Some v.
Proof. rewrite entries_Permutation. apply elem_of_map_to_list. Qed.

Lemma entries_empty {V} : entries (∅ : gmap string V) = [].
Proof.
  apply Permutation_nil_r. by rewrite entries_Permutation, map_to_list_empty.
Qed.

Lemma entries_head {V} (m : gmap string V) :
  m ≠ ∅ → ∃ k v, head (entries m) = Some (k, v) ∧ m !! k = Some v.
Proof.
  intros Hne. destruct (entries m) as [|[k v] l] eqn:E.
  - exfalso. apply Hne. apply map_to_list_empty_iff.
    apply Permutation_nil_r. by rewrite <- entries_Permutation, E.
  - exists k, v. split; [done |]. apply elem_of_entries. rewrite E. by left.
Qed.

Lemma size_pos_nonempty {V} (m : gmap string V) : m ≠ ∅ → (0 <? size m) = true.
Proof.
  intros Hne. apply Nat.ltb_lt.
  destruct (size m) eqn:E; [| lia]. by apply map_size_empty_iff in E.
Qed.

(** ** The critical branch reads a map that has an entry *)

Lemma accumulate_critical (model : Model.t) (threshold : Z)
    (propensity_values : list float) (current_state : list Z) (reaction : nat)
    (ms : Moments) (reactant : nat) :
  critical (accumulate model threshold propensity_values current_state reaction
                       ms reactant) = true →
  critical ms = true ∨ Double.gtb (at_index 0%float propensity_values reaction) 0 = true.
Proof.
  unfold accumulate.
  destruct (Model.species_change model reaction reactant <? 0)%Z; [| by left].
  cbn [critical].
  destruct (Double.gtb (at_index 0%float propensity_values reaction) 0); [by right |].
  rewrite andb_false_r. by left.
Qed.

Lemma moments_0_critical (model : Model.t) : critical (moments_0 model) = false.
Proof.
  unfold moments_0. generalize (seq 0 (Model.number_species model)).
  assert (critical (mkMoments false ∅ ∅) = false) as H0 by done.
  revert H0. generalize (mkMoments false ∅ ∅).
  intros ms H0 l. revert ms H0.
  induction l as [|i l IH]; intros ms H0; cbn [foldl]; [done |]. by apply IH.
Qed.

Lemma select_moments_critical (model : Model.t) (a : TauArgs)
    (propensity_values : list float) (current_state : list Z) :
  critical (select_moments model a propensity_values current_state).2 = true →
  ∃ r, r < Model.number_reactions model ∧
       Double.gtb (at_index 0%float propensity_values r) 0 = true.
Proof.
  unfold select_moments.
  assert (∀ l a ms,
    critical (foldl (moments_reaction model propensity_values current_state) (a, ms) l).2
    = true →
    critical ms = true ∨
    ∃ r, r ∈ l ∧ Double.gtb (at_index 0%float propensity_values r) 0 = true) as Hfold.
  { clear a. induction l as [|r l IH]; intros a ms Hc; cbn [foldl] in Hc; [by left |].
    unfold moments_reaction at 2 in Hc. apply IH in Hc as [Hc|(r' & Hr' & Hp)].
    - assert (∀ rs ms,
        critical (foldl (accumulate model (critical_threshold a) propensity_values
                                    current_state r) ms rs) = true →
        critical ms = true ∨
        Double.gtb (at_index 0%float propensity_values r) 0 = true) as Hrs.
      { induction rs as [|x rs IHrs]; intros ms0 H; cbn [foldl] in H; [by left |].
        apply IHrs in H as [H|H]; [| by right]. by apply accumulate_critical in H. }
      apply Hrs in Hc as [Hc|Hc]; [by left |].
      right. exists r. split; [by left | done].
    - right. exists r'. split; [by right | done]. }
  intros Hc. apply Hfold in Hc as [Hc|(r & Hr & Hp)].
  - by rewrite moments_0_critical in Hc.
  - exists r. split; [| done]. apply elem_of_seq in Hr. lia.
Qed.

Lemma critical_taus_nonempty (model : Model.t) (propensity_values : list float) (r : nat) :
  r < Model.number_reactions model →
  Double.gtb (at_index 0%float propensity_values r) 0 = true →
  critical_taus model propensity_values ≠ ∅.
Proof.
  intros Hr Hp. unfold critical_taus.
  assert (∀ l (m : gmap string float),
    m ≠ ∅ ∨ r ∈ l →
    foldl (λ m reaction,
             let p := at_index 0%float propensity_values reaction in
             if Double.gtb p 0
             then <[Model.reaction_name model reaction := (1 / p)%float]> m else m)
          m l ≠ ∅) as Hfold.
  { induction l as [|x l IH]; intros m Hm; cbn [foldl].
    - destruct Hm as [Hm|Hm]; [done | by apply elem_of_nil in Hm].
    - apply IH. destruct Hm as [Hm|Hm].
      + left. cbv zeta.
        destruct (Double.gtb (at_index 0%float propensity_values x) 0);
          [apply insert_non_empty | done].
      + apply elem_of_cons in Hm as [<-|Hm]; [| by right].
        left. cbv zeta. rewrite Hp. apply insert_non_empty. }
  apply Hfold. right. apply elem_of_seq. lia.
Qed.

(** When the critical flag is set, [critical_tau] is the second component of
    an entry of [critical_taus]. *)
Lemma select_critical_tau_defined (model : Model.t) (a : TauArgs)
    (propensity_values : list float) (current_state : list Z) :
  critical (select_moments model a propensity_values current_state).2 = true →
  ∃ x, min_element (entries (critical_taus model propensity_values)) = Some x ∧
       select_critical_tau model propensity_values true = x.2.
Proof.
  intros Hc. apply select_moments_critical in Hc as (r & Hr & Hp).
  pose proof (critical_taus_nonempty model propensity_values r Hr Hp) as Hne.
  unfold select_critical_tau, min_second.
  destruct (entries (critical_taus model propensity_values)) as [|x l] eqn:E.
  - exfalso. apply Hne. apply map_to_list_empty_iff.
    apply Permutation_nil_r. by rewrite <- entries_Permutation, E.
  - simpl. eauto.
Qed.

(** ** The loop of lines 154-162 *)

(** The iterator that stood on an erased entry cannot be incremented. *)
Lemma map_next_erased {V} (k : string) (m m' : gmap string V) (it : map_iterator) :
  it_key it = Some k → map_next m' (map_erase k m it).2 = Undefined.
Proof.
  intros Hk. unfold map_erase, map_next. cbn [snd].
  rewrite decide_True by done. cbn [it_key it_valid]. by rewrite Hk.
Qed.

Lemma refine_loop_pending (fuel : nat) (tau_tol : float) (a : TauArgs) :
  g_i_lambdas a ≠ ∅ →
  refine_loop (S fuel) tau_tol a (map_begin (g_i_lambdas a)) = Undefined.
Proof.
  intros Hne. destruct (entries_head _ Hne) as (k & f & Hh & Hk).
  assert (it_key (map_begin (g_i_lambdas a)) = Some k) as Hit
    by (unfold map_begin; cbn [it_key]; by rewrite Hh).
  cbn [refine_loop]. rewrite Hit, Hk.
  destruct (refine_g_i tau_tol a (k, f)) as [a1|]; [| done].
  unfold mbind, outcome_bind.
  pose proof (map_next_erased k (g_i_lambdas a1)) as Hn.
  destruct (map_erase k (g_i_lambdas a1) (map_begin (g_i_lambdas a))) as [m it] eqn:E.
  specialize (Hn (g_i_lambdas (set_g_i_lambdas (λ _, m) a1))
                 (map_begin (g_i_lambdas a)) Hit).
  rewrite E in Hn. cbn [snd] in Hn. by rewrite Hn.
Qed.

Lemma select_refine_empty (tau_tol : float) (a : TauArgs) :
  g_i_lambdas a = ∅ → select_refine tau_tol a = Returns a.
Proof. intros H. unfold select_refine. by rewrite H, map_size_empty. Qed.

Lemma select_refine_pending (tau_tol : float) (a : TauArgs) :
  g_i_lambdas a ≠ ∅ → select_refine tau_tol a = Undefined.
Proof.
  intros Hne. unfold select_refine. rewrite size_pos_nonempty by done.
  destruct (size (g_i_lambdas a)) eqn:E.
  - by apply map_size_empty_iff in E.
  - by apply refine_loop_pending.
Qed.

(** ** select, as a whole *)

Lemma select_moments_fst (model : Model.t) (a : TauArgs)
    (propensity_values : list float) (current_state : list Z) :
  (select_moments model a propensity_values current_state).1
  = set_reactions_reactants
      (λ m, foldl (λ m r, touch [] m r) m (seq 0 (Model.number_reactions model))) a.
Proof.
  unfold select_moments. generalize (moments_0 model).
  generalize (seq 0 (Model.number_reactions model)). intros l. revert a.
  induction l as [|r l IH]; intros a ms; cbn [foldl].
  - by destruct a.
  - unfold moments_reaction at 2. by rewrite IH.
Qed.

Lemma select_tau_i_fst (current_state : list Z) (ms : Moments) (a : TauArgs) :
  (select_tau_i current_state ms a).1
  = set_epsilon_i
      (λ m, foldl (λ m r, touch 0%float m (Species.name r)) m (reactants a)) a.
Proof.
  unfold select_tau_i. generalize (∅ : gmap string float).
  generalize (reactants a). intros l. revert a.
  induction l as [|r l IH]; intros a tau_i; cbn [foldl].
  - by destruct a.
  - pose proof (bound_species_fst current_state ms a tau_i r) as Hb.
    destruct (bound_species current_state ms (a, tau_i) r) as [a' tau_i'].
    simpl in Hb. subst a'. by rewrite IH.
Qed.

Lemma touched_eq (model : Model.t) (a : TauArgs)
    (propensity_values : list float) (current_state : list Z) :
  (select_tau_i current_state
     (select_moments model a propensity_values current_state).2
     (select_moments model a propensity_values current_state).1).1
  = touched model a.
Proof. by rewrite select_tau_i_fst, select_moments_fst. Qed.

Lemma touched_fields (model : Model.t) (a : TauArgs) :
  let a' := touched model a in
  g_i_lambdas a' = g_i_lambdas a ∧ g_i a' = g_i a ∧
  ∀ s v, epsilon_i a !! s = Some v → epsilon_i a' !! s = Some v.
Proof.
  cbv zeta. rewrite <- (touched_eq model a [] []).
  destruct (select_moments_fields model a [] []) as (M1 & M2 & M3 & _).
  destruct (select_tau_i_fields [] (select_moments model a [] []).2
              (select_moments model a [] []).1) as (T1 & T2 & T3).
  cbv zeta in *. rewrite T1, T2, M1, M2. split; [done |]. split; [done |].
  intros s v Hv. apply T3. by rewrite M3.
Qed.

(** A call that finds no function pending at line 154 returns, ... *)
Lemma select_pre_clamp_returns (model : Model.t) (a : TauArgs) (tau_tol : float)
    (propensity_values : list float) (current_state : list Z) :
  g_i_lambdas a = ∅ →
  select_pre_clamp model a tau_tol propensity_values current_state
  = Returns (select_step model a propensity_values current_state, touched model a).
Proof.
  intros He. rewrite <- (touched_eq model a propensity_values current_state).
  unfold select_pre_clamp, select_step, select_bounds.
  destruct (select_moments_fields model a propensity_values current_state) as (M1 & _).
  destruct (select_moments model a propensity_values current_state) as [a1 ms].
  cbn [fst snd] in *.
  rewrite select_refine_empty by congruence.
  unfold mbind, outcome_bind.
  by destruct (select_tau_i current_state ms a1).
Qed.

Lemma select_returns (model : Model.t) (a : TauArgs)
    (tau_tol current_time save_time : float)
    (propensity_values : list float) (current_state : list Z) :
  g_i_lambdas a = ∅ →
  select model a tau_tol current_time save_time propensity_values current_state
  = Returns (clamp_tau (select_step model a propensity_values current_state)
                       current_time save_time,
             touched model a).
Proof. intros He. unfold select. by rewrite select_pre_clamp_returns. Qed.

(** ... and a call that finds one has no defined result. *)
Lemma select_pending (model : Model.t) (a : TauArgs)
    (tau_tol current_time save_time : float)
    (propensity_values : list float) (current_state : list Z) :
  g_i_lambdas a ≠ ∅ →
  select model a tau_tol current_time save_time propensity_values current_state
  = Undefined.
Proof.
  intros Hne. unfold select, select_pre_clamp.
  destruct (select_moments_fields model a propensity_values current_state) as (M1 & _).
  destruct (select_moments model a propensity_values current_state) as [a1 ms].
  cbn [fst] in M1. rewrite select_refine_pending by congruence. done.
Qed.

Lemma select_calls_returns (cs : list call) (a : TauArgs) :
  g_i_lambdas a = ∅ →
  ∃ an, select_calls a cs = Returns an ∧
        g_i_lambdas an = ∅ ∧ g_i an = g_i a ∧
        ∀ s v, epsilon_i a !! s = Some v → epsilon_i an !! s = Some v.
Proof.
  unfold select_calls. revert a. induction cs as [|c cs IH]; intros a Ha; cbn [foldl].
  - by exists a.
  - unfold select_call at 2, mbind at 2, outcome_bind.
    rewrite select_returns by done. unfold mbind, outcome_bind.
    destruct (touched_fields (call_model c) a) as (F1 & F2 & F3). cbv zeta in *.
    destruct (IH (touched (call_model c) a)) as (an & E & I1 & I2 & I3);
      [congruence |].
    exists an. split; [done |]. split; [done |]. split; [congruence |].
    intros s v Hv. by apply I3, F3.
Qed.

(** ** Results on [select] *)

(** C1. On the [tau_args] that [initialize] returns for the reactions
    2A + B -> 0 and A + B + C -> 0 a deferred bound function is pending, and
    the call of [select] with [current_time = 0 < save_time = 1] and the
    positive propensities 2 and 0.5 has no defined result: it returns no
    step, in (0, [save_time - current_time]] or elsewhere. *)
Theorem C1_select_undefined_with_pending_function :
  let a := initialize example_model example_tau_tol in
  (0 <? 1)%float = true ∧
  (∃ r p, [2; 0.5]%float !! r = Some p ∧ (0 <? p)%float = true) ∧
  g_i_lambdas a !! "A" = Some lambda_2_2 ∧
  select example_model a example_tau_tol 0 1 [2; 0.5]%float [100; 100; 100]%Z = Undefined.
Proof.
  cbv zeta. split; [reflexivity |]. split; [by exists 0, 2%float |].
  split; vm_compute; reflexivity.
Qed.

(** C2. When a deferred bound function is pending, the loop of lines 156-161
    does not get past its first entry: line 160 erases the entry that the
    loop's iterator stands on, the iterator cannot be incremented after that,
    and neither the loop nor the call of [select] has a defined result.  No
    pending function is evaluated and removed by a call that returns. *)
Theorem C2_refinement_loop_undefined (a : TauArgs) (tau_tol : float)
    (s : string) (f : float → float) :
  g_i_lambdas a !! s = Some f →
  (∃ k, it_key (map_begin (g_i_lambdas a)) = Some k ∧
        ∀ m m' : gmap string (float → float),
          map_next m' (map_erase k m (map_begin (g_i_lambdas a))).2 = Undefined) ∧
  (∀ fuel, refine_loop (S fuel) tau_tol a (map_begin (g_i_lambdas a)) = Undefined) ∧
  select_refine tau_tol a = Undefined ∧
  ∀ model current_time save_time propensity_values current_state,
    select model a tau_tol current_time save_time propensity_values current_state
    = Undefined.
Proof.
  intros Hs.
  assert (g_i_lambdas a ≠ ∅) as Hne by (intros E; by rewrite E, lookup_empty in Hs).
  split; [| split; [| split]].
  - destruct (entries_head _ Hne) as (k & g & Hh & _).
    assert (it_key (map_begin (g_i_lambdas a)) = Some k) as Hit
      by (unfold map_begin; cbn [it_key]; by rewrite Hh).
    exists k. split; [done |]. intros m m'. by apply map_next_erased.
  - intros fuel. by apply refine_loop_pending.
  - by apply select_refine_pending.
  - intros. by apply select_pending.
Qed.

Lemma C2_refinement_loop_undefined_witness :
  let a := initialize example_model example_tau_tol in
  select_refine example_tau_tol a = Undefined ∧
  select example_model a example_tau_tol 0 1 [2; 0.5]%float [100; 100; 100]%Z = Undefined.
Proof.
  intros a.
  assert (g_i_lambdas a !! "A" = Some lambda_2_2) as H by (vm_compute; reflexivity).
  destruct (C2_refinement_loop_undefined a example_tau_tol "A" lambda_2_2 H)
    as (_ & _ & H1 & H2).
  split; [exact H1 | apply H2].
Defined.

(** The conversion to [int] rounds toward zero: a finite value
    [± m * 2 ^ e] becomes the quotient, truncated toward zero, of its
    numerator by its denominator. *)
Lemma truncate_finite (sg : bool) (m : positive) (e : Z) :
  Double.truncate (S754_finite sg m e)
  = Some (Z.quot (cond_Zopp sg (Z.pos m * 2 ^ Z.max e 0)) (2 ^ Z.max (- e) 0))%Z.
Proof.
  unfold Double.truncate. f_equal. destruct (Z.leb_spec 0 e) as [He|He].
  - rewrite Z.max_l, Z.max_r, Z.pow_0_r, Z.quot_1_r by lia. by destruct sg.
  - rewrite Z.max_r, Z.max_l, Z.pow_0_r, Z.mul_1_r by lia.
    assert (0 < 2 ^ (- e))%Z by (apply Z.pow_pos_nonneg; lia).
    destruct sg; simpl cond_Zopp.
    + rewrite Z.quot_opp_l, Z.quot_div_nonneg by lia. done.
    + rewrite Z.quot_div_nonneg by lia. done.
Qed.

(** C10 (amended). Lines 158-159, for a pending function whose value at the
    species' [g_i] is finite and has its integer part in the range of [int]:
    [g_i] receives the value truncated toward zero, and [epsilon_i] receives
    [tau_tol] divided by that integer. *)
Theorem C10_refined_g_i_truncated (a : TauArgs) (tau_tol : float) (s : string)
    (f : float → float) (sg : bool) (m : positive) (e : Z) :
  Prim2SF (f (Double.of_int (at_key 0%Z (g_i a) s))) = S754_finite sg m e →
  let z := (Z.quot (cond_Zopp sg (Z.pos m * 2 ^ Z.max e 0)) (2 ^ Z.max (- e) 0))%Z in
  (Double.INT_MIN ≤ z ≤ Double.INT_MAX)%Z →
  ∃ a1, refine_g_i tau_tol a (s, f) = Returns a1 ∧
        g_i a1 !! s = Some z ∧
        epsilon_i a1 !! s = Some (tau_tol / Double.of_int z)%float.
Proof.
  intros Hf z Hz. unfold refine_g_i, Double.to_int. cbn [fst snd].
  rewrite Hf, truncate_finite. fold z.
  destruct Hz as [Hz1 Hz2]. apply Z.leb_le in Hz1, Hz2. rewrite Hz1, Hz2. cbn [andb].
  eexists. split; [done |]. unfold_setters.
  rewrite !lookup_insert_eq. unfold at_key. by rewrite lookup_insert_eq.
Qed.

Lemma C10_refined_g_i_truncated_witness :
  let a := initialize example_model_2_3 example_tau_tol in
  g_i_lambdas a !! "A" = Some lambda_2_3 ∧
  lambda_2_3 (Double.of_int (at_key 0%Z (g_i a) "A")) = 2.5%float ∧
  ∃ a1, refine_g_i example_tau_tol a ("A", lambda_2_3) = Returns a1 ∧
        g_i a1 !! "A" = Some 2%Z ∧
        epsilon_i a1 !! "A" = Some (example_tau_tol / Double.of_int 2)%float.
Proof.
  intros a.
  assert (Prim2SF (lambda_2_3 (Double.of_int (at_key 0%Z (g_i a) "A")))
          = S754_finite false 5629499534213120 (-51)) as H2 by (vm_compute; reflexivity).
  assert (Double.INT_MIN ≤ 2 ≤ Double.INT_MAX)%Z as H3 by (vm_compute; split; discriminate).
  split; [vm_compute; reflexivity |]. split; [vm_compute; reflexivity |].
  exact (C10_refined_g_i_truncated a example_tau_tol "A" lambda_2_3 false
           5629499534213120 (-51) H2 H3).
Defined.

(** C10, as stated, fails for the reaction 3A -> 0: the function pending for
    A is [lambda_3] and [g_i] of A is 1, where the function divides by zero
    and returns +infinity.  That value has no integer part, its conversion to
    [int] is undefined, and lines 158-159 store no truncated integer. *)
Lemma C10_counterexample :
  let a := initialize example_model_3A example_tau_tol in
  g_i_lambdas a !! "A" = Some lambda_3 ∧ g_i a !! "A" = Some 1%Z ∧
  Prim2SF (lambda_3 (Double.of_int 1)) = S754_infinity false ∧
  Double.truncate (S754_infinity false) = None ∧
  refine_g_i example_tau_tol a ("A", lambda_3) = Undefined.
Proof. repeat split; vm_compute; reflexivity. Qed.

(** ** All propensities zero *)

Section AllZero.

Local Open Scope float_scope.

Lemma eqb_0_zero (p : float) : (p =? 0) = true → ∃ s, Prim2SF p = S754_zero s.
Proof.
  rewrite FloatAxioms.eqb_spec, Prim2SF_zero. unfold SFeqb.
  destruct (Prim2SF p) as [s|[]| |[] m e]; simpl; try discriminate. eauto.
Qed.

Lemma zero_or_nan_mul (a p : float) (s : bool) :
  Prim2SF p = S754_zero s → sf_zero_or_nan (Prim2SF (a * p)).
Proof.
  intros Hp. rewrite FloatAxioms.mul_spec, Hp.
  destruct (Prim2SF a) as [|[]| |[]]; exact I.
Qed.

Lemma zero_or_nan_add (a b : float) :
  sf_zero_or_nan (Prim2SF a) → sf_zero_or_nan (Prim2SF b) →
  sf_zero_or_nan (Prim2SF (a + b)).
Proof.
  rewrite FloatAxioms.add_spec.
  destruct (Prim2SF a) as [[]| | |], (Prim2SF b) as [[]| | |]; simpl; tauto.
Qed.

Lemma zero_or_nan_not_gt (a : float) :
  sf_zero_or_nan (Prim2SF a) → Double.gtb a 0 = false.
Proof.
  unfold Double.gtb. rewrite FloatAxioms.ltb_spec, Prim2SF_zero. unfold SFltb.
  destruct (Prim2SF a) as [[]| | |]; simpl; tauto.
Qed.

Lemma at_index_zero (propensity_values : list float) (reaction : nat) :
  Forall (λ p, (p =? 0) = true) propensity_values →
  ∃ s, Prim2SF (at_index 0 propensity_values reaction) = S754_zero s.
Proof.
  intros Hall. unfold at_index.
  destruct (propensity_values !! reaction) as [p|] eqn:E; simpl.
  - apply eqb_0_zero. exact (Forall_lookup_1 _ _ _ _ Hall E).
  - by exists false.
Qed.

Lemma accumulate_quiet (model : Model.t) (threshold : Z)
    (propensity_values : list float) (current_state : list Z) (reaction : nat)
    (ms : Moments) (reactant : nat) :
  Forall (λ p, (p =? 0) = true) propensity_values →
  quiet ms →
  quiet (accumulate model threshold propensity_values current_state reaction ms reactant).
Proof.
  intros Hall [Hc Hmu]. unfold accumulate.
  destruct (Model.species_change model reaction reactant <? 0)%Z; [| done].
  destruct (at_index_zero propensity_values reaction Hall) as [s Hp].
  split; simpl.
  - rewrite (zero_or_nan_not_gt (at_index 0 propensity_values reaction))
      by (rewrite Hp; exact I).
    by rewrite andb_false_r.
  - intros nm. unfold at_key at 1.
    destruct (decide (Model.species_name model reactant = nm)) as [->|Hne].
    + rewrite lookup_insert_eq. simpl.
      apply zero_or_nan_add; [apply Hmu | by eapply zero_or_nan_mul].
    + rewrite lookup_insert_ne by done. apply Hmu.
Qed.

Lemma moments_0_quiet (model : Model.t) : quiet (moments_0 model).
Proof.
  unfold moments_0.
  assert (quiet (mkMoments false ∅ ∅)) as H0.
  { split; [done |]. intros nm. unfold at_key. simpl.
    rewrite lookup_empty. exact I. }
  revert H0. generalize (mkMoments false ∅ ∅).
  generalize (seq 0 (Model.number_species model)).
  induction l as [|i l IH]; intros ms Hq; simpl; [done |].
  apply IH. destruct Hq as [Hc Hmu]. split; [done |].
  intros nm. simpl. unfold at_key.
  destruct (decide (Model.species_name model i = nm)) as [->|Hne].
  - rewrite lookup_insert_eq. exact I.
  - rewrite lookup_insert_ne by done. apply Hmu.
Qed.

Lemma select_moments_quiet (model : Model.t) (a : TauArgs)
    (propensity_values : list float) (current_state : list Z) :
  Forall (λ p, (p =? 0) = true) propensity_values →
  quiet (select_moments model a propensity_values current_state).2.
Proof.
  intros Hall. unfold select_moments.
  generalize (moments_0_quiet model). generalize (moments_0 model).
  generalize (seq 0 (Model.number_reactions model)). intros l. revert a.
  induction l as [|r l IH]; intros a ms Hq; simpl; [done |].
  apply IH. generalize (at_key [] (reactions_reactants a) r). intros rs.
  revert ms Hq. induction rs as [|x rs IHrs]; intros ms Hq; simpl; [done |].
  apply IHrs. by apply accumulate_quiet.
Qed.

Lemma select_tau_i_empty (current_state : list Z) (ms : Moments) (a : TauArgs) :
  (∀ nm, Double.gtb (at_key 0 (mu_i ms) nm) 0 = false) →
  (select_tau_i current_state ms a).2 = ∅.
Proof.
  intros Hmu. unfold select_tau_i.
  generalize (reactants a). intros l. revert a.
  induction l as [|r l IH]; intros a; simpl foldl; [done |].
  rewrite Hmu. apply IH.
Qed.

End AllZero.

(** C6. On the [tau_args] that [initialize] returns for the reactions
    2A + B -> 0 and A + B + C -> 0 a deferred bound function is pending, and
    the call of [select] with every propensity zero and
    [current_time = 0 < save_time = 1] has no defined result: it does not
    return [save_time - current_time]. *)
Theorem C6_select_undefined_at_zero_propensities :
  let a := initialize example_model example_tau_tol in
  Forall (λ p, (p =? 0)%float = true) [0; 0]%float ∧
  (0 <? 1)%float = true ∧
  g_i_lambdas a !! "A" = Some lambda_2_2 ∧
  select example_model a example_tau_tol 0 1 [0; 0]%float [100; 100; 100]%Z = Undefined.
Proof.
  cbv zeta. split; [repeat constructor |]. split; [reflexivity |].
  split; vm_compute; reflexivity.
Qed.

(** ** The deferred bound function of line 80 *)

(** C3. For the reaction 2A + B + C -> 0 the function installed for A is
    [lambda_2_3], whose factor [3 / 2] is 1: at 3 it returns 2.5, where
    [1.5 * (2 + 1 / (x - 1))] is 3.75. *)
Theorem C3_lambda_2_3_factor_is_one :
  g_i_lambdas (initialize example_model_2_3 example_tau_tol) !! "A" = Some lambda_2_3 ∧
  (∀ x : float, lambda_2_3 x = (1 * (2 + 1 / (x - 1)))%float) ∧
  lambda_2_3 3 = 2.5%float ∧
  (1.5 * (2 + 1 / (3 - 1)))%float = 3.75%float.
Proof.
  split; [vm_compute; reflexivity |].
  split; [intros x; reflexivity |].
  split; vm_compute; reflexivity.
Qed.

(** ** Results on [get_reactions] *)

Lemma get_reactions_snd (mt19937 : Type) (mt19937_seed : Z → mt19937)
    (poisson : float → mt19937 → Z * mt19937) (rd : Z) (model : Model.t)
    (propensity_values : list float) (tau_step current_time save_time : float) :
  (get_reactions mt19937 mt19937_seed poisson rd model propensity_values
                 tau_step current_time save_time).2
  = (current_time + clip_tau_step tau_step current_time save_time)%float.
Proof.
  unfold get_reactions. by destruct (foldl _ _ _).
Qed.

(** C8. With [current_time = 1.5 * 2^-52], [save_time = 1 + 3 * 2^-52] and
    [tau_step = 10] the step is clipped to [save_time - current_time], which
    rounds to [1 + 2 * 2^-52], and the returned time
    [current_time + tau_step] rounds to [1 + 4 * 2^-52], past [save_time]. *)
Theorem C8_new_time_exceeds_save_time (mt19937 : Type) (mt19937_seed : Z → mt19937)
    (poisson : float → mt19937 → Z * mt19937) (rd : Z) (model : Model.t)
    (propensity_values : list float) :
  let current_time := 0x1.8p-52%float in
  let save_time := 0x1.0000000000003p+0%float in
  let new_time :=
    (get_reactions mt19937 mt19937_seed poisson rd model propensity_values
                   10 current_time save_time).2 in
  (current_time <=? save_time)%float = true ∧
  clip_tau_step 10 current_time save_time = 0x1.0000000000002p+0%float ∧
  new_time = 0x1.0000000000004p+0%float ∧
  (save_time <? new_time)%float = true.
Proof.
  intros current_time save_time new_time. subst new_time.
  rewrite get_reactions_snd. repeat split; vm_compute; reflexivity.
Qed.

Lemma reaction_names_seq (model : Model.t) :
  Model.reaction_name model <$> seq 0 (Model.number_reactions model)
  = Reaction.name <$> Model.reactions model.
Proof.
  unfold Model.number_reactions, Model.reaction_name.
  apply list_eq. intros i. rewrite !list_lookup_fmap.
  destruct (Model.reactions model !! i) as [rxn|] eqn:E; simpl.
  - rewrite lookup_seq_lt by (eapply lookup_lt_Some; eassumption). simpl. by rewrite E.
  - rewrite lookup_seq_ge; [done |]. by apply lookup_ge_None.
Qed.

Section Fire.

Variable mt19937 : Type.
Variable poisson : float → mt19937 → Z * mt19937.
Variable model : Model.t.
Variable propensity_values : list float.
Variable tau_step : float.

Lemma fire_fold (l : list nat) (rxn_count : gmap string Z) (generator : mt19937) :
  NoDup (Model.reaction_name model <$> l) →
  let out := (foldl (fire mt19937 poisson model propensity_values tau_step)
                    (rxn_count, generator) l).1 in
  (∀ nm, nm ∉ Model.reaction_name model <$> l → out !! nm = rxn_count !! nm) ∧
  (∀ j i, l !! j = Some i →
     out !! Model.reaction_name model i
     = draws mt19937 poisson
         ((λ i, at_index 0%float propensity_values i * tau_step)%float <$> l)
         generator !! j).
Proof.
  revert rxn_count generator.
  induction l as [|i l IH]; intros rxn_count generator Hnd.
  - simpl. split; [done | intros j i Hj; by rewrite lookup_nil in Hj].
  - rewrite fmap_cons in Hnd. apply NoDup_cons in Hnd as [Hi Hnd].
    simpl foldl. simpl draws.
    destruct (poisson (at_index 0%float propensity_values i * tau_step)%float generator)
      as [n generator'] eqn:Ep.
    destruct (IH (<[Model.reaction_name model i := n]> rxn_count) generator' Hnd)
      as [H1 H2].
    split.
    + intros nm Hnm. rewrite fmap_cons in Hnm. apply not_elem_of_cons in Hnm as [Hne Hnm].
      rewrite H1 by done. by rewrite lookup_insert_ne.
    + intros [|j] i' Hj; simpl in Hj.
      * injection Hj as <-. rewrite H1 by done. by rewrite lookup_insert_eq.
      * by apply H2.
Qed.

End Fire.

(** C9 (amended). A call of [get_reactions] draws from a generator of its
    own, which it seeds with the value that [std::random_device] yields in
    the call.  With distinct reaction names, the count of each reaction is
    one Poisson draw with mean [propensity * tau_step] ([tau_step] clipped to
    [save_time - current_time]), the draws being taken from that generator in
    reaction order; the returned time is [current_time] plus the clipped
    [tau_step]. *)
Theorem C9_get_reactions_draws (mt19937 : Type) (mt19937_seed : Z → mt19937)
    (poisson : float → mt19937 → Z * mt19937) (rd : Z) (model : Model.t)
    (propensity_values : list float) (tau_step current_time save_time : float) :
  NoDup (Reaction.name <$> Model.reactions model) →
  let out := get_reactions mt19937 mt19937_seed poisson rd model propensity_values
                           tau_step current_time save_time in
  out.2 = (current_time + clip_tau_step tau_step current_time save_time)%float ∧
  ∀ r, r < Model.number_reactions model →
    out.1 !! Model.reaction_name model r
    = draws mt19937 poisson
        (firing_mean propensity_values tau_step current_time save_time
           <$> seq 0 (Model.number_reactions model))
        (mt19937_seed rd) !! r.
Proof.
  intros Hnd out. subst out. split.
  - apply get_reactions_snd.
  - intros r Hr. rewrite <- reaction_names_seq in Hnd.
    destruct (fire_fold mt19937 poisson model propensity_values
                (clip_tau_step tau_step current_time save_time)
                (seq 0 (Model.number_reactions model)) ∅ (mt19937_seed rd) Hnd)
      as [_ H].
    specialize (H r r (lookup_seq_lt _ _ _ Hr)).
    unfold get_reactions.
    destruct (foldl _ _ _) as [rxn_count generator]. exact H.
Qed.

Lemma C9_get_reactions_draws_witness :
  let out := get_reactions Z counter_seed counter_draw 7 example_model [2; 0.5]%float
                           10 0 1 in
  out.2 = (0 + clip_tau_step 10 0 1)%float ∧
  ∀ r, r < Model.number_reactions example_model →
    out.1 !! Model.reaction_name example_model r
    = draws Z counter_draw
        (firing_mean [2; 0.5]%float 10 0 1 <$> seq 0 (Model.number_reactions example_model))
        (counter_seed 7) !! r.
Proof.
  assert (NoDup (Reaction.name <$> Model.reactions example_model)) as H
    by (refine (bool_decide_unpack _ _); vm_compute; exact I).
  exact (C9_get_reactions_draws Z counter_seed counter_draw 7 example_model
           [2; 0.5]%float 10 0 1 H).
Defined.

(** C9, as stated, fails: no generator state is among the inputs of
    [get_reactions] or shared between its calls.  Two calls with the same
    five arguments, in which [std::random_device] yields 7 and then 8, return
    different counts (the generator here shows its state in its draws). *)
Lemma C9_counterexample :
  get_reactions Z counter_seed counter_draw 7 example_model [2; 0.5]%float 10 0 1
  ≠ get_reactions Z counter_seed counter_draw 8 example_model [2; 0.5]%float 10 0 1.
Proof.
  intros E. apply (f_equal (λ out, out.1 !! "R1")) in E. vm_compute in E. discriminate.
Qed.

(** ** initialize *)

Lemma scan_species_produced (model : Model.t) (r : nat) (rxn_order : Z) (a : TauArgs)
    (i : nat) :
  (0 < Model.species_change model r i)%Z →
  scan_species model r (rxn_order, a) i = (rxn_order, set_products (push_back r i) a).
Proof.
  intros H. unfold scan_species. apply Z.ltb_lt in H. by rewrite H.
Qed.

Lemma scan_species_consumed (model : Model.t) (r : nat) (rxn_order : Z) (a : TauArgs)
    (i : nat) :
  (Model.species_change model r i < 0)%Z →
  scan_species model r (rxn_order, a) i
  = ((rxn_order + 1)%Z,
     set_reactants
       (set_insert (at_index (Species.mk 0 EmptyString 0) (Model.species model) i))
       (set_reactions_reactants (push_back r i) a)).
Proof.
  intros H. unfold scan_species.
  replace (0 <? Model.species_change model r i)%Z with false
    by (symmetry; apply Z.ltb_ge; lia).
  apply Z.ltb_lt in H. by rewrite H.
Qed.

Lemma scan_species_untouched (model : Model.t) (r : nat) (rxn_order : Z) (a : TauArgs)
    (i : nat) :
  Model.species_change model r i = 0%Z →
  scan_species model r (rxn_order, a) i = (rxn_order, a).
Proof. intros H. unfold scan_species. by rewrite H. Qed.

Lemma scan_species_fold (model : Model.t) (r : nat) (l : list nat)
    (rxn_order : Z) (a : TauArgs) :
  let res := foldl (scan_species model r) (rxn_order, a) l in
  let rs := filter (λ i, (Model.species_change model r i < 0)%Z) l in
  res.1 = (rxn_order + Z.of_nat (length rs))%Z ∧
  HOR res.2 = HOR a ∧ g_i res.2 = g_i a ∧ g_i_lambdas res.2 = g_i_lambdas a ∧
  epsilon_i res.2 = epsilon_i a ∧
  at_key [] (reactions_reactants res.2) r = at_key [] (reactions_reactants a) r ++ rs ∧
  ∀ r', r' ≠ r → reactions_reactants res.2 !! r' = reactions_reactants a !! r'.
Proof.
  cbv zeta. revert rxn_order a. induction l as [|i l IH]; intros rxn_order a.
  - simpl. rewrite app_nil_r. repeat split; lia.
  - cbn [foldl].
    destruct (Z.lt_trichotomy (Model.species_change model r i) 0) as [Hneg|[Hz|Hpos]].
    + rewrite scan_species_consumed by done.
      match goal with |- context [foldl _ (?o, ?b) l] =>
        destruct (IH o b) as (I1 & I2 & I3 & I4 & I5 & I6 & I7) end.
      rewrite filter_cons_True by done. cbn [length].
      unfold_setters. repeat split; try assumption.
      * lia.
      * rewrite I6. unfold push_back, at_key at 1.
        rewrite lookup_insert_eq. simpl. by rewrite <- app_assoc.
      * intros r' Hr'. rewrite I7 by done. unfold push_back.
        by rewrite lookup_insert_ne.
    + rewrite scan_species_untouched by done.
      destruct (IH rxn_order a) as (I1 & I2 & I3 & I4 & I5 & I6 & I7).
      rewrite filter_cons_False by lia. repeat split; assumption.
    + rewrite scan_species_produced by done.
      destruct (IH rxn_order (set_products (push_back r i) a))
        as (I1 & I2 & I3 & I4 & I5 & I6 & I7).
      rewrite filter_cons_False by lia. repeat split; assumption.
Qed.

Lemma at_key_insert_eq `{Countable K} {V} (d v : V) (m : gmap K V) (k : K) :
  at_key d (<[k := v]> m) k = v.
Proof. unfold at_key. by rewrite lookup_insert_eq. Qed.

Lemma at_key_insert_ne `{Countable K} {V} (d v : V) (m : gmap K V) (k k' : K) :
  k ≠ k' → at_key d (<[k := v]> m) k' = at_key d m k'.
Proof. intros. unfold at_key. by rewrite lookup_insert_ne. Qed.

Lemma raise_HOR_reactions_reactants (model : Model.t) (tau_tol : float) (r : nat)
    (order : Z) (a : TauArgs) (i : nat) :
  reactions_reactants (raise_HOR model tau_tol r order a i) = reactions_reactants a.
Proof.
  unfold raise_HOR. repeat (case_match; try done).
Qed.

Lemma last_snoc_otherwise (l : list hor_case) (c : hor_case) :
  last (l ++ [c]) = Some case_otherwise ↔ c = case_otherwise.
Proof. rewrite last_snoc. split; congruence. Qed.

Lemma Forall_snoc_otherwise (l : list hor_case) (c : hor_case) :
  Forall (eq case_otherwise) (l ++ [c]) ↔ Forall (eq case_otherwise) l ∧ c = case_otherwise.
Proof.
  rewrite Forall_app, Forall_singleton. split; intros [? ?]; split; congruence.
Qed.

Lemma raise_HOR_tracks (model : Model.t) (tau_tol : float) (nm : string) (r : nat)
    (a : TauArgs) (t : Z * list hor_case) (i : nat) :
  tracks tau_tol nm a t →
  tracks tau_tol nm (raise_HOR model tau_tol r (rxn_order model r) a i)
         (track_step model nm r t i).
Proof.
  intros (TH & TG & TL). unfold raise_HOR, track_step.
  destruct (decide (Model.species_name model i = nm)) as [->|Hne].
  - unfold at_key at 1. rewrite TH. simpl default.
    destruct (t.1 <? rxn_order model r)%Z; [| done].
    unfold classify.
    destruct ((Z.abs (Model.species_change model r i) =? 2)
              && (rxn_order model r =? 2))%Z;
      [| destruct ((Z.abs (Model.species_change model r i) =? 2)
                   && (rxn_order model r =? 3))%Z;
         [| destruct (Z.abs (Model.species_change model r i) =? 3)%Z]];
      unfold tracks; unfold_setters;
      rewrite last_snoc_otherwise, Forall_snoc_otherwise;
      rewrite ?lookup_insert_eq;
      (split; [done |]); (split; [try done |]).
    + split; [done | intros [_ ?]; done].
    + split; [done | intros [_ ?]; done].
    + split; [done | intros [_ ?]; done].
    + intros _. by rewrite !at_key_insert_eq.
    + rewrite TL. tauto.
  - destruct (at_key 0%Z (HOR a) (Model.species_name model i) <? rxn_order model r)%Z;
      [| done].
    repeat case_match; unfold tracks; unfold_setters;
      rewrite ?lookup_insert_ne by done; done.
Qed.

Lemma raise_HOR_fold_tracks (model : Model.t) (tau_tol : float) (nm : string) (r : nat)
    (l : list nat) (a : TauArgs) (t : Z * list hor_case) :
  tracks tau_tol nm a t →
  tracks tau_tol nm (foldl (raise_HOR model tau_tol r (rxn_order model r)) a l)
         (foldl (track_step model nm r) t l) ∧
  reactions_reactants (foldl (raise_HOR model tau_tol r (rxn_order model r)) a l)
  = reactions_reactants a.
Proof.
  revert a t. induction l as [|i l IH]; intros a t Ht; cbn [foldl]; [done |].
  destruct (IH _ _ (raise_HOR_tracks model tau_tol nm r a t i Ht)) as [H1 H2].
  split; [done |]. by rewrite H2, raise_HOR_reactions_reactants.
Qed.

Lemma initialize_reaction_tracks (model : Model.t) (tau_tol : float) (nm : string)
    (a : TauArgs) (t : Z * list hor_case) (r : nat) :
  reactions_reactants a !! r = None →
  tracks tau_tol nm a t →
  tracks tau_tol nm (initialize_reaction model tau_tol a r) (track_reaction model nm t r) ∧
  ∀ r', r' ≠ r →
    reactions_reactants (initialize_reaction model tau_tol a r) !! r'
    = reactions_reactants a !! r'.
Proof.
  intros Hfresh (TH & TG & TL). unfold initialize_reaction, track_reaction.
  pose proof (scan_species_fold model r (seq 0 (Model.number_species model)) 0 a) as HS.
  cbv zeta in HS.
  destruct (foldl (scan_species model r) (0%Z, a) (seq 0 (Model.number_species model)))
    as [o a1].
  destruct HS as (S1 & S2 & S3 & S4 & S5 & S6 & S7). simpl in S1, S2, S3, S4, S5, S6, S7.
  fold (consumed model r) in S1, S6.
  assert (o = rxn_order model r) as -> by (unfold rxn_order; lia).
  assert (at_key [] (reactions_reactants a1) r = consumed model r) as ->
    by (rewrite S6; unfold at_key; by rewrite Hfresh).
  set (a2 := set_reactions_reactants (λ m, touch [] m r) a1).
  assert (tracks tau_tol nm a2 t) as Ht2.
  { unfold tracks, a2. unfold_setters. by rewrite S2, S3, S4, S5. }
  destruct (raise_HOR_fold_tracks model tau_tol nm r (consumed model r) a2 t Ht2)
    as [F1 F2].
  assert ((if 0 <? length (consumed model r)
           then foldl (raise_HOR model tau_tol r (rxn_order model r)) a2 (consumed model r)
           else a2)
          = foldl (raise_HOR model tau_tol r (rxn_order model r)) a2 (consumed model r))
    as -> by (by destruct (consumed model r)).
  split; [done |].
  intros r' Hr'. rewrite F2. unfold a2. unfold_setters.
  rewrite <- S7 by done. unfold touch.
  destruct (reactions_reactants a1 !! r); [done |]. by rewrite lookup_insert_ne.
Qed.

Lemma initialize_fold_tracks (model : Model.t) (tau_tol : float) (nm : string)
    (l : list nat) (a : TauArgs) (t : Z * list hor_case) :
  NoDup l → (∀ r, r ∈ l → reactions_reactants a !! r = None) →
  tracks tau_tol nm a t →
  tracks tau_tol nm (foldl (initialize_reaction model tau_tol) a l)
         (foldl (track_reaction model nm) t l).
Proof.
  revert a t. induction l as [|r l IH]; intros a t Hnd Hfresh Ht; cbn [foldl]; [done |].
  apply NoDup_cons in Hnd as [Hr Hnd].
  destruct (initialize_reaction_tracks model tau_tol nm a t r) as [H1 H2];
    [apply Hfresh; by left | done |].
  apply IH; [done | | done].
  intros r' Hr'. rewrite H2; [apply Hfresh; by right |].
  intros ->. done.
Qed.

Lemma species_names_seq (model : Model.t) :
  Model.species_name model <$> seq 0 (Model.number_species model)
  = Species.name <$> Model.species model.
Proof.
  unfold Model.number_species, Model.species_name.
  apply list_eq. intros i. rewrite !list_lookup_fmap.
  destruct (Model.species model !! i) as [sp|] eqn:E; simpl.
  - rewrite lookup_seq_lt by (eapply lookup_lt_Some; eassumption). simpl. by rewrite E.
  - rewrite lookup_seq_ge; [done |]. by apply lookup_ge_None.
Qed.

Lemma initialize_HOR_spec (model : Model.t) (l : list nat) (a : TauArgs) :
  let a' := foldl (λ a i, set_HOR <[Model.species_name model i := 0%Z]> a) a l in
  g_i a' = g_i a ∧ g_i_lambdas a' = g_i_lambdas a ∧ epsilon_i a' = epsilon_i a ∧
  reactions_reactants a' = reactions_reactants a ∧
  ∀ nm, nm ∈ Model.species_name model <$> l ∨ HOR a !! nm = Some 0%Z →
        HOR a' !! nm = Some 0%Z.
Proof.
  cbv zeta. revert a. induction l as [|i l IH]; intros a; cbn [foldl].
  - repeat split; try done. intros nm [Hin|H0]; [| done].
    rewrite fmap_nil in Hin. by apply elem_of_nil in Hin.
  - destruct (IH (set_HOR <[Model.species_name model i := 0%Z]> a))
      as (I1 & I2 & I3 & I4 & I5).
    repeat split; try assumption.
    intros nm Hnm. apply I5. unfold_setters.
    destruct (decide (Model.species_name model i = nm)) as [->|Hne].
    + right. by rewrite lookup_insert_eq.
    + rewrite lookup_insert_ne by done.
      destruct Hnm as [Hin|H0]; [| by right].
      rewrite ?fmap_cons in Hin. apply elem_of_cons in Hin as [->|Hin]; [done | by left].
Qed.

Lemma initialize_tracks (model : Model.t) (tau_tol : float) (nm : string) :
  nm ∈ Species.name <$> Model.species model →
  tracks tau_tol nm (initialize model tau_tol) (track model nm).
Proof.
  intros Hnm. unfold initialize, track, initialize_HOR.
  destruct (initialize_HOR_spec model (seq 0 (Model.number_species model)) tau_args_0)
    as (I1 & I2 & I3 & I4 & I5).
  apply initialize_fold_tracks.
  - apply NoDup_seq.
  - intros r _. by rewrite I4.
  - unfold tracks. rewrite I1, I2, I3. simpl. split; [| split].
    + apply I5. left. by rewrite species_names_seq.
    + done.
    + by rewrite lookup_empty.
Qed.

(** ** The highest order of the reactions that consume a species *)

Lemma species_name_lookup (model : Model.t) (i : nat) :
  i < Model.number_species model →
  (Species.name <$> Model.species model) !! i = Some (Model.species_name model i).
Proof.
  intros Hi. unfold Model.species_name. rewrite list_lookup_fmap.
  destruct (Model.species model !! i) eqn:E; [done |].
  apply lookup_ge_None in E. unfold Model.number_species in Hi. lia.
Qed.

Lemma species_name_inj (model : Model.t) (i j : nat) :
  NoDup (Species.name <$> Model.species model) →
  i < Model.number_species model → j < Model.number_species model →
  Model.species_name model i = Model.species_name model j → i = j.
Proof.
  intros Hnd Hi Hj Heq.
  eapply NoDup_lookup; [exact Hnd | by apply species_name_lookup |].
  rewrite Heq. by apply species_name_lookup.
Qed.

Lemma track_step_fold_fst (model : Model.t) (i r : nat) (l : list nat)
    (t : Z * list hor_case) :
  NoDup (Species.name <$> Model.species model) →
  i < Model.number_species model →
  Forall (λ j, j < Model.number_species model) l →
  (foldl (track_step model (Model.species_name model i) r) t l).1
  = if bool_decide (i ∈ l) then Z.max t.1 (rxn_order model r) else t.1.
Proof.
  intros Hnd Hi. revert t. induction l as [|j l IH]; intros t Hl; cbn [foldl].
  - by rewrite bool_decide_eq_false_2 by apply not_elem_of_nil.
  - apply Forall_cons in Hl as [Hj Hl]. rewrite IH by done. clear IH.
    unfold track_step.
    destruct (decide (Model.species_name model j = Model.species_name model i)) as [E|E].
    + apply species_name_inj in E; [| done..]. subst j.
      rewrite (bool_decide_eq_true_2 (i ∈ i :: l)) by (by left).
      destruct (Z.ltb_spec t.1 (rxn_order model r)); simpl;
        destruct (bool_decide (i ∈ l)); lia.
    + assert (j ≠ i) by (intros ->; done).
      destruct (decide (i ∈ l)) as [Hin|Hnin].
      * rewrite !bool_decide_eq_true_2; [done | by right | done].
      * rewrite !bool_decide_eq_false_2; [done | | done].
        intros [->|?]%elem_of_cons; done.
Qed.

Lemma track_reaction_fst (model : Model.t) (i r : nat) (t : Z * list hor_case) :
  NoDup (Species.name <$> Model.species model) →
  i < Model.number_species model →
  (track_reaction model (Model.species_name model i) t r).1
  = if bool_decide (Model.species_change model r i < 0)%Z
    then Z.max t.1 (rxn_order model r) else t.1.
Proof.
  intros Hnd Hi. unfold track_reaction. rewrite track_step_fold_fst; [| done | done |].
  - rewrite (bool_decide_ext (i ∈ consumed model r)
                             (Model.species_change model r i < 0)%Z); [done |].
    unfold consumed.
    rewrite list_elem_of_filter, elem_of_seq. split; [tauto |]. intros ?; split; [done | lia].
  - apply Forall_forall. intros j Hj. unfold consumed in Hj.
    apply list_elem_of_filter in Hj as [_ Hj]. apply elem_of_seq in Hj. lia.
Qed.

Lemma rxn_order_nonneg (model : Model.t) (r : nat) : (0 ≤ rxn_order model r)%Z.
Proof. unfold rxn_order. lia. Qed.

Lemma track_fold_fst (model : Model.t) (i : nat) (l : list nat) (t : Z * list hor_case) :
  NoDup (Species.name <$> Model.species model) →
  i < Model.number_species model →
  (0 ≤ t.1)%Z →
  (foldl (track_reaction model (Model.species_name model i)) t l).1
  = Z.max t.1
      (foldr Z.max 0%Z
         (rxn_order model <$> filter (λ r, (Model.species_change model r i < 0)%Z) l)).
Proof.
  intros Hnd Hi. revert t. induction l as [|r l IH]; intros t Ht; cbn [foldl].
  - simpl. lia.
  - pose proof (track_reaction_fst model i r t Hnd Hi) as Hr.
    pose proof (rxn_order_nonneg model r).
    rewrite IH by (rewrite Hr; case_bool_decide; lia).
    rewrite Hr. case_bool_decide.
    + rewrite filter_cons_True by done. rewrite fmap_cons. cbn [foldr]. lia.
    + rewrite filter_cons_False by done. done.
Qed.

(** C7. After [initialize], [HOR] of a species is the largest order among the
    reactions that consume it, the order of a reaction being the number of
    species it consumes; it is 0 when no reaction consumes the species. *)
Theorem C7_HOR_is_max_order (model : Model.t) (tau_tol : float) (i : nat) :
  Model.well_formed model →
  i < Model.number_species model →
  HOR (initialize model tau_tol) !! Model.species_name model i
  = Some (max_order model i) ∧
  ((∀ r, r < Model.number_reactions model → (0 ≤ Model.species_change model r i)%Z) →
   HOR (initialize model tau_tol) !! Model.species_name model i = Some 0%Z).
Proof.
  intros [Hnd _] Hi.
  assert (Model.species_name model i ∈ Species.name <$> Model.species model) as Hin
    by (eapply list_elem_of_lookup_2; by apply species_name_lookup).
  destruct (initialize_tracks model tau_tol _ Hin) as (TH & _).
  assert ((track model (Model.species_name model i)).1 = max_order model i) as Ht.
  { unfold track, max_order. rewrite track_fold_fst by done. simpl.
    apply Z.max_r. induction (rxn_order model <$> _) as [|o os IH]; cbn [foldr]; lia. }
  rewrite Ht in TH. split; [done |].
  intros Hnone. rewrite TH. f_equal. unfold max_order.
  assert (∀ l, Forall (λ r, r < Model.number_reactions model) l →
               filter (λ r, (Model.species_change model r i < 0)%Z) l = []) as Hf.
  { induction l as [|r l IH]; intros Hl; [done |].
    apply Forall_cons in Hl as [Hr Hl]. specialize (Hnone r Hr).
    rewrite filter_cons_False by lia. by apply IH. }
  rewrite Hf; [done |].
  apply Forall_forall. intros r Hr%elem_of_seq. lia.
Qed.

Lemma C7_HOR_is_max_order_witness :
  HOR (initialize example_model example_tau_tol) !! Model.species_name example_model 2
  = Some (max_order example_model 2).
Proof.
  assert (Model.well_formed example_model) as Hwf.
  { split.
    - refine (bool_decide_unpack _ _). vm_compute. exact I.
    - repeat constructor. }
  assert (2 < Model.number_species example_model) as H by (vm_compute; lia).
  exact (proj1 (C7_HOR_is_max_order example_model example_tau_tol 2 Hwf H)).
Defined.

(** C4 (amended). When the last update of [HOR] for a species fell in the
    "otherwise" case, [initialize] leaves [g_i = HOR] and
    [epsilon_i = tau_tol / g_i] for it.  No deferred function is pending for
    the species exactly when none of its earlier updates fell in a deferred
    case (a function installed by an earlier update is not removed).  When
    no function is pending for any species, every sequence of later calls of
    [select] returns and leaves [g_i] and [epsilon_i] of the species as
    [initialize] set them. *)
Theorem C4_otherwise_case (model : Model.t) (tau_tol : float) (nm : string) :
  nm ∈ Species.name <$> Model.species model →
  last (hor_updates model nm) = Some case_otherwise →
  let a := initialize model tau_tol in
  ∃ h, HOR a !! nm = Some h ∧ g_i a !! nm = Some h ∧
       epsilon_i a !! nm = Some (tau_tol / Double.of_int h)%float ∧
       (g_i_lambdas a !! nm = None ↔ Forall (eq case_otherwise) (hor_updates model nm)) ∧
       (g_i_lambdas a = ∅ →
        ∀ cs, ∃ an, select_calls a cs = Returns an ∧
                    g_i an !! nm = Some h ∧
                    epsilon_i an !! nm = Some (tau_tol / Double.of_int h)%float).
Proof.
  intros Hnm Hlast a.
  destruct (initialize_tracks model tau_tol nm Hnm) as (TH & TG & TL). fold a in TH, TG, TL.
  destruct (TG Hlast) as [G E].
  exists (track model nm).1. repeat split; try done.
  - apply TL.
  - apply TL.
  - intros He cs. destruct (select_calls_returns cs a He) as (an & Hc & _ & Hg & He').
    exists an. split; [done |]. split; [by rewrite Hg | by apply He'].
Qed.

Lemma C4_otherwise_case_witness :
  let a := initialize example_model_A example_tau_tol in
  ∃ h, HOR a !! "A" = Some h ∧ g_i a !! "A" = Some h ∧
       epsilon_i a !! "A" = Some (example_tau_tol / Double.of_int h)%float ∧
       (g_i_lambdas a !! "A" = None
        ↔ Forall (eq case_otherwise) (hor_updates example_model_A "A")) ∧
       (g_i_lambdas a = ∅ →
        ∀ cs, ∃ an, select_calls a cs = Returns an ∧
                    g_i an !! "A" = Some h ∧
                    epsilon_i an !! "A" = Some (example_tau_tol / Double.of_int h)%float).
Proof.
  assert ("A" ∈ Species.name <$> Model.species example_model_A) as H1
    by (refine (bool_decide_unpack _ _); vm_compute; exact I).
  assert (last (hor_updates example_model_A "A") = Some case_otherwise) as H2
    by (vm_compute; reflexivity).
  exact (C4_otherwise_case example_model_A example_tau_tol "A" H1 H2).
Defined.

(** C4, as stated, fails on the reactions 2A + B -> 0, A + B + C -> 0: the
    last update of [HOR] for A is in the "otherwise" case (order 3, one A
    consumed), and [g_i] of A is [HOR], yet the function that the first
    reaction installed for A is still pending. *)
Lemma C4_counterexample :
  let a := initialize example_model example_tau_tol in
  last (hor_updates example_model "A") = Some case_otherwise ∧
  HOR a !! "A" = Some 3%Z ∧ g_i a !! "A" = Some 3%Z ∧
  g_i_lambdas a !! "A" = Some lambda_2_2.
Proof. repeat split; vm_compute; reflexivity. Qed.

(** ** The divisor [sigma_i] *)

Section Variance.

Local Open Scope float_scope.

Lemma at_index_nonneg (propensity_values : list float) (reaction : nat) :
  Forall (λ p, (0 <=? p) = true) propensity_values →
  (0 <=? at_index 0 propensity_values reaction) = true.
Proof.
  intros Hall. unfold at_index.
  destruct (propensity_values !! reaction) as [p|] eqn:E; simpl.
  - exact (Forall_lookup_1 _ _ _ _ Hall E).
  - reflexivity.
Qed.

Lemma species_change_int (model : Model.t) (r i : nat) :
  int_changes model →
  (Double.INT_MIN < Model.species_change model r i ≤ Double.INT_MAX)%Z.
Proof.
  intros Hint. unfold Model.species_change.
  destruct (Model.reactions model !! r) as [rxn|] eqn:Er; simpl; [| by vm_compute].
  destruct (Reaction.species_change rxn !! i) as [c|] eqn:Ec; simpl; [| by vm_compute].
  pose proof (Forall_lookup_1 _ _ _ _ Hint Er) as Hrxn. simpl in Hrxn.
  exact (Forall_lookup_1 _ _ _ _ Hrxn Ec).
Qed.

Lemma accumulate_drift_has_variance (model : Model.t) (threshold : Z)
    (propensity_values : list float) (current_state : list Z) (reaction : nat)
    (ms : Moments) (reactant : nat) :
  Forall (λ p, (0 <=? p) = true) propensity_values →
  int_changes model →
  drift_has_variance ms →
  drift_has_variance
    (accumulate model threshold propensity_values current_state reaction ms reactant).
Proof.
  intros Hall Hint Hms. unfold accumulate.
  destruct (Z.ltb_spec (Model.species_change model reaction reactant) 0) as [Hneg|];
    [| done].
  pose proof (species_change_int model reaction reactant Hint) as Hc.
  assert (1 ≤ Z.abs (Model.species_change model reaction reactant) < 2 ^ 31)%Z as Habs
    by (change Double.INT_MIN with (- 2 ^ 31)%Z in Hc; lia).
  pose proof (at_index_nonneg propensity_values reaction Hall) as Hp.
  set (p := at_index 0 propensity_values reaction) in *.
  set (c := Z.abs (Model.species_change model reaction reactant)) in *.
  destruct (mul_ge1 (Double.of_int c) p (of_int_ge1 c Habs) Hp) as [M1 M2].
  destruct (mul_ge1 (Double.pow2 (Double.of_int c)) p (pow2_of_int_ge1 c Habs) Hp)
    as [V1 V2].
  intros nm. cbn [mu_i sigma_i].
  destruct (decide (Model.species_name model reactant = nm)) as [->|Hne].
  - rewrite !at_key_insert_eq.
    destruct (Hms nm) as (Hm & Hs & Hms').
    destruct (add_nonneg _ _ Hm M1) as [A1 A2].
    destruct (add_nonneg _ _ Hs V1) as [B1 B2].
    split; [exact A1 |]. split; [exact B1 |].
    intros Hpos. apply B2. apply A2 in Hpos as [Hpos|Hpos].
    + left. by apply Hms'.
    + right. apply V2. by apply M2.
  - rewrite !at_key_insert_ne by done. apply Hms.
Qed.

Lemma moments_0_drift_has_variance (model : Model.t) :
  drift_has_variance (moments_0 model).
Proof.
  unfold moments_0.
  assert (drift_has_variance (mkMoments false ∅ ∅)) as H0.
  { intros nm. unfold at_key. simpl. rewrite lookup_empty. simpl.
    split; [reflexivity |]. split; [reflexivity | done]. }
  revert H0. generalize (mkMoments false ∅ ∅).
  generalize (seq 0 (Model.number_species model)).
  induction l as [|i l IH]; intros ms Hq; cbn [foldl]; [done |].
  apply IH. intros nm. simpl.
  destruct (decide (Model.species_name model i = nm)) as [->|Hne].
  - rewrite !at_key_insert_eq. split; [reflexivity |]. split; [reflexivity | done].
  - rewrite !at_key_insert_ne by done. apply Hq.
Qed.

Lemma select_moments_drift_has_variance (model : Model.t) (a : TauArgs)
    (propensity_values : list float) (current_state : list Z) :
  Forall (λ p, (0 <=? p) = true) propensity_values →
  int_changes model →
  drift_has_variance (select_moments model a propensity_values current_state).2.
Proof.
  intros Hall Hint. unfold select_moments.
  generalize (moments_0_drift_has_variance model). generalize (moments_0 model).
  generalize (seq 0 (Model.number_reactions model)). intros l. revert a.
  induction l as [|r l IH]; intros a ms Hq; cbn [foldl]; [done |].
  unfold moments_reaction at 2. apply IH.
  generalize (at_key [] (reactions_reactants a) r). intros rs.
  revert ms Hq. induction rs as [|x rs IHrs]; intros ms Hq; cbn [foldl]; [done |].
  apply IHrs. by apply accumulate_drift_has_variance.
Qed.

End Variance.

(** C5 (amended). When no propensity is negative, a species whose [mu_i] is
    positive has a positive [sigma_i]: the division by [sigma_i] at line 173,
    which is made for the species with a positive [mu_i], has a positive
    divisor. *)
Theorem C5_positive_drift_has_variance (model : Model.t) (tau_args : TauArgs)
    (propensity_values : list float) (current_state : list Z) (nm : string) :
  Forall (λ p, (0 <=? p)%float = true) propensity_values →
  int_changes model →
  let ms := (select_moments model tau_args propensity_values current_state).2 in
  Double.gtb (at_key 0%float (mu_i ms) nm) 0 = true →
  Double.gtb (at_key 0%float (sigma_i ms) nm) 0 = true.
Proof.
  intros Hall Hint ms Hmu.
  destruct (select_moments_drift_has_variance model tau_args propensity_values
              current_state Hall Hint nm) as (_ & _ & H).
  by apply H.
Qed.

Lemma C5_positive_drift_has_variance_witness :
  let ms := (select_moments example_model (initialize example_model example_tau_tol)
               [2; 0.5]%float [100; 100; 100]%Z).2 in
  Double.gtb (at_key 0%float (sigma_i ms) "A") 0 = true.
Proof.
  assert (Forall (λ p, (0 <=? p)%float = true) [2; 0.5]%float) as H1
    by (repeat constructor).
  assert (int_changes example_model) as H2 by (repeat constructor; by vm_compute).
  apply (C5_positive_drift_has_variance example_model _ [2; 0.5]%float _ "A" H1 H2).
  vm_compute. reflexivity.
Defined.

(** C5, as stated, fails with a negative propensity: for A -> 0 with
    propensity 2 and 2A -> 0 with propensity -0.5, [mu_i] of A is 1 and
    [sigma_i] of A is 0, and [tau_i] of A is computed, by a division by that
    zero. *)
Lemma C5_counterexample :
  let a := initialize example_model_A example_tau_tol in
  let ms := (select_moments example_model_A a [2; -0.5]%float [100]%Z).2 in
  Species.mk 0 "A" 100 ∈ reactants a ∧
  Double.gtb (at_key 0%float (mu_i ms) "A") 0 = true ∧
  at_key 0%float (sigma_i ms) "A" = 0%float ∧
  Double.gtb (at_key 0%float (sigma_i ms) "A") 0 = false ∧
  (select_tau_i [100]%Z ms a).2 !! "A"
  = Some (tau_i_value example_tau_tol 100 1 0).
Proof.
  split; [vm_compute; by left |]. repeat split; vm_compute; reflexivity.
Qed.

(** * Further properties *)

(** ** Order and sign of binary64 values, continued *)

Section DoubleOrderTransitive.

Local Open Scope float_scope.

Lemma SFcompare_trans_finite (sx sy sz : bool) (mx my mz : positive) (ex ey ez : Z)
    (c1 c2 : comparison) :
  SFcompare (S754_finite sx mx ex) (S754_finite sy my ey) = Some c1 →
  SFcompare (S754_finite sy my ey) (S754_finite sz mz ez) = Some c2 →
  c1 ≠ Gt → c2 ≠ Gt →
  SFcompare (S754_finite sx mx ex) (S754_finite sz mz ez)
  = Some (match c1, c2 with Eq, Eq => Eq | _, _ => Lt end).
Proof.
  destruct sx, sy, sz; simpl; intros [= <-] [= <-]; try congruence;
    change (Pos.compare_cont Eq) with Pos.compare;
    destruct (Z.compare_spec ex ey), (Z.compare_spec ey ez), (Z.compare_spec ex ez);
    try lia; try congruence; subst;
    destruct (Pos.compare_spec mx my), (Pos.compare_spec my mz), (Pos.compare_spec mx mz);
    simpl; try lia; try congruence.
Qed.

Lemma SFcompare_trans (x y z : spec_float) (c1 c2 : comparison) :
  SFcompare x y = Some c1 → SFcompare y z = Some c2 → c1 ≠ Gt → c2 ≠ Gt →
  SFcompare x z = Some (match c1, c2 with Eq, Eq => Eq | _, _ => Lt end).
Proof.
  destruct x as [sx|sx| |sx mx ex], y as [sy|sy| |sy my ey], z as [sz|sz| |sz mz ez];
    try discriminate; try apply SFcompare_trans_finite;
    repeat match goal with b : bool |- _ => destruct b end;
    intros H1 H2 Hc1 Hc2; destruct c1, c2; simpl in *; congruence.
Qed.

Lemma ltb_SFcompare (x y : float) :
  (x <? y) = true ↔ SFcompare (Prim2SF x) (Prim2SF y) = Some Lt.
Proof.
  rewrite FloatAxioms.ltb_spec. unfold SFltb.
  destruct (SFcompare (Prim2SF x) (Prim2SF y)) as [[]|]; split; congruence.
Qed.

Lemma leb_SFcompare (x y : float) :
  (x <=? y) = true
  ↔ SFcompare (Prim2SF x) (Prim2SF y) = Some Lt ∨ SFcompare (Prim2SF x) (Prim2SF y) = Some Eq.
Proof.
  rewrite FloatAxioms.leb_spec. unfold SFleb.
  destruct (SFcompare (Prim2SF x) (Prim2SF y)) as [[]|]; intuition congruence.
Qed.

Lemma ltb_trans (x y z : float) : (x <? y) = true → (y <? z) = true → (x <? z) = true.
Proof.
  rewrite !ltb_SFcompare. intros H1 H2.
  by rewrite (SFcompare_trans _ _ _ _ _ H1 H2).
Qed.

Lemma ltb_leb_trans (x y z : float) : (x <? y) = true → (y <=? z) = true → (x <? z) = true.
Proof.
  rewrite !ltb_SFcompare, leb_SFcompare. intros H1 [H2|H2];
    by rewrite (SFcompare_trans _ _ _ _ _ H1 H2).
Qed.

Lemma leb_ltb_trans (x y z : float) : (x <=? y) = true → (y <? z) = true → (x <? z) = true.
Proof.
  rewrite !ltb_SFcompare, leb_SFcompare. intros [H1|H1] H2;
    by rewrite (SFcompare_trans _ _ _ _ _ H1 H2).
Qed.

Lemma ltb_irrefl (x : float) : (x <? x) = false.
Proof.
  rewrite FloatAxioms.ltb_spec. unfold SFltb.
  destruct (Prim2SF x) as [[]|[]| |[] m e]; simpl; try reflexivity;
    by rewrite Z.compare_refl, Pos.compare_cont_refl.
Qed.

End DoubleOrderTransitive.

Section BinaryRoundingSign.

Local Open Scope Z_scope.

Lemma sf_neg_if (b : bool) (m : positive) (e : Z) :
  sf_neg (if b then S754_finite true m e else S754_infinity true).
Proof. now destruct b. Qed.

Lemma binary_normalize_neg (m : positive) (e : Z) :
  emin <= e -> sf_neg (binary_normalize prec emax (Z.neg m) e false).
Proof.
  intros He. simpl.
  destruct (binary_round_lower true m e emin) as (m' & e' & d & -> & _);
    [lia | | apply sf_neg_if].
  destruct (Z.eq_dec e emin) as [->|]; [rewrite Z.sub_diag; simpl; lia|].
  rewrite Z.pow_neg_r by lia. lia.
Qed.

Lemma SFsub_neg (x y : spec_float) :
  SFcompare x y = Some Lt -> valid_binary x = true -> valid_binary y = true ->
  sf_neg (SF64sub x y).
Proof.
  intros Hc Hx Hy.
  destruct x as [sx|sx| |sx mx ex], y as [sy|sy| |sy my ey]; try discriminate;
    try (repeat match goal with b : bool |- _ => destruct b end;
         simpl in Hc |- *; (discriminate || exact I)).
  pose proof (compare_lt_finite _ _ _ _ _ _ Hc Hx Hy) as HM.
  apply valid_finite in Hx as (Hx1 & _). apply valid_finite in Hy as (Hy1 & _).
  unfold SF64sub, SFsub. rewrite (Z.min_comm ex ey).
  rewrite !shl_align_value by lia.
  destruct (cond_Zopp sx (Z.pos mx * 2 ^ (ex - Z.min ey ex))
            - cond_Zopp sy (Z.pos my * 2 ^ (ey - Z.min ey ex))) as [|M|M] eqn:EM; try lia.
  apply binary_normalize_neg. lia.
Qed.

Lemma SFsub_diag (x : spec_float) :
  SF64sub x x = S754_nan \/ SF64sub x x = S754_zero false.
Proof.
  destruct x as [[]|[]| |s m e]; simpl; auto.
  right. unfold SF64sub, SFsub. now rewrite Z.sub_diag.
Qed.

Lemma binary_round_aux_number (s : bool) (m e : Z) (l : location) :
  0 <= m -> binary_round_aux prec emax s m e l <> S754_nan.
Proof.
  intros Hm. unfold binary_round_aux.
  pose proof (shr_fexp_nonneg m e l Hm) as H1.
  destruct (shr_fexp prec emax m e l) as [mrs1 e1]. simpl fst in H1.
  pose proof (shr_fexp_nonneg (round_nearest_even (shr_m mrs1) (loc_of_shr_record mrs1))
                e1 loc_Exact) as H2.
  destruct (shr_fexp prec emax _ e1 loc_Exact) as [mrs2 e2]. simpl fst in H2.
  destruct (shr_m mrs2) as [|q|q] eqn:Eq.
  - discriminate.
  - destruct (e2 <=? emax - prec); discriminate.
  - exfalso. pose proof (Pos2Z.neg_is_neg q).
    assert (0 <= Z.neg q); [|lia].
    apply H2. apply round_nearest_even_nonneg. exact H1.
Qed.

Lemma SFdiv_finite_number (sx sy : bool) (mx my : positive) (ex ey : Z) :
  SF64div (S754_finite sx mx ex) (S754_finite sy my ey) <> S754_nan.
Proof.
  unfold SF64div, SFdiv, SFdiv_core_binary.
  set (m' := match _ - _ - _ with Z0 => Z.pos mx | Z.pos _ => _ | Z.neg _ => 0 end).
  assert (0 <= m') as Hm'.
  { unfold m'. destruct (_ - _ - _); try lia. apply Z.shiftl_nonneg. lia. }
  destruct (Z.div_eucl m' (Z.pos my)) as [q r] eqn:E.
  assert (q = m' / Z.pos my) as -> by (unfold Z.div; now rewrite E).
  apply binary_round_aux_number. apply Z.div_pos; lia.
Qed.

End BinaryRoundingSign.

Section DoubleSignNegative.

Local Open Scope float_scope.

Lemma lt_0_sf_neg (x : float) : (x <? 0) = true <-> sf_neg (Prim2SF x).
Proof.
  rewrite FloatAxioms.ltb_spec, Prim2SF_zero. unfold SFltb.
  destruct (Prim2SF x) as [[]|[]| |[] m e]; simpl; intuition discriminate.
Qed.

Lemma sub_neg (x y : float) : (x <? y) = true -> (x - y <? 0) = true.
Proof.
  intros H. apply lt_0_sf_neg. rewrite FloatAxioms.sub_spec.
  apply SFsub_neg; try apply Prim2SF_valid.
  now apply ltb_SFcompare.
Qed.

Lemma sub_diag_not_pos (x : float) : (0 <? x - x) = false.
Proof.
  rewrite FloatAxioms.ltb_spec, Prim2SF_zero, FloatAxioms.sub_spec. unfold SFltb.
  destruct (SFsub_diag (Prim2SF x)) as [-> | ->]; reflexivity.
Qed.

Lemma div_1_pos_number (p : float) : (0 <? p) = true -> is_number (1 / p).
Proof.
  unfold is_number. rewrite gt_0_sf_pos, FloatAxioms.div_spec.
  change (Prim2SF 1) with (S754_finite false 4503599627370496 (-52)).
  destruct (Prim2SF p) as [sy|[]| |[] my ey];
    simpl sf_pos; try tauto; intros _; [discriminate |].
  apply SFdiv_finite_number.
Qed.

End DoubleSignNegative.

(** ** What [initialize] records for each reaction *)

Lemma scan_species_fold_products (model : Model.t) (r : nat) (l : list nat)
    (rxn_order : Z) (a : TauArgs) :
  let res := foldl (scan_species model r) (rxn_order, a) l in
  let ps := filter (λ i, (0 < Model.species_change model r i)%Z) l in
  products res.2 !! r
  = (if decide (ps = []) then products a !! r
     else Some (at_key [] (products a) r ++ ps)) ∧
  (∀ r', r' ≠ r → products res.2 !! r' = products a !! r') ∧
  critical_threshold res.2 = critical_threshold a ∧
  reactants res.2
  = foldl (λ s i, set_insert (species_at model i) s) (reactants a)
          (filter (λ i, (Model.species_change model r i < 0)%Z) l).
Proof.
  cbv zeta. revert rxn_order a. induction l as [|i l IH]; intros rxn_order a.
  - rewrite decide_True by done. done.
  - cbn [foldl].
    destruct (Z.lt_trichotomy (Model.species_change model r i) 0) as [Hneg|[Hz|Hpos]].
    + rewrite scan_species_consumed by done.
      match goal with |- context [foldl _ (?o, ?b) l] =>
        destruct (IH o b) as (I1 & I2 & I3 & I4) end.
      rewrite filter_cons_False by lia.
      rewrite (filter_cons_True (λ i, (Model.species_change model r i < 0)%Z)) by done.
      cbn [foldl]. unfold_setters. done.
    + rewrite scan_species_untouched by done.
      destruct (IH rxn_order a) as (I1 & I2 & I3 & I4).
      rewrite !filter_cons_False by lia. done.
    + rewrite scan_species_produced by done.
      destruct (IH rxn_order (set_products (push_back r i) a)) as (I1 & I2 & I3 & I4).
      rewrite filter_cons_True by done.
      rewrite (filter_cons_False (λ i, (Model.species_change model r i < 0)%Z)) by lia.
      rewrite decide_False by done.
      unfold_setters. split; [| split; [| done]].
      * rewrite I1. unfold push_back. rewrite at_key_insert_eq, lookup_insert_eq.
        case_decide as E; [by rewrite E |].
        f_equal. by rewrite <- app_assoc.
      * intros r' Hr'. rewrite I2 by done. unfold push_back.
        by rewrite lookup_insert_ne.
Qed.

Lemma raise_HOR_frame (model : Model.t) (tau_tol : float) (r : nat)
    (order : Z) (a : TauArgs) (i : nat) :
  let a' := raise_HOR model tau_tol r order a i in
  products a' = products a ∧ reactants a' = reactants a ∧
  critical_threshold a' = critical_threshold a.
Proof. unfold raise_HOR. repeat (case_match; try done). Qed.

Lemma raise_HOR_fold_frame (model : Model.t) (tau_tol : float) (r : nat)
    (order : Z) (l : list nat) (a : TauArgs) :
  let a' := foldl (raise_HOR model tau_tol r order) a l in
  products a' = products a ∧ reactants a' = reactants a ∧
  critical_threshold a' = critical_threshold a ∧
  reactions_reactants a' = reactions_reactants a.
Proof.
  cbv zeta. revert a. induction l as [|i l IH]; intros a; cbn [foldl]; [done |].
  destruct (IH (raise_HOR model tau_tol r order a i)) as (-> & -> & -> & ->).
  destruct (raise_HOR_frame model tau_tol r order a i) as (-> & -> & ->).
  by rewrite raise_HOR_reactions_reactants.
Qed.

(** One reaction of the loop of lines 47-96, for the maps indexed by
    reactions. *)
Lemma initialize_reaction_records (model : Model.t) (tau_tol : float)
    (a : TauArgs) (r : nat) :
  reactions_reactants a !! r = None → products a !! r = None →
  let a' := initialize_reaction model tau_tol a r in
  reactions_reactants a' !! r = Some (consumed model r) ∧
  products a' !! r = (if decide (produced model r = []) then None
                      else Some (produced model r)) ∧
  (∀ r', r' ≠ r → reactions_reactants a' !! r' = reactions_reactants a !! r' ∧
                  products a' !! r' = products a !! r') ∧
  critical_threshold a' = critical_threshold a ∧
  reactants a'
  = foldl (λ s i, set_insert (species_at model i) s) (reactants a) (consumed model r).
Proof.
  intros Hfresh Hfresh'. cbv zeta. unfold initialize_reaction.
  pose proof (scan_species_fold model r (seq 0 (Model.number_species model)) 0 a) as HS.
  pose proof (scan_species_fold_products model r (seq 0 (Model.number_species model)) 0 a)
    as HP.
  cbv zeta in HS, HP.
  destruct (foldl (scan_species model r) (0%Z, a) (seq 0 (Model.number_species model)))
    as [o a1].
  destruct HS as (_ & _ & _ & _ & _ & S6 & S7).
  destruct HP as (P1 & P2 & P3 & P4). simpl in S6, S7, P1, P2, P3, P4.
  fold (consumed model r) in S6, P4. fold (produced model r) in P1.
  set (a2 := set_reactions_reactants (λ m, touch [] m r) a1).
  assert ((if 0 <? length (at_key [] (reactions_reactants a1) r)
           then foldl (raise_HOR model tau_tol r o) a2 (at_key [] (reactions_reactants a1) r)
           else a2)
          = foldl (raise_HOR model tau_tol r o) a2 (at_key [] (reactions_reactants a1) r))
    as -> by (by destruct (at_key [] (reactions_reactants a1) r)).
  destruct (raise_HOR_fold_frame model tau_tol r o
              (at_key [] (reactions_reactants a1) r) a2) as (-> & -> & -> & ->).
  unfold a2. unfold_setters.
  assert (at_key [] (reactions_reactants a) r = []) as Hnil
    by (unfold at_key; by rewrite Hfresh).
  rewrite Hnil in S6. simpl in S6.
  assert (touch [] (reactions_reactants a1) r !! r = Some (consumed model r)) as Hr.
  { unfold touch. unfold at_key in S6.
    destruct (reactions_reactants a1 !! r) as [v|] eqn:E; simpl in S6.
    - by rewrite E, S6.
    - by rewrite lookup_insert_eq, S6. }
  split; [done |]. split.
  - rewrite P1. unfold at_key. rewrite Hfresh'. simpl.
    by destruct (decide (produced model r = [])).
  - split; [| done]. intros r' Hr'. split; [| by apply P2].
    rewrite <- S7 by done. unfold touch.
    destruct (reactions_reactants a1 !! r); [done |]. by rewrite lookup_insert_ne.
Qed.

Lemma initialize_fold_records (model : Model.t) (tau_tol : float)
    (l : list nat) (a : TauArgs) :
  NoDup l →
  (∀ r, r ∈ l → reactions_reactants a !! r = None ∧ products a !! r = None) →
  let a' := foldl (initialize_reaction model tau_tol) a l in
  (∀ r, reactions_reactants a' !! r
        = if decide (r ∈ l) then Some (consumed model r)
          else reactions_reactants a !! r) ∧
  (∀ r, products a' !! r
        = if decide (r ∈ l)
          then (if decide (produced model r = []) then None else Some (produced model r))
          else products a !! r) ∧
  critical_threshold a' = critical_threshold a ∧
  reactants a'
  = foldl (λ s i, set_insert (species_at model i) s) (reactants a)
          (l ≫= consumed model).
Proof.
  cbv zeta. revert a. induction l as [|r l IH]; intros a Hnd Hfresh; cbn [foldl].
  - repeat split; intros; by rewrite ?decide_False by apply not_elem_of_nil.
  - apply NoDup_cons in Hnd as [Hr Hnd].
    destruct (Hfresh r) as [F1 F2]; [by left |].
    destruct (initialize_reaction_records model tau_tol a r F1 F2)
      as (R1 & R2 & R3 & R4 & R5).
    destruct (IH (initialize_reaction model tau_tol a r) Hnd) as (I1 & I2 & I3 & I4).
    { intros r' Hr'. assert (r' ≠ r) as Hne by (intros ->; done).
      destruct (R3 r' Hne) as [-> ->]. apply Hfresh. by right. }
    split; [| split; [| split]].
    + intros r'. rewrite I1. destruct (decide (r' = r)) as [->|Hne].
      * rewrite (decide_False (P := r ∈ l)) by done.
        rewrite decide_True by (by left). done.
      * destruct (decide (r' ∈ l)) as [Hin|Hnin].
        -- rewrite decide_True by (by right). done.
        -- rewrite decide_False by (intros [->|?]%elem_of_cons; done).
           by apply R3.
    + intros r'. rewrite I2. destruct (decide (r' = r)) as [->|Hne].
      * rewrite (decide_False (P := r ∈ l)) by done.
        rewrite (decide_True (P := r ∈ r :: l)) by (by left). done.
      * destruct (decide (r' ∈ l)) as [Hin|Hnin].
        -- rewrite (decide_True (P := r' ∈ r :: l)) by (by right). done.
        -- rewrite (decide_False (P := r' ∈ r :: l))
             by (intros [->|?]%elem_of_cons; done).
           by apply R3.
    + by rewrite I3.
    + rewrite I4, R5. simpl. by rewrite foldl_app.
Qed.

Lemma initialize_HOR_frame (model : Model.t) (l : list nat) (a : TauArgs) :
  let a' := foldl (λ a i, set_HOR <[Model.species_name model i := 0%Z]> a) a l in
  products a' = products a ∧ reactants a' = reactants a ∧
  critical_threshold a' = critical_threshold a.
Proof.
  cbv zeta. revert a. induction l as [|i l IH]; intros a; cbn [foldl]; [done |].
  by destruct (IH (set_HOR <[Model.species_name model i := 0%Z]> a)) as (-> & -> & ->).
Qed.

Lemma initialize_records (model : Model.t) (tau_tol : float) :
  let a := initialize model tau_tol in
  (∀ r, reactions_reactants a !! r
        = if decide (r < Model.number_reactions model) then Some (consumed model r)
          else None) ∧
  (∀ r, products a !! r
        = if decide (r < Model.number_reactions model ∧ produced model r ≠ [])
          then Some (produced model r) else None) ∧
  critical_threshold a = 10%Z ∧
  reactants a
  = foldl (λ s i, set_insert (species_at model i) s) []
          (seq 0 (Model.number_reactions model) ≫= consumed model).
Proof.
  cbv zeta. unfold initialize, initialize_HOR.
  destruct (initialize_HOR_spec model (seq 0 (Model.number_species model)) tau_args_0)
    as (_ & _ & _ & H4 & _).
  destruct (initialize_HOR_frame model (seq 0 (Model.number_species model)) tau_args_0)
    as (F1 & F2 & F3).
  cbv zeta in H4, F1, F2, F3.
  destruct (initialize_fold_records model tau_tol (seq 0 (Model.number_reactions model))
              (foldl (λ a i, set_HOR <[Model.species_name model i := 0%Z]> a) tau_args_0
                     (seq 0 (Model.number_species model))))
    as (I1 & I2 & I3 & I4).
  { apply NoDup_seq. }
  { intros r _. by rewrite H4, F1. }
  split; [| split; [| split]].
  - intros r. rewrite I1, H4. simpl.
    destruct (decide (r ∈ seq 0 (Model.number_reactions model))) as [Hin|Hnin];
      rewrite elem_of_seq in *.
    + rewrite decide_True by lia. done.
    + rewrite decide_False by lia. done.
  - intros r. rewrite I2, F1. simpl.
    destruct (decide (r ∈ seq 0 (Model.number_reactions model))) as [Hin|Hnin];
      rewrite elem_of_seq in *.
    + destruct (decide (produced model r = [])) as [E|E].
      * rewrite decide_False by tauto. done.
      * rewrite decide_True; [done | split; [lia | done]].
    + rewrite decide_False by lia. done.
  - by rewrite I3, F3.
  - by rewrite I4, F2.
Qed.

(** X1. After [initialize], [reactions_reactants] has an entry for every
    reaction index of the model and for nothing else; the entry of a reaction
    lists the species it consumes, in index order. *)
Theorem initialize_reactions_reactants_consumed (model : Model.t) (tau_tol : float)
    (r : nat) :
  reactions_reactants (initialize model tau_tol) !! r
  = if decide (r < Model.number_reactions model) then Some (consumed model r) else None.
Proof. apply initialize_records. Qed.

(** X2. After [initialize], [products] has an entry exactly for the reactions
    that produce some species; the entry lists the species the reaction
    produces, in index order. *)
Theorem initialize_products_produced (model : Model.t) (tau_tol : float) (r : nat) :
  products (initialize model tau_tol) !! r
  = if decide (r < Model.number_reactions model ∧ produced model r ≠ [])
    then Some (produced model r) else None.
Proof. apply initialize_records. Qed.

(** ** The set of reactants *)

Lemma set_insert_elem_of (s x : Species.t) (l : list Species.t) :
  x ∈ set_insert s l → x = s ∨ x ∈ l.
Proof.
  induction l as [|y l IH]; simpl.
  - intros ->%list_elem_of_singleton. by left.
  - destruct (Species.id s <? Species.id y); [| destruct (Species.id y <? Species.id s)].
    + intros [->|H]%elem_of_cons; [by left | by right].
    + intros [->|H]%elem_of_cons; [right; by left |].
      destruct (IH H) as [->|?]; [by left | right; by right].
    + by right.
Qed.

Lemma set_insert_keeps (s x : Species.t) (l : list Species.t) :
  x ∈ l → x ∈ set_insert s l.
Proof.
  induction l as [|y l IH]; simpl; [by intros ?%elem_of_nil |].
  destruct (Species.id s <? Species.id y); [| destruct (Species.id y <? Species.id s)].
  - by right.
  - intros [->|H]%elem_of_cons; [by left | right; by apply IH].
  - done.
Qed.

Lemma set_insert_adds (s : Species.t) (l : list Species.t) :
  s ∈ set_insert s l ∨ ∃ y, y ∈ l ∧ Species.id y = Species.id s.
Proof.
  induction l as [|y l IH]; simpl; [left; by left |].
  destruct (Nat.ltb_spec (Species.id s) (Species.id y));
    [| destruct (Nat.ltb_spec (Species.id y) (Species.id s))].
  - left. by left.
  - destruct IH as [Hin|(z & Hz & E)].
    + left. by right.
    + right. exists z. split; [by right | done].
  - right. exists y. split; [by left | lia].
Qed.

Lemma species_id_inj (model : Model.t) (x y : Species.t) :
  NoDup (Species.id <$> Model.species model) →
  x ∈ Model.species model → y ∈ Model.species model →
  Species.id x = Species.id y → x = y.
Proof.
  intros Hnd [i Hi]%list_elem_of_lookup [j Hj]%list_elem_of_lookup E.
  assert (i = j) as ->.
  { eapply NoDup_lookup; [exact Hnd | |];
      rewrite list_lookup_fmap; [by rewrite Hi | rewrite Hj; simpl; by rewrite E]. }
  congruence.
Qed.

Lemma set_insert_fold_elem_of (model : Model.t) (l : list nat) (s : list Species.t)
    (x : Species.t) :
  NoDup (Species.id <$> Model.species model) →
  Forall (λ i, i < Model.number_species model) l →
  Forall (λ y, y ∈ Model.species model) s →
  x ∈ foldl (λ s i, set_insert (species_at model i) s) s l
  ↔ x ∈ s ∨ ∃ i, i ∈ l ∧ Model.species model !! i = Some x.
Proof.
  intros Hnd. revert s. induction l as [|i l IH]; intros s Hl Hs; cbn [foldl].
  - split; [by left |]. intros [H|(i & Hi & _)]; [done | by apply elem_of_nil in Hi].
  - apply Forall_cons in Hl as [Hi Hl].
    assert (∃ y, Model.species model !! i = Some y) as [y Hy].
    { apply lookup_lt_is_Some_2. exact Hi. }
    assert (species_at model i = y) as Ey
      by (unfold species_at, at_index; by rewrite Hy).
    assert (y ∈ Model.species model) as Hyin by (by eapply list_elem_of_lookup_2).
    rewrite Ey, IH; [| done |].
    + split.
      * intros [H|(j & Hj & Hx)].
        -- apply set_insert_elem_of in H as [->|H]; [| by left].
           right. exists i. split; [by left | done].
        -- right. exists j. split; [by right | done].
      * intros [H|(j & Hj & Hx)].
        -- left. by apply set_insert_keeps.
        -- apply elem_of_cons in Hj as [->|Hj].
           ++ left. assert (x = y) as -> by congruence.
              destruct (set_insert_adds y s) as [H|(z & Hz & E)]; [done |].
              apply set_insert_keeps.
              assert (z = y) as <-; [| done].
              eapply species_id_inj; [done | | done | done].
              by apply (proj1 (Forall_forall _ _) Hs).
           ++ right. by exists j.
    + apply Forall_forall. intros z Hz.
      apply set_insert_elem_of in Hz as [->|Hz]; [done |].
      by apply (proj1 (Forall_forall _ _) Hs).
Qed.

Lemma elem_of_consumed (model : Model.t) (r i : nat) :
  i ∈ consumed model r
  ↔ i < Model.number_species model ∧ (Model.species_change model r i < 0)%Z.
Proof.
  unfold consumed. rewrite list_elem_of_filter, elem_of_seq.
  split; [intros [? ?]; split; [lia | done] | intros [? ?]; split; [done | lia]].
Qed.

(** X3. When the species of the model have distinct ids, the set [reactants]
    that [initialize] returns holds exactly the species that some reaction
    consumes. *)
Theorem initialize_reactants_consumed (model : Model.t) (tau_tol : float)
    (s : Species.t) :
  NoDup (Species.id <$> Model.species model) →
  s ∈ reactants (initialize model tau_tol)
  ↔ ∃ r i, r < Model.number_reactions model ∧ Model.species model !! i = Some s ∧
           (Model.species_change model r i < 0)%Z.
Proof.
  intros Hnd. destruct (initialize_records model tau_tol) as (_ & _ & _ & ->).
  rewrite set_insert_fold_elem_of; [| done | | by constructor].
  - split.
    + intros [H|(i & Hi & Hs)]; [by apply elem_of_nil in H |].
      apply list_elem_of_bind in Hi as (r & Hi & Hr).
      apply elem_of_seq in Hr. apply elem_of_consumed in Hi as [_ Hi].
      exists r, i. split; [lia | done].
    + intros (r & i & Hr & Hs & Hc). right. exists i. split; [| done].
      apply list_elem_of_bind. exists r. split.
      * apply elem_of_consumed. split; [| done]. by eapply lookup_lt_Some.
      * apply elem_of_seq. lia.
  - apply Forall_forall. intros i Hi.
    apply list_elem_of_bind in Hi as (r & Hi & _).
    by apply elem_of_consumed in Hi as [? _].
Qed.

Lemma initialize_reactants_consumed_witness :
  Species.mk 0 "A" 100 ∈ reactants (initialize example_model example_tau_tol)
  ↔ ∃ r i, r < Model.number_reactions example_model ∧
           Model.species example_model !! i = Some (Species.mk 0 "A" 100) ∧
           (Model.species_change example_model r i < 0)%Z.
Proof.
  assert (NoDup (Species.id <$> Model.species example_model)) as H
    by (refine (bool_decide_unpack _ _); vm_compute; exact I).
  exact (initialize_reactants_consumed example_model example_tau_tol
           (Species.mk 0 "A" 100) H).
Defined.

(** ** The bounds that [initialize] keeps for each species *)

Lemma bounds_kept_HOR_nonneg (tau_tol : float) (a : TauArgs) (nm : string) :
  bounds_kept tau_tol a → (0 ≤ at_key 0 (HOR a) nm)%Z.
Proof.
  intros Hk. specialize (Hk nm). unfold at_key.
  destruct (g_i a !! nm).
  - destruct Hk as (-> & ? & _). simpl. lia.
  - destruct Hk as (_ & _ & [-> | ->]); simpl; lia.
Qed.

Lemma raise_HOR_bounds_kept (model : Model.t) (tau_tol : float) (r : nat)
    (order : Z) (a : TauArgs) (i : nat) :
  bounds_kept tau_tol a → bounds_kept tau_tol (raise_HOR model tau_tol r order a i).
Proof.
  intros Hk. unfold raise_HOR.
  pose proof (bounds_kept_HOR_nonneg tau_tol a (Model.species_name model i) Hk) as H0.
  destruct (Z.ltb_spec (at_key 0%Z (HOR a) (Model.species_name model i)) order) as [Hlt|];
    [| done].
  repeat case_match; intros nm; specialize (Hk nm); unfold_setters;
    (destruct (decide (Model.species_name model i = nm)) as [->|Hne];
     [rewrite ?at_key_insert_eq, ?lookup_insert_eq
     |rewrite ?lookup_insert_ne by done; exact Hk]).
  - split; [done |]. split; [lia |]. left. by eexists.
  - split; [done |]. split; [lia |]. left. by eexists.
  - split; [done |]. split; [lia |]. left. by eexists.
  - split; [done |]. split; [lia |]. by right.
Qed.

Lemma raise_HOR_g_i_mono (model : Model.t) (tau_tol : float) (r : nat)
    (order : Z) (a : TauArgs) (i : nat) (nm : string) :
  is_Some (g_i a !! nm) → is_Some (g_i (raise_HOR model tau_tol r order a i) !! nm).
Proof.
  intros Hs. unfold raise_HOR.
  repeat case_match; unfold_setters; try done;
    (destruct (decide (Model.species_name model i = nm)) as [->|Hne];
     [rewrite ?lookup_insert_eq; by eexists | by rewrite ?lookup_insert_ne by done]).
Qed.

Lemma raise_HOR_g_i_set (model : Model.t) (tau_tol : float) (r : nat)
    (order : Z) (a : TauArgs) (i : nat) :
  bounds_kept tau_tol a → (0 < order)%Z →
  is_Some (g_i (raise_HOR model tau_tol r order a i) !! Model.species_name model i).
Proof.
  intros Hk Ho. unfold raise_HOR.
  destruct (Z.ltb_spec (at_key 0%Z (HOR a) (Model.species_name model i)) order) as [Hlt|Hge].
  - repeat case_match; unfold_setters; rewrite ?lookup_insert_eq; by eexists.
  - specialize (Hk (Model.species_name model i)). unfold at_key in Hge.
    destruct (g_i a !! Model.species_name model i); [by eexists |].
    destruct Hk as (_ & _ & [E|E]); rewrite E in Hge; simpl in Hge; lia.
Qed.

Lemma raise_HOR_fold_bounds_kept (model : Model.t) (tau_tol : float) (r : nat)
    (order : Z) (l : list nat) (a : TauArgs) :
  bounds_kept tau_tol a →
  let a' := foldl (raise_HOR model tau_tol r order) a l in
  bounds_kept tau_tol a' ∧
  (∀ nm, is_Some (g_i a !! nm) → is_Some (g_i a' !! nm)) ∧
  ((0 < order)%Z → ∀ i, i ∈ l → is_Some (g_i a' !! Model.species_name model i)).
Proof.
  cbv zeta. revert a. induction l as [|i l IH]; intros a Hk; cbn [foldl].
  - split; [done |]. split; [done |]. intros _ i Hi. by apply elem_of_nil in Hi.
  - destruct (IH _ (raise_HOR_bounds_kept model tau_tol r order a i Hk)) as (I1 & I2 & I3).
    split; [done |]. split.
    + intros nm Hnm. apply I2. by apply raise_HOR_g_i_mono.
    + intros Ho j [->|Hj]%elem_of_cons; [| by apply I3].
      apply I2. by apply raise_HOR_g_i_set.
Qed.

Lemma species_at_name (model : Model.t) (i : nat) :
  Species.name (species_at model i) = Model.species_name model i.
Proof.
  unfold species_at, at_index, Model.species_name.
  by destruct (Model.species model !! i).
Qed.

Lemma set_insert_fold_elem_of_1 (model : Model.t) (l : list nat) (s : list Species.t)
    (x : Species.t) :
  x ∈ foldl (λ s i, set_insert (species_at model i) s) s l →
  x ∈ s ∨ ∃ i, i ∈ l ∧ x = species_at model i.
Proof.
  revert s. induction l as [|i l IH]; intros s; cbn [foldl]; [by left |].
  intros [H|(j & Hj & Hx)]%IH.
  - apply set_insert_elem_of in H as [->|H]; [| by left].
    right. exists i. split; [by left | done].
  - right. exists j. split; [by right | done].
Qed.

Lemma initialize_reaction_bounds_kept (model : Model.t) (tau_tol : float)
    (a : TauArgs) (r : nat) :
  reactions_reactants a !! r = None →
  bounds_kept tau_tol a →
  (∀ s, s ∈ reactants a → is_Some (g_i a !! Species.name s)) →
  let a' := initialize_reaction model tau_tol a r in
  bounds_kept tau_tol a' ∧
  (∀ s, s ∈ reactants a' → is_Some (g_i a' !! Species.name s)).
Proof.
  intros Hfresh Hk Hr. cbv zeta. unfold initialize_reaction.
  pose proof (scan_species_fold model r (seq 0 (Model.number_species model)) 0 a) as HS.
  pose proof (scan_species_fold_products model r (seq 0 (Model.number_species model)) 0 a)
    as HP.
  cbv zeta in HS, HP.
  destruct (foldl (scan_species model r) (0%Z, a) (seq 0 (Model.number_species model)))
    as [o a1].
  destruct HS as (S1 & S2 & S3 & S4 & S5 & S6 & _).
  destruct HP as (_ & _ & _ & P4). simpl in S1, S2, S3, S4, S5, S6, P4.
  fold (consumed model r) in S1, S6, P4.
  assert (at_key [] (reactions_reactants a1) r = consumed model r) as ->
    by (rewrite S6; unfold at_key; by rewrite Hfresh).
  set (a2 := set_reactions_reactants (λ m, touch [] m r) a1).
  assert ((if 0 <? length (consumed model r)
           then foldl (raise_HOR model tau_tol r o) a2 (consumed model r)
           else a2)
          = foldl (raise_HOR model tau_tol r o) a2 (consumed model r))
    as -> by (by destruct (consumed model r)).
  assert (bounds_kept tau_tol a2) as Hk2.
  { intros nm. specialize (Hk nm). unfold a2. unfold_setters.
    by rewrite S2, S3, S4, S5. }
  destruct (raise_HOR_fold_bounds_kept model tau_tol r o (consumed model r) a2 Hk2)
    as (I1 & I2 & I3).
  split; [done |].
  destruct (raise_HOR_fold_frame model tau_tol r o (consumed model r) a2) as (_ & -> & _).
  intros s Hs. unfold a2 in Hs. unfold_setters. rewrite P4 in Hs.
  apply set_insert_fold_elem_of_1 in Hs as [Hs|(i & Hi & ->)].
  - apply I2. unfold a2. unfold_setters. rewrite S3. by apply Hr.
  - rewrite species_at_name. apply I3; [| done].
    destruct (consumed model r); [by apply elem_of_nil in Hi | simpl in S1; lia].
Qed.

Lemma initialize_reaction_other (model : Model.t) (tau_tol : float)
    (a : TauArgs) (r r' : nat) :
  r' ≠ r →
  reactions_reactants (initialize_reaction model tau_tol a r) !! r'
  = reactions_reactants a !! r'.
Proof.
  intros Hne. unfold initialize_reaction.
  pose proof (scan_species_fold model r (seq 0 (Model.number_species model)) 0 a) as HS.
  cbv zeta in HS.
  destruct (foldl (scan_species model r) (0%Z, a) (seq 0 (Model.number_species model)))
    as [o a1].
  destruct HS as (_ & _ & _ & _ & _ & _ & S7). simpl in S7.
  set (a2 := set_reactions_reactants (λ m, touch [] m r) a1).
  assert (reactions_reactants a2 !! r' = reactions_reactants a !! r') as H2.
  { unfold a2. unfold_setters. rewrite <- S7 by done. unfold touch.
    destruct (reactions_reactants a1 !! r); [done |]. by rewrite lookup_insert_ne. }
  destruct (0 <? length (at_key [] (reactions_reactants a1) r)); [| done].
  by destruct (raise_HOR_fold_frame model tau_tol r o
                 (at_key [] (reactions_reactants a1) r) a2) as (_ & _ & _ & ->).
Qed.

Lemma initialize_fold_bounds_kept (model : Model.t) (tau_tol : float)
    (l : list nat) (a : TauArgs) :
  NoDup l → (∀ r, r ∈ l → reactions_reactants a !! r = None) →
  bounds_kept tau_tol a →
  (∀ s, s ∈ reactants a → is_Some (g_i a !! Species.name s)) →
  let a' := foldl (initialize_reaction model tau_tol) a l in
  bounds_kept tau_tol a' ∧
  (∀ s, s ∈ reactants a' → is_Some (g_i a' !! Species.name s)).
Proof.
  cbv zeta. revert a. induction l as [|r l IH]; intros a Hnd Hfresh Hk Hr; cbn [foldl];
    [done |].
  apply NoDup_cons in Hnd as [Hrl Hnd].
  destruct (initialize_reaction_bounds_kept model tau_tol a r) as [H1 H2];
    [apply Hfresh; by left | done | done |].
  apply IH; [done | | done | done].
  intros r' Hr'. rewrite initialize_reaction_other by (intros ->; done).
  apply Hfresh. by right.
Qed.

Lemma initialize_HOR_values (model : Model.t) (l : list nat) (a : TauArgs) :
  (∀ nm, HOR a !! nm = None ∨ HOR a !! nm = Some 0%Z) →
  ∀ nm, HOR (foldl (λ a i, set_HOR <[Model.species_name model i := 0%Z]> a) a l) !! nm = None
        ∨ HOR (foldl (λ a i, set_HOR <[Model.species_name model i := 0%Z]> a) a l) !! nm
          = Some 0%Z.
Proof.
  revert a. induction l as [|i l IH]; intros a Ha; cbn [foldl]; [done |].
  apply IH. intros nm. unfold_setters.
  destruct (decide (Model.species_name model i = nm)) as [->|Hne].
  - right. by rewrite lookup_insert_eq.
  - rewrite lookup_insert_ne by done. apply Ha.
Qed.

Lemma initialize_bounds_kept (model : Model.t) (tau_tol : float) :
  let a := initialize model tau_tol in
  bounds_kept tau_tol a ∧
  (∀ s, s ∈ reactants a → is_Some (g_i a !! Species.name s)).
Proof.
  cbv zeta. unfold initialize, initialize_HOR.
  destruct (initialize_HOR_spec model (seq 0 (Model.number_species model)) tau_args_0)
    as (H1 & H2 & H3 & H4 & H5).
  destruct (initialize_HOR_frame model (seq 0 (Model.number_species model)) tau_args_0)
    as (_ & F2 & _).
  cbv zeta in H1, H2, H3, H4, H5, F2.
  apply initialize_fold_bounds_kept.
  - apply NoDup_seq.
  - intros r _. by rewrite H4.
  - intros nm. rewrite H1, H2, H3. simpl. rewrite !lookup_empty.
    split; [done |]. split; [done |].
    apply initialize_HOR_values. intros nm'. left. apply lookup_empty.
  - intros s. rewrite F2. simpl. by intros ?%elem_of_nil.
Qed.

(** X4. After [initialize], [g_i] has an entry exactly for the names whose
    [HOR] is positive, and the entry is the value of [HOR]. *)
Theorem initialize_g_i_is_positive_HOR (model : Model.t) (tau_tol : float)
    (nm : string) (h : Z) :
  g_i (initialize model tau_tol) !! nm = Some h
  ↔ HOR (initialize model tau_tol) !! nm = Some h ∧ (0 < h)%Z.
Proof.
  destruct (initialize_bounds_kept model tau_tol) as [Hk _]. specialize (Hk nm).
  destruct (g_i (initialize model tau_tol) !! nm) as [h'|].
  - destruct Hk as (Hh & Hpos & _). split.
    + intros [= <-]. done.
    + intros [Hh' _]. congruence.
  - destruct Hk as (_ & _ & [E|E]); split; try done; intros [Hh Hpos]; rewrite E in Hh;
      [done | injection Hh as <-; lia].
Qed.

(** X5. After [initialize], a name has a [g_i] entry exactly when it has a
    pending deferred function or an [epsilon_i] entry. *)
Theorem initialize_g_i_has_bound (model : Model.t) (tau_tol : float) (nm : string) :
  is_Some (g_i (initialize model tau_tol) !! nm)
  ↔ is_Some (g_i_lambdas (initialize model tau_tol) !! nm)
    ∨ is_Some (epsilon_i (initialize model tau_tol) !! nm).
Proof.
  destruct (initialize_bounds_kept model tau_tol) as [Hk _]. specialize (Hk nm).
  destruct (g_i (initialize model tau_tol) !! nm) as [h|].
  - destruct Hk as (_ & _ & [H|H]); split; try (by eexists); intros _.
    + by left.
    + right. by eexists.
  - destruct Hk as (-> & -> & _). split; [by intros [? ?] | by intros [[? ?]|[? ?]]].
Qed.

(** ** The deferred function that is pending after [initialize] *)

Lemma last_omap_installed (l : list hor_case) (c : hor_case) :
  last (omap installed (l ++ [c]))
  = match installed c with Some f => Some f | None => last (omap installed l) end.
Proof.
  rewrite omap_app. simpl. destruct (installed c); [by rewrite last_snoc |].
  by rewrite app_nil_r.
Qed.

Lemma raise_HOR_tracks_installed (model : Model.t) (tau_tol : float) (nm : string)
    (r : nat) (a : TauArgs) (t : Z * list hor_case) (i : nat) :
  tracks tau_tol nm a t → tracks_installed nm a t →
  tracks_installed nm (raise_HOR model tau_tol r (rxn_order model r) a i)
                   (track_step model nm r t i).
Proof.
  intros (TH & _ & _) (T0 & T1 & TI). unfold raise_HOR, track_step.
  destruct (decide (Model.species_name model i = nm)) as [->|Hne].
  - unfold at_key at 1. rewrite TH. simpl default.
    destruct (Z.ltb_spec t.1 (rxn_order model r)) as [Hlt|]; [| done].
    unfold classify.
    destruct ((Z.abs (Model.species_change model r i) =? 2)
              && (rxn_order model r =? 2))%Z;
      [| destruct ((Z.abs (Model.species_change model r i) =? 2)
                   && (rxn_order model r =? 3))%Z;
         [| destruct (Z.abs (Model.species_change model r i) =? 3)%Z]];
      unfold tracks_installed; unfold_setters;
      (split; [lia |]); (split; [intros _; lia |]);
      rewrite last_omap_installed; simpl installed;
      by rewrite ?lookup_insert_eq.
  - destruct (at_key 0%Z (HOR a) (Model.species_name model i) <? rxn_order model r)%Z;
      [| done].
    repeat case_match; unfold tracks_installed; unfold_setters;
      rewrite ?lookup_insert_ne by done; done.
Qed.

Lemma raise_HOR_fold_tracks_installed (model : Model.t) (tau_tol : float) (nm : string)
    (r : nat) (l : list nat) (a : TauArgs) (t : Z * list hor_case) :
  tracks tau_tol nm a t → tracks_installed nm a t →
  tracks_installed nm (foldl (raise_HOR model tau_tol r (rxn_order model r)) a l)
                   (foldl (track_step model nm r) t l).
Proof.
  revert a t. induction l as [|i l IH]; intros a t Ht Hi; cbn [foldl]; [done |].
  apply IH; [by apply raise_HOR_tracks | by apply raise_HOR_tracks_installed].
Qed.

Lemma initialize_reaction_tracks_installed (model : Model.t) (tau_tol : float)
    (nm : string) (a : TauArgs) (t : Z * list hor_case) (r : nat) :
  reactions_reactants a !! r = None →
  tracks tau_tol nm a t → tracks_installed nm a t →
  tracks_installed nm (initialize_reaction model tau_tol a r) (track_reaction model nm t r).
Proof.
  intros Hfresh Ht (T0 & T1 & TI). unfold initialize_reaction, track_reaction.
  pose proof (scan_species_fold model r (seq 0 (Model.number_species model)) 0 a) as HS.
  cbv zeta in HS.
  destruct (foldl (scan_species model r) (0%Z, a) (seq 0 (Model.number_species model)))
    as [o a1].
  destruct HS as (S1 & S2 & S3 & S4 & S5 & S6 & S7). simpl in S1, S2, S3, S4, S5, S6, S7.
  fold (consumed model r) in S1, S6.
  assert (o = rxn_order model r) as -> by (unfold rxn_order; lia).
  assert (at_key [] (reactions_reactants a1) r = consumed model r) as ->
    by (rewrite S6; unfold at_key; by rewrite Hfresh).
  set (a2 := set_reactions_reactants (λ m, touch [] m r) a1).
  assert (tracks tau_tol nm a2 t) as Ht2.
  { destruct Ht as (TH & TG & TL). unfold tracks, a2. unfold_setters.
    by rewrite S2, S3, S4, S5. }
  assert (tracks_installed nm a2 t) as Hi2.
  { unfold tracks_installed, a2. unfold_setters. by rewrite S4. }
  assert ((if 0 <? length (consumed model r)
           then foldl (raise_HOR model tau_tol r (rxn_order model r)) a2 (consumed model r)
           else a2)
          = foldl (raise_HOR model tau_tol r (rxn_order model r)) a2 (consumed model r))
    as -> by (by destruct (consumed model r)).
  by apply raise_HOR_fold_tracks_installed.
Qed.

Lemma initialize_fold_tracks_installed (model : Model.t) (tau_tol : float) (nm : string)
    (l : list nat) (a : TauArgs) (t : Z * list hor_case) :
  NoDup l → (∀ r, r ∈ l → reactions_reactants a !! r = None) →
  tracks tau_tol nm a t → tracks_installed nm a t →
  tracks_installed nm (foldl (initialize_reaction model tau_tol) a l)
                   (foldl (track_reaction model nm) t l).
Proof.
  revert a t. induction l as [|r l IH]; intros a t Hnd Hfresh Ht Hi; cbn [foldl]; [done |].
  apply NoDup_cons in Hnd as [Hr Hnd].
  destruct (initialize_reaction_tracks model tau_tol nm a t r) as [H1 H2];
    [apply Hfresh; by left | done |].
  apply IH; [done | | done |].
  - intros r' Hr'. rewrite H2; [apply Hfresh; by right | intros ->; done].
  - apply initialize_reaction_tracks_installed; [apply Hfresh; by left | done | done].
Qed.

Lemma initialize_tracks_installed (model : Model.t) (tau_tol : float) (nm : string) :
  nm ∈ Species.name <$> Model.species model →
  tracks_installed nm (initialize model tau_tol) (track model nm).
Proof.
  intros Hnm. unfold initialize, track, initialize_HOR.
  destruct (initialize_HOR_spec model (seq 0 (Model.number_species model)) tau_args_0)
    as (I1 & I2 & I3 & I4 & I5).
  apply initialize_fold_tracks_installed.
  - apply NoDup_seq.
  - intros r _. by rewrite I4.
  - unfold tracks. rewrite I1, I2, I3. simpl. split; [| split].
    + apply I5. left. by rewrite species_names_seq.
    + done.
    + by rewrite lookup_empty.
  - split; [done |]. split; [done |]. rewrite I2. simpl. by rewrite lookup_empty.
Qed.

(** X6. After [initialize], the deferred function pending for a species is
    the one installed by the last update of [HOR] for the species that
    installed one; none is pending when no update installed one. *)
Theorem initialize_pending_function (model : Model.t) (tau_tol : float) (nm : string) :
  nm ∈ Species.name <$> Model.species model →
  g_i_lambdas (initialize model tau_tol) !! nm
  = last (omap installed (hor_updates model nm)).
Proof.
  intros Hnm. by destruct (initialize_tracks_installed model tau_tol nm Hnm) as (_ & _ & TI).
Qed.

Lemma initialize_pending_function_witness :
  g_i_lambdas (initialize example_model example_tau_tol) !! "A"
  = last (omap installed (hor_updates example_model "A")).
Proof.
  assert ("A" ∈ Species.name <$> Model.species example_model) as H
    by (refine (bool_decide_unpack _ _); vm_compute; exact I).
  exact (initialize_pending_function example_model example_tau_tol "A" H).
Defined.

(** X7. When the last update of [HOR] for a species came from a reaction that
    consumes three copies of it, and no reaction that consumes the species
    consumes more than two species, the deferred function pending after
    [initialize] divides by zero at the species' [g_i]: its value is
    [+infinity], which has no integer part for line 158 to store. *)
Theorem initialize_three_copies_bound_is_infinite (model : Model.t) (tau_tol : float)
    (i : nat) :
  Model.well_formed model →
  i < Model.number_species model →
  last (hor_updates model (Model.species_name model i)) = Some case_3 →
  (max_order model i ≤ 2)%Z →
  let a := initialize model tau_tol in
  let nm := Model.species_name model i in
  g_i_lambdas a !! nm = Some lambda_3 ∧
  g_i a !! nm = Some (max_order model i) ∧
  Prim2SF (lambda_3 (Double.of_int (at_key 0%Z (g_i a) nm))) = S754_infinity false ∧
  Double.truncate (Prim2SF (lambda_3 (Double.of_int (at_key 0%Z (g_i a) nm)))) = None.
Proof.
  intros [Hnd _] Hi Hlast Hmax a nm. subst nm.
  set (nm := Model.species_name model i) in *.
  assert (nm ∈ Species.name <$> Model.species model) as Hin
    by (eapply list_elem_of_lookup_2; by apply species_name_lookup).
  destruct (initialize_tracks_installed model tau_tol nm Hin) as (T0 & T1 & TI).
  destruct (initialize_tracks model tau_tol nm Hin) as (TH & _).
  destruct (initialize_bounds_kept model tau_tol) as [Hk _]. specialize (Hk nm).
  fold a in TI, TH, Hk.
  assert ((track model nm).1 = max_order model i) as Ht.
  { unfold track, max_order, nm. rewrite track_fold_fst by done. simpl.
    apply Z.max_r. induction (rxn_order model <$> _) as [|o os IH]; cbn [foldr]; lia. }
  assert (0 < (track model nm).1)%Z as Hpos.
  { apply T1. unfold hor_updates in Hlast. intros E. by rewrite E in Hlast. }
  rewrite Ht in TH, Hpos.
  assert (g_i a !! nm = Some (max_order model i)) as Hg.
  { destruct (g_i a !! nm) as [h|].
    - destruct Hk as (Hh & _). congruence.
    - destruct Hk as (_ & _ & [E|E]); rewrite E in TH; [done | injection TH as E'; lia]. }
  split.
  { rewrite TI. unfold hor_updates in Hlast.
    destruct (track model nm).2 as [|c l _] using rev_ind; [done |].
    rewrite last_snoc in Hlast. injection Hlast as ->.
    by rewrite last_omap_installed. }
  split; [done |].
  unfold at_key. rewrite Hg. simpl default.
  assert (max_order model i = 1 ∨ max_order model i = 2)%Z as [-> | ->] by lia;
    split; reflexivity.
Qed.

Lemma initialize_three_copies_bound_is_infinite_witness :
  let a := initialize example_model_3A example_tau_tol in
  let nm := Model.species_name example_model_3A 0 in
  g_i_lambdas a !! nm = Some lambda_3 ∧
  g_i a !! nm = Some (max_order example_model_3A 0) ∧
  Prim2SF (lambda_3 (Double.of_int (at_key 0%Z (g_i a) nm))) = S754_infinity false ∧
  Double.truncate (Prim2SF (lambda_3 (Double.of_int (at_key 0%Z (g_i a) nm)))) = None.
Proof.
  assert (Model.well_formed example_model_3A) as H1.
  { split.
    - refine (bool_decide_unpack _ _). vm_compute. exact I.
    - repeat constructor. }
  assert (0 < Model.number_species example_model_3A) as H2 by (vm_compute; lia).
  assert (last (hor_updates example_model_3A (Model.species_name example_model_3A 0))
          = Some case_3) as H3 by (vm_compute; reflexivity).
  assert (max_order example_model_3A 0 ≤ 2)%Z as H4 by (vm_compute; discriminate).
  exact (initialize_three_copies_bound_is_infinite example_model_3A example_tau_tol 0
           H1 H2 H3 H4).
Defined.

(** ** What [tau_tol] reaches in [initialize] *)

Lemma raise_HOR_without_epsilon_i (model : Model.t) (tau_tol tau_tol' : float) (r : nat)
    (order : Z) (a b : TauArgs) (i : nat) :
  without_epsilon_i a = without_epsilon_i b →
  without_epsilon_i (raise_HOR model tau_tol r order a i)
  = without_epsilon_i (raise_HOR model tau_tol' r order b i).
Proof.
  destruct a, b. unfold without_epsilon_i, raise_HOR. unfold_setters.
  intros [= -> -> -> -> -> -> ->]. by repeat case_match.
Qed.

Lemma raise_HOR_fold_without_epsilon_i (model : Model.t) (tau_tol tau_tol' : float)
    (r : nat) (order : Z) (l : list nat) (a b : TauArgs) :
  without_epsilon_i a = without_epsilon_i b →
  without_epsilon_i (foldl (raise_HOR model tau_tol r order) a l)
  = without_epsilon_i (foldl (raise_HOR model tau_tol' r order) b l).
Proof.
  revert a b. induction l as [|i l IH]; intros a b E; cbn [foldl]; [done |].
  apply IH. by apply raise_HOR_without_epsilon_i.
Qed.

Lemma scan_species_without_epsilon_i (model : Model.t) (r : nat) (l : list nat)
    (o : Z) (a b : TauArgs) :
  without_epsilon_i a = without_epsilon_i b →
  (foldl (scan_species model r) (o, a) l).1 = (foldl (scan_species model r) (o, b) l).1 ∧
  without_epsilon_i (foldl (scan_species model r) (o, a) l).2
  = without_epsilon_i (foldl (scan_species model r) (o, b) l).2.
Proof.
  revert o a b. induction l as [|i l IH]; intros o a b E; cbn [foldl]; [done |].
  destruct (Z.lt_trichotomy (Model.species_change model r i) 0) as [Hneg|[Hz|Hpos]];
    [rewrite !scan_species_consumed by done
    |rewrite !scan_species_untouched by done
    |rewrite !scan_species_produced by done];
    apply IH; try done;
    destruct a, b; unfold without_epsilon_i in *; unfold_setters;
    by injection E as -> -> -> -> -> -> ->.
Qed.

Lemma initialize_reaction_without_epsilon_i (model : Model.t) (tau_tol tau_tol' : float)
    (a b : TauArgs) (r : nat) :
  without_epsilon_i a = without_epsilon_i b →
  without_epsilon_i (initialize_reaction model tau_tol a r)
  = without_epsilon_i (initialize_reaction model tau_tol' b r).
Proof.
  intros E. unfold initialize_reaction.
  destruct (scan_species_without_epsilon_i model r (seq 0 (Model.number_species model))
              0 a b E) as [E1 E2].
  destruct (foldl (scan_species model r) (0%Z, a) _) as [o a1].
  destruct (foldl (scan_species model r) (0%Z, b) _) as [o' b1].
  simpl in E1, E2. subst o'.
  assert (reactions_reactants a1 = reactions_reactants b1) as Er.
  { destruct a1, b1. unfold without_epsilon_i in E2. unfold_setters. congruence. }
  rewrite Er.
  assert (without_epsilon_i (set_reactions_reactants (λ m, touch [] m r) a1)
          = without_epsilon_i (set_reactions_reactants (λ m, touch [] m r) b1)) as E3.
  { destruct a1, b1. unfold without_epsilon_i in *. unfold_setters.
    by injection E2 as -> -> -> -> -> -> ->. }
  destruct (0 <? length _); [| done].
  by apply raise_HOR_fold_without_epsilon_i.
Qed.

(** X8. The tolerance given to [initialize] reaches [epsilon_i] only: two
    calls on the same model with different tolerances return the same [HOR],
    [reactants], [g_i_lambdas], [g_i], [reactions_reactants], [products] and
    [critical_threshold]. *)
Theorem initialize_tolerance_reaches_epsilon_only (model : Model.t)
    (tau_tol tau_tol' : float) :
  let a := initialize model tau_tol in
  let b := initialize model tau_tol' in
  HOR a = HOR b ∧ reactants a = reactants b ∧ g_i_lambdas a = g_i_lambdas b ∧
  g_i a = g_i b ∧ reactions_reactants a = reactions_reactants b ∧
  products a = products b ∧ critical_threshold a = critical_threshold b.
Proof.
  cbv zeta.
  assert (without_epsilon_i (initialize model tau_tol)
          = without_epsilon_i (initialize model tau_tol')) as E.
  { unfold initialize. generalize (initialize_HOR model tau_args_0).
    intros a0. assert (without_epsilon_i a0 = without_epsilon_i a0) as E0 by done.
    revert E0. generalize a0 at 1 3. generalize a0.
    induction (seq 0 (Model.number_reactions model)) as [|r l IH]; intros a b E0;
      cbn [foldl]; [done |].
    apply IH. by apply initialize_reaction_without_epsilon_i. }
  destruct (initialize model tau_tol), (initialize model tau_tol').
  unfold without_epsilon_i in E. unfold_setters.
  by injection E as -> -> -> -> -> -> ->.
Qed.

(** ** The state that [select] leaves in [tau_args] *)

Lemma TauArgs_eq (a b : TauArgs) :
  HOR a = HOR b → reactants a = reactants b → g_i_lambdas a = g_i_lambdas b →
  g_i a = g_i b → epsilon_i a = epsilon_i b →
  reactions_reactants a = reactions_reactants b → products a = products b →
  critical_threshold a = critical_threshold b → a = b.
Proof. destruct a, b. simpl. by intros -> -> -> -> -> -> -> ->. Qed.

Lemma lookup_foldl_touch `{Countable K} {A V} (d : V) (f : A → K) (l : list A)
    (m : gmap K V) (k : K) :
  foldl (λ m x, touch d m (f x)) m l !! k
  = if decide (k ∈ f <$> l) then Some (at_key d m k) else m !! k.
Proof.
  revert m. induction l as [|x l IH]; intros m; cbn [foldl].
  - rewrite decide_False; [done |]. rewrite fmap_nil. apply not_elem_of_nil.
  - rewrite IH. rewrite fmap_cons.
    assert (at_key d (touch d m (f x)) k = at_key d m k) as Hat.
    { unfold at_key, touch. destruct (m !! f x) eqn:E; [done |].
      destruct (decide (f x = k)) as [<-|Hne].
      - by rewrite lookup_insert_eq, E.
      - by rewrite lookup_insert_ne. }
    destruct (decide (k ∈ f <$> l)) as [Hin|Hnin].
    + rewrite decide_True by (by right). by rewrite Hat.
    + destruct (decide (k = f x)) as [->|Hne].
      * rewrite decide_True by (by left).
        unfold touch, at_key. destruct (m !! f x) eqn:E; [by rewrite E |].
        by rewrite lookup_insert_eq.
      * rewrite decide_False by (intros [?|?]%elem_of_cons; done).
        unfold touch. destruct (m !! f x); [done |]. by rewrite lookup_insert_ne.
Qed.

Lemma foldl_touch_idem `{Countable K} {A V} (d : V) (f : A → K) (l : list A)
    (m : gmap K V) :
  foldl (λ m x, touch d m (f x)) (foldl (λ m x, touch d m (f x)) m l) l
  = foldl (λ m x, touch d m (f x)) m l.
Proof.
  apply map_eq. intros k. rewrite !lookup_foldl_touch.
  destruct (decide (k ∈ f <$> l)); [| done].
  unfold at_key at 1. rewrite lookup_foldl_touch. by rewrite decide_True.
Qed.

(** X9. A call of [select] that finds no function pending returns; it changes
    neither [HOR], [reactants], [products], [critical_threshold] nor [g_i],
    and leaves no function pending; in [reactions_reactants] it creates an
    empty entry for every reaction index of the model that has none and
    changes nothing else. *)
Theorem select_leaves_structure (model : Model.t) (a : TauArgs)
    (tau_tol current_time save_time : float)
    (propensity_values : list float) (current_state : list Z) :
  g_i_lambdas a = ∅ →
  ∃ tau a',
    select model a tau_tol current_time save_time propensity_values current_state
    = Returns (tau, a') ∧
    HOR a' = HOR a ∧ reactants a' = reactants a ∧ products a' = products a ∧
    critical_threshold a' = critical_threshold a ∧
    g_i_lambdas a' = ∅ ∧ g_i a' = g_i a ∧
    ∀ r, reactions_reactants a' !! r
         = if decide (r < Model.number_reactions model)
           then Some (at_key [] (reactions_reactants a) r)
           else reactions_reactants a !! r.
Proof.
  intros He. eexists _, _. split; [by apply select_returns |].
  unfold touched. unfold_setters. repeat split; try done.
  intros r. rewrite (lookup_foldl_touch [] id). rewrite list_fmap_id.
  destruct (decide (r ∈ seq 0 (Model.number_reactions model))) as [Hin|Hnin];
    rewrite elem_of_seq in *.
  - by rewrite decide_True by lia.
  - by rewrite decide_False by lia.
Qed.

Lemma select_leaves_structure_witness :
  let a := initialize example_model_A example_tau_tol in
  ∃ tau a',
    select example_model_A a example_tau_tol 0 1 [2; 0.5]%float [100]%Z = Returns (tau, a') ∧
    HOR a' = HOR a ∧ reactants a' = reactants a ∧ products a' = products a ∧
    critical_threshold a' = critical_threshold a ∧
    g_i_lambdas a' = ∅ ∧ g_i a' = g_i a ∧
    ∀ r, reactions_reactants a' !! r
         = if decide (r < Model.number_reactions example_model_A)
           then Some (at_key [] (reactions_reactants a) r)
           else reactions_reactants a !! r.
Proof.
  intros a.
  assert (g_i_lambdas a = ∅) as H by (vm_compute; reflexivity).
  exact (select_leaves_structure example_model_A a example_tau_tol 0 1 [2; 0.5]%float
           [100]%Z H).
Defined.

(** X10. After a call of [select] that finds no function pending, a second
    call with the same model returns too and leaves [tau_args] as the first
    call left it, whatever the other arguments of the two calls are. *)
Theorem select_twice (model : Model.t) (a : TauArgs)
    (tau_tol current_time save_time : float)
    (propensity_values : list float) (current_state : list Z)
    (tau_tol' current_time' save_time' : float)
    (propensity_values' : list float) (current_state' : list Z) :
  g_i_lambdas a = ∅ →
  ∃ tau tau' a1,
    select model a tau_tol current_time save_time propensity_values current_state
    = Returns (tau, a1) ∧
    select model a1 tau_tol' current_time' save_time' propensity_values' current_state'
    = Returns (tau', a1).
Proof.
  intros He. eexists _, _, _. split; [by apply select_returns |].
  destruct (touched_fields model a) as (F1 & _). cbv zeta in F1.
  rewrite select_returns by congruence. f_equal. f_equal.
  apply TauArgs_eq; unfold touched; unfold_setters; try done.
  - apply foldl_touch_idem.
  - apply (foldl_touch_idem [] id).
Qed.

Lemma select_twice_witness :
  let a := initialize example_model_A example_tau_tol in
  ∃ tau tau' a1,
    select example_model_A a example_tau_tol 0 1 [2; 0.5]%float [100]%Z = Returns (tau, a1) ∧
    select example_model_A a1 example_tau_tol 0.5 1 [1; 0.25]%float [90]%Z
    = Returns (tau', a1).
Proof.
  intros a.
  assert (g_i_lambdas a = ∅) as H by (vm_compute; reflexivity).
  exact (select_twice example_model_A a example_tau_tol 0 1 [2; 0.5]%float [100]%Z
           example_tau_tol 0.5 1 [1; 0.25]%float [90]%Z H).
Defined.

(** X11. When [initialize] leaves no function pending, a call of [select]
    with the same tolerance returns, and afterwards [epsilon_i] is
    [tau_tol / g_i], name by name: it has an entry exactly where [g_i] has
    one. *)
Theorem select_epsilon_is_tol_over_g_i (model : Model.t)
    (tau_tol current_time save_time : float)
    (propensity_values : list float) (current_state : list Z) :
  g_i_lambdas (initialize model tau_tol) = ∅ →
  ∃ tau a1,
    select model (initialize model tau_tol) tau_tol current_time save_time
           propensity_values current_state = Returns (tau, a1) ∧
    ∀ nm, epsilon_i a1 !! nm = (λ h, (tau_tol / Double.of_int h)%float) <$> g_i a1 !! nm.
Proof.
  intros He. eexists _, _. split; [by apply select_returns |].
  destruct (initialize_bounds_kept model tau_tol) as [Hk Hr].
  set (a := initialize model tau_tol) in *. cbv zeta in Hk, Hr.
  assert (∀ nm, epsilon_i a !! nm
                = (λ h, (tau_tol / Double.of_int h)%float) <$> g_i a !! nm) as Ha.
  { intros nm. specialize (Hk nm). rewrite He, lookup_empty in Hk.
    destruct (g_i a !! nm) as [h|].
    - destruct Hk as (_ & _ & [[f Hf]|E]); [done | by rewrite E].
    - by destruct Hk as (_ & -> & _). }
  intros nm. unfold touched. unfold_setters. rewrite lookup_foldl_touch.
  destruct (decide (nm ∈ Species.name <$> reactants a)) as [Hin|Hnin]; [| apply Ha].
  apply list_elem_of_fmap in Hin as (s & -> & Hs).
  destruct (Hr s Hs) as [h Hh]. unfold at_key. rewrite Ha, Hh. done.
Qed.

Lemma select_epsilon_is_tol_over_g_i_witness :
  ∃ tau a1,
    select example_model_A (initialize example_model_A example_tau_tol) example_tau_tol
           0 1 [2; 0.5]%float [100]%Z = Returns (tau, a1) ∧
    ∀ nm, epsilon_i a1 !! nm
          = (λ h, (example_tau_tol / Double.of_int h)%float) <$> g_i a1 !! nm.
Proof.
  assert (g_i_lambdas (initialize example_model_A example_tau_tol) = ∅) as H
    by (vm_compute; reflexivity).
  exact (select_epsilon_is_tol_over_g_i example_model_A example_tau_tol 0 1
           [2; 0.5]%float [100]%Z H).
Defined.

(** ** What reaches [tau_args] in [select] *)

(** X12. What a call of [select] that finds no function pending leaves in
    [tau_args] does not depend on the tolerance, the times, the propensities
    or the state it is given: it is determined by the model and
    [tau_args]. *)
Theorem select_state_independent_of_inputs (model : Model.t) (a : TauArgs)
    (tau_tol current_time save_time : float)
    (propensity_values : list float) (current_state : list Z)
    (tau_tol' current_time' save_time' : float)
    (propensity_values' : list float) (current_state' : list Z) :
  g_i_lambdas a = ∅ →
  ∃ tau tau' a',
    select model a tau_tol current_time save_time propensity_values current_state
    = Returns (tau, a') ∧
    select model a tau_tol' current_time' save_time' propensity_values' current_state'
    = Returns (tau', a').
Proof.
  intros He. eexists _, _, _. split; by apply select_returns.
Qed.

Lemma select_state_independent_of_inputs_witness :
  let a := initialize example_model_A example_tau_tol in
  ∃ tau tau' a',
    select example_model_A a example_tau_tol 0 1 [2; 0.5]%float [100]%Z = Returns (tau, a') ∧
    select example_model_A a 0.5 0.5 2 [0; 3]%float [7]%Z = Returns (tau', a').
Proof.
  intros a.
  assert (g_i_lambdas a = ∅) as H by (vm_compute; reflexivity).
  exact (select_state_independent_of_inputs example_model_A a example_tau_tol 0 1
           [2; 0.5]%float [100]%Z 0.5 0.5 2 [0; 3]%float [7]%Z H).
Defined.

(** ** The critical flag *)

Lemma accumulate_critical_eq (model : Model.t) (threshold : Z)
    (propensity_values : list float) (current_state : list Z) (reaction : nat)
    (ms : Moments) (reactant : nat) :
  critical (accumulate model threshold propensity_values current_state reaction
                       ms reactant)
  = critical_pair model threshold propensity_values current_state reaction reactant
    || critical ms.
Proof.
  unfold accumulate, critical_pair.
  destruct (Model.species_change model reaction reactant <? 0)%Z; [| done].
  cbn [critical andb]. by destruct (_ && _).
Qed.

Lemma accumulate_fold_critical (model : Model.t) (threshold : Z)
    (propensity_values : list float) (current_state : list Z) (reaction : nat)
    (rs : list nat) (ms : Moments) :
  critical (foldl (accumulate model threshold propensity_values current_state reaction)
                  ms rs)
  = existsb (critical_pair model threshold propensity_values current_state reaction) rs
    || critical ms.
Proof.
  revert ms. induction rs as [|i rs IH]; intros ms; cbn [foldl existsb]; [done |].
  rewrite IH, accumulate_critical_eq.
  by destruct (critical_pair _ _ _ _ _ i), (existsb _ rs), (critical ms).
Qed.

Lemma at_key_touch `{Countable K} {V} (d : V) (m : gmap K V) (k k' : K) :
  at_key d (touch d m k) k' = at_key d m k'.
Proof.
  unfold at_key, touch. destruct (m !! k) eqn:E; [done |].
  destruct (decide (k = k')) as [<-|Hne].
  - by rewrite lookup_insert_eq, E.
  - by rewrite lookup_insert_ne.
Qed.

Lemma existsb_pointwise {A} (f g : A → bool) (l : list A) :
  (∀ x, f x = g x) → existsb f l = existsb g l.
Proof. intros E. induction l as [|x l IH]; cbn [existsb]; [done |]. by rewrite E, IH. Qed.

Lemma select_moments_fold_critical (model : Model.t)
    (propensity_values : list float) (current_state : list Z)
    (l : list nat) (a : TauArgs) (ms : Moments) :
  critical (foldl (moments_reaction model propensity_values current_state) (a, ms) l).2
  = existsb (λ r, existsb (critical_pair model (critical_threshold a) propensity_values
                                         current_state r)
                          (at_key [] (reactions_reactants a) r)) l
    || critical ms.
Proof.
  revert a ms. induction l as [|r l IH]; intros a ms; cbn [foldl existsb]; [done |].
  unfold moments_reaction at 2. rewrite IH, accumulate_fold_critical.
  cbn [critical_threshold reactions_reactants set_reactions_reactants].
  rewrite (existsb_pointwise _
             (λ r0, existsb (critical_pair model (critical_threshold a) propensity_values
                                           current_state r0)
                            (at_key [] (reactions_reactants a) r0)))
    by (intros r0; by rewrite at_key_touch).
  by destruct (existsb _ (at_key _ _ r)), (existsb _ l), (critical ms).
Qed.

(** X13. For the [tau_args] that [initialize] returns, [select] sets its
    critical flag exactly when some reaction with a positive propensity
    consumes a species whose population, divided by the number of copies the
    reaction consumes, is below 10. *)
Theorem select_critical_flag (model : Model.t) (tau_tol : float)
    (propensity_values : list float) (current_state : list Z) :
  critical (select_moments model (initialize model tau_tol)
                           propensity_values current_state).2 = true
  ↔ ∃ r i, r < Model.number_reactions model ∧ i < Model.number_species model ∧
           critical_pair model 10 propensity_values current_state r i = true.
Proof.
  unfold select_moments. rewrite select_moments_fold_critical, moments_0_critical.
  rewrite orb_false_r.
  destruct (initialize_records model tau_tol) as (R1 & _ & -> & _).
  rewrite existsb_exists. split.
  - intros (r & Hr & Hex). apply existsb_exists in Hex as (i & Hi & Hc).
    apply list_elem_of_In, elem_of_seq in Hr.
    unfold at_key in Hi. rewrite R1, decide_True in Hi by lia. simpl in Hi.
    apply list_elem_of_In, elem_of_consumed in Hi as [Hi _].
    exists r, i. split; [lia | done].
  - intros (r & i & Hr & Hi & Hc). exists r. split.
    + apply list_elem_of_In, elem_of_seq. lia.
    + apply existsb_exists. exists i. split; [| done].
      unfold at_key. rewrite R1, decide_True by lia. simpl.
      apply list_elem_of_In, elem_of_consumed. split; [done |].
      unfold critical_pair in Hc. apply andb_prop in Hc as [Hc _]. by apply Z.ltb_lt.
Qed.

(** ** The smallest candidate *)

Lemma min_element_fold (l : list (string * float)) (s : string * float) :
  let r := foldl (λ smallest y, if (y.2 <? smallest.2)%float then y else smallest) s l in
  (r = s ∨ r ∈ l) ∧ (r = s ∨ (r.2 <? s.2)%float = true) ∧
  ∀ z, z ∈ l → (z.2 <? r.2)%float = false.
Proof.
  cbv zeta. revert s. induction l as [|y l IH]; intros s; cbn [foldl].
  - split; [by left |]. split; [by left |]. intros z Hz. by apply elem_of_nil in Hz.
  - destruct (IH (if (y.2 <? s.2)%float then y else s)) as (I1 & I2 & I3).
    set (r := foldl _ _ l) in *.
    destruct (y.2 <? s.2)%float eqn:Eys.
    + split; [right; destruct I1 as [->|?]; [by left | by right] |].
      split; [right; destruct I2 as [->|?]; [done | by eapply ltb_trans] |].
      intros z [->|Hz]%elem_of_cons; [| by apply I3].
      destruct I2 as [->|Hry]; [apply ltb_irrefl |].
      destruct (y.2 <? r.2)%float eqn:E; [| done].
      pose proof (ltb_trans _ _ _ E Hry) as Hc. by rewrite ltb_irrefl in Hc.
    + split; [destruct I1 as [->|?]; [by left | right; by right] |].
      split; [done |].
      intros z [->|Hz]%elem_of_cons; [| by apply I3].
      destruct I2 as [->|Hrs]; [done |].
      destruct (y.2 <? r.2)%float eqn:E; [| done].
      pose proof (ltb_trans _ _ _ E Hrs) as Hc. congruence.
Qed.

Lemma min_element_spec (l : list (string * float)) (r : string * float) :
  min_element l = Some r → r ∈ l ∧ ∀ z, z ∈ l → (z.2 <? r.2)%float = false.
Proof.
  destruct l as [|x l]; [done |]. simpl. intros [= <-].
  destruct (min_element_fold l x) as (I1 & I2 & I3). cbv zeta in I1, I2, I3.
  set (r := foldl _ _ l) in *. split.
  - destruct I1 as [->|?]; [by left | by right].
  - intros z [->|Hz]%elem_of_cons; [| by apply I3].
    destruct I2 as [->|Hrx]; [apply ltb_irrefl |].
    destruct (x.2 <? r.2)%float eqn:E; [| done].
    pose proof (ltb_trans _ _ _ E Hrx) as Hc. by rewrite ltb_irrefl in Hc.
Qed.

Lemma min_second_spec (m : gmap string float) :
  m ≠ ∅ →
  (∃ nm, m !! nm = Some (min_second m)) ∧
  ∀ nm v, m !! nm = Some v → (v <? min_second m)%float = false.
Proof.
  intros Hne. unfold min_second.
  destruct (min_element (entries m)) as [r|] eqn:E.
  - apply min_element_spec in E as [Hin Hmin]. simpl. split.
    + exists r.1. apply elem_of_entries. by destruct r.
    + intros nm v Hv. apply (Hmin (nm, v)). by apply elem_of_entries.
  - exfalso. apply Hne. destruct (entries m) as [|x l] eqn:El; [| done].
    apply map_to_list_empty_iff. apply Permutation_nil_r.
    by rewrite <- entries_Permutation, El.
Qed.

(** ** The single-firing times of line 146 *)

Lemma critical_taus_fold (model : Model.t) (propensity_values : list float)
    (l : list nat) (m : gmap string float) :
  let step := λ (m : gmap string float) reaction,
    let p := at_index 0%float propensity_values reaction in
    if Double.gtb p 0 then <[Model.reaction_name model reaction := (1 / p)%float]> m
    else m in
  (∀ nm v, foldl step m l !! nm = Some v →
     m !! nm = Some v ∨
     ∃ r, r ∈ l ∧ Model.reaction_name model r = nm ∧
          Double.gtb (at_index 0%float propensity_values r) 0 = true ∧
          v = (1 / at_index 0%float propensity_values r)%float) ∧
  (∀ nm, nm ∉ Model.reaction_name model <$> l → foldl step m l !! nm = m !! nm) ∧
  (NoDup (Model.reaction_name model <$> l) →
   ∀ r, r ∈ l → Double.gtb (at_index 0%float propensity_values r) 0 = true →
        foldl step m l !! Model.reaction_name model r
        = Some (1 / at_index 0%float propensity_values r)%float).
Proof.
  cbv zeta. revert m. induction l as [|x l IH]; intros m; cbn [foldl].
  - split; [intros; by left |]. split; [done |]. intros _ r Hr. by apply elem_of_nil in Hr.
  - match goal with |- context [foldl ?f ?m1 l] => destruct (IH m1) as (I1 & I2 & I3) end.
    split; [| split].
    + intros nm v Hv. apply I1 in Hv as [Hv|(r & Hr & Hn & Hp & ->)].
      * destruct (Double.gtb (at_index 0%float propensity_values x) 0) eqn:Ep;
          [| by left].
        destruct (decide (Model.reaction_name model x = nm)) as [<-|Hne].
        -- rewrite lookup_insert_eq in Hv. injection Hv as <-.
           right. exists x. split; [by left | done].
        -- rewrite lookup_insert_ne in Hv by done. by left.
      * right. exists r. split; [by right | done].
    + intros nm Hnm. rewrite fmap_cons in Hnm. apply not_elem_of_cons in Hnm as [Hne Hnm].
      rewrite I2 by done.
      destruct (Double.gtb (at_index 0%float propensity_values x) 0); [| done].
      by rewrite lookup_insert_ne.
    + intros Hnd r Hr Hp. rewrite fmap_cons in Hnd. apply NoDup_cons in Hnd as [Hx Hnd].
      apply elem_of_cons in Hr as [->|Hr]; [| by apply I3].
      rewrite I2 by done. rewrite Hp. by rewrite lookup_insert_eq.
Qed.

Lemma critical_tau_smallest (model : Model.t)
    (propensity_values : list float) (r : nat) :
  NoDup (Reaction.name <$> Model.reactions model) →
  r < Model.number_reactions model →
  (0 <? at_index 0 propensity_values r)%float = true →
  let critical_tau := select_critical_tau model propensity_values true in
  (1 / at_index 0 propensity_values r <? critical_tau)%float = false ∧
  ∃ r', r' < Model.number_reactions model ∧
        (0 <? at_index 0 propensity_values r')%float = true ∧
        critical_tau = (1 / at_index 0 propensity_values r')%float.
Proof.
  intros Hnd Hr Hp. cbv zeta. unfold select_critical_tau.
  rewrite <- reaction_names_seq in Hnd.
  destruct (critical_taus_fold model propensity_values
              (seq 0 (Model.number_reactions model)) ∅) as (F1 & _ & F3).
  cbv zeta in F1, F3. fold (critical_taus model propensity_values) in F1, F3.
  destruct (min_second_spec (critical_taus model propensity_values)) as [[nm Hnm] Hmin].
  { by eapply critical_taus_nonempty. }
  split.
  - eapply Hmin. apply (F3 Hnd r); [apply elem_of_seq; lia | done].
  - apply F1 in Hnm as [Hnm|(r' & Hr' & _ & Hp' & E)]; [by rewrite lookup_empty in Hnm |].
    exists r'. apply elem_of_seq in Hr'. split; [lia | done].
Qed.

(** X14. With distinct reaction names, the critical step is the single-firing
    time [1 / propensity] of a reaction whose propensity is positive, and no
    such reaction has a smaller one. *)
Theorem select_critical_tau_is_smallest (model : Model.t)
    (propensity_values : list float) (r : nat) :
  NoDup (Reaction.name <$> Model.reactions model) →
  r < Model.number_reactions model →
  (0 <? at_index 0 propensity_values r)%float = true →
  let critical_tau := select_critical_tau model propensity_values true in
  (1 / at_index 0 propensity_values r <? critical_tau)%float = false ∧
  ∃ r', r' < Model.number_reactions model ∧
        (0 <? at_index 0 propensity_values r')%float = true ∧
        critical_tau = (1 / at_index 0 propensity_values r')%float.
Proof. apply critical_tau_smallest. Qed.

(** ** The step and its bounds *)

Lemma select_critical_tau_is_smallest_witness :
  (1 / at_index 0%float [2; 0.5]%float 1
   <? select_critical_tau example_model [2; 0.5]%float true)%float = false ∧
  ∃ r', r' < Model.number_reactions example_model ∧
        (0 <? at_index 0%float [2; 0.5]%float r')%float = true ∧
        select_critical_tau example_model [2; 0.5]%float true
        = (1 / at_index 0%float [2; 0.5]%float r')%float.
Proof.
  assert (NoDup (Reaction.name <$> Model.reactions example_model)) as H1
    by (refine (bool_decide_unpack _ _); vm_compute; exact I).
  assert (1 < Model.number_reactions example_model) as H2 by (vm_compute; lia).
  assert ((0 <? at_index 0%float [2; 0.5]%float 1)%float = true) as H3 by (vm_compute; reflexivity).
  exact (select_critical_tau_is_smallest example_model [2; 0.5]%float 1 H1 H2 H3).
Defined.

Lemma clamp_tau_at_most (v pre current_time save_time : float) :
  (v <? pre)%float = false → (0 <? pre)%float = true →
  (Double.max v tau_floor <? clamp_tau pre current_time save_time)%float = false.
Proof.
  intros Hle Hpos.
  assert ((Double.max v tau_floor <? Double.max pre tau_floor)%float = false) as Hm.
  { unfold Double.max.
    destruct (v <? tau_floor)%float eqn:Ev, (pre <? tau_floor)%float eqn:Ep.
    - apply ltb_irrefl.
    - destruct (tau_floor <? pre)%float eqn:E; [| done].
      pose proof (ltb_trans _ _ _ Ev E). congruence.
    - destruct (v <? tau_floor)%float eqn:E; [congruence | done].
    - done. }
  unfold clamp_tau, Double.gtb. rewrite Hpos.
  destruct (0 <? save_time - current_time)%float; [| done].
  unfold Double.min at 1.
  destruct (save_time - current_time <? Double.max pre tau_floor)%float eqn:Ed; [| done].
  destruct (Double.max v tau_floor <? save_time - current_time)%float eqn:E; [| done].
  pose proof (ltb_trans _ _ _ E Ed). congruence.
Qed.

(** X15. In a call of [select] that finds no function pending, the step
    before the clamp is not above any of the non-critical bounds [tau_i]
    that the call computes; when that step is positive, the step that
    [select] returns is not above any of these bounds floored at [1e-10]. *)
Theorem select_step_at_most_tau_i (model : Model.t) (a : TauArgs)
    (tau_tol current_time save_time : float)
    (propensity_values : list float) (current_state : list Z) (nm : string) (v : float) :
  g_i_lambdas a = ∅ →
  select_bounds model a propensity_values current_state !! nm = Some v →
  ∃ pre tau a',
    select_pre_clamp model a tau_tol propensity_values current_state = Returns (pre, a') ∧
    select model a tau_tol current_time save_time propensity_values current_state
    = Returns (tau, a') ∧
    (v <? pre)%float = false ∧
    ((0 <? pre)%float = true → (Double.max v 1e-10 <? tau)%float = false).
Proof.
  intros He Hv.
  assert ((v <? select_step model a propensity_values current_state)%float = false)
    as Hle.
  { unfold select_step. cbv zeta.
    set (tau_i := select_bounds model a propensity_values current_state) in *.
    assert (tau_i ≠ ∅) as Hne by (intros E; by rewrite E, lookup_empty in Hv).
    destruct (min_second_spec tau_i Hne) as [_ Hmin].
    unfold resolve_tau, select_non_critical_tau.
    rewrite size_pos_nonempty by done.
    assert ((size tau_i =? 0) = false) as ->.
    { apply Nat.eqb_neq. intros E. by apply map_size_empty_iff in E. }
    destruct (negb _); [by eapply Hmin |].
    unfold Double.min.
    destruct (_ <? min_second tau_i)%float eqn:E; [| by eapply Hmin].
    destruct (v <? _)%float eqn:Ev; [| done].
    pose proof (ltb_trans _ _ _ Ev E) as Hc. by rewrite (Hmin nm v Hv) in Hc. }
  eexists _, _, _. split; [by apply select_pre_clamp_returns |].
  split; [by apply select_returns |]. split; [done |].
  intros Hpos. by apply clamp_tau_at_most.
Qed.

Lemma select_step_at_most_tau_i_witness :
  let a := initialize example_model_A example_tau_tol in
  let v := at_key 0%float
             (select_bounds example_model_A a [2; 0.5]%float [100]%Z) "A" in
  ∃ pre tau a',
    select_pre_clamp example_model_A a example_tau_tol [2; 0.5]%float [100]%Z
    = Returns (pre, a') ∧
    select example_model_A a example_tau_tol 0 1 [2; 0.5]%float [100]%Z
    = Returns (tau, a') ∧
    (v <? pre)%float = false ∧
    ((0 <? pre)%float = true → (Double.max v 1e-10 <? tau)%float = false).
Proof.
  intros a v.
  assert (g_i_lambdas a = ∅) as H0 by (vm_compute; reflexivity).
  assert (select_bounds example_model_A a [2; 0.5]%float [100]%Z !! "A" = Some v) as H
    by (vm_compute; reflexivity).
  exact (select_step_at_most_tau_i example_model_A a example_tau_tol 0 1 [2; 0.5]%float
           [100]%Z "A" v H0 H).
Defined.

(** X16. In a call of [select] that finds no function pending, with distinct
    reaction names and the critical flag set, the step before the clamp is
    not above the single-firing time [1 / propensity] of any reaction whose
    propensity is positive; when that step is positive, the step that
    [select] returns is not above any of these times floored at [1e-10]. *)
Theorem select_step_at_most_single_firing (model : Model.t) (a : TauArgs)
    (tau_tol current_time save_time : float)
    (propensity_values : list float) (current_state : list Z) (r : nat) :
  g_i_lambdas a = ∅ →
  NoDup (Reaction.name <$> Model.reactions model) →
  critical (select_moments model a propensity_values current_state).2 = true →
  r < Model.number_reactions model →
  (0 <? at_index 0 propensity_values r)%float = true →
  ∃ pre tau a',
    select_pre_clamp model a tau_tol propensity_values current_state = Returns (pre, a') ∧
    select model a tau_tol current_time save_time propensity_values current_state
    = Returns (tau, a') ∧
    (1 / at_index 0 propensity_values r <? pre)%float = false ∧
    ((0 <? pre)%float = true →
     (Double.max (1 / at_index 0 propensity_values r) 1e-10 <? tau)%float = false).
Proof.
  intros He Hnd Hc Hr Hp.
  assert ((1 / at_index 0 propensity_values r
           <? select_step model a propensity_values current_state)%float = false) as Hle.
  { unfold select_step. cbv zeta. rewrite Hc.
    destruct (critical_tau_smallest model propensity_values r Hnd Hr Hp)
      as (Hmin & r' & _ & Hp' & Hct).
    cbv zeta in Hmin, Hct.
    set (ct := select_critical_tau model propensity_values true) in *.
    set (v := (1 / at_index 0 propensity_values r)%float) in *.
    unfold resolve_tau. simpl negb. cbv iota.
    destruct (size _ =? 0); [done |].
    unfold Double.min. destruct (ct <? _)%float eqn:E; [done |].
    match goal with |- (v <? ?n)%float = false => set (nct := n) in * end.
    destruct (v <? nct)%float eqn:Ev; [| done].
    assert (is_number ct) as Nct by (rewrite Hct; by apply div_1_pos_number).
    assert (is_number v) as Nv by (by apply div_1_pos_number).
    pose proof (ltb_false_leb ct v Nct Nv Hmin) as Hle.
    pose proof (leb_ltb_trans _ _ _ Hle Ev) as Hlt. congruence. }
  eexists _, _, _. split; [by apply select_pre_clamp_returns |].
  split; [by apply select_returns |]. split; [done |].
  intros Hpos. by apply clamp_tau_at_most.
Qed.

Lemma select_step_at_most_single_firing_witness :
  let a := initialize example_model_A example_tau_tol in
  ∃ pre tau a',
    select_pre_clamp example_model_A a example_tau_tol [2; 0.5]%float [5]%Z
    = Returns (pre, a') ∧
    select example_model_A a example_tau_tol 0 1 [2; 0.5]%float [5]%Z = Returns (tau, a') ∧
    (1 / at_index 0%float [2; 0.5]%float 0 <? pre)%float = false ∧
    ((0 <? pre)%float = true →
     (Double.max (1 / at_index 0%float [2; 0.5]%float 0) 1e-10 <? tau)%float = false).
Proof.
  intros a.
  assert (g_i_lambdas a = ∅) as H0 by (vm_compute; reflexivity).
  assert (NoDup (Reaction.name <$> Model.reactions example_model_A)) as H1
    by (refine (bool_decide_unpack _ _); vm_compute; exact I).
  assert (critical (select_moments example_model_A a [2; 0.5]%float [5]%Z).2 = true)
    as H2 by (vm_compute; reflexivity).
  assert (0 < Model.number_reactions example_model_A) as H3 by (vm_compute; lia).
  assert ((0 <? at_index 0%float [2; 0.5]%float 0)%float = true) as H4
    by (vm_compute; reflexivity).
  exact (select_step_at_most_single_firing example_model_A a example_tau_tol 0 1
           [2; 0.5]%float [5]%Z 0 H0 H1 H2 H3 H4).
Defined.

(** ** A model whose reactions consume nothing *)

Lemma bind_consumed_nil (model : Model.t) (l : list nat) :
  (∀ r, r ∈ l → consumed model r = []) → l ≫= consumed model = [].
Proof.
  induction l as [|r l IH]; intros H; [done |].
  simpl. rewrite (H r) by (by left). simpl. apply IH. intros r' Hr'. apply H. by right.
Qed.

Lemma initialize_fold_idle (model : Model.t) (tau_tol : float) (l : list nat)
    (a : TauArgs) :
  NoDup l →
  (∀ r, r ∈ l → reactions_reactants a !! r = None ∧ products a !! r = None) →
  (∀ r, r ∈ l → consumed model r = []) →
  g_i_lambdas (foldl (initialize_reaction model tau_tol) a l) = g_i_lambdas a.
Proof.
  revert a. induction l as [|r l IH]; intros a Hnd Hfresh Hnone; cbn [foldl]; [done |].
  apply NoDup_cons in Hnd as [Hr Hnd].
  destruct (Hfresh r) as [F1 F2]; [by left |].
  destruct (initialize_reaction_records model tau_tol a r F1 F2) as (_ & _ & R3 & _).
  rewrite IH; [| done | |].
  - unfold initialize_reaction.
    pose proof (scan_species_fold model r (seq 0 (Model.number_species model)) 0 a) as HS.
    cbv zeta in HS.
    destruct (foldl (scan_species model r) (0%Z, a) (seq 0 (Model.number_species model)))
      as [o a1].
    destruct HS as (_ & _ & _ & S4 & _ & S6 & _). cbn [fst snd] in S4, S6.
    fold (consumed model r) in S6. rewrite (Hnone r) in S6 by (by left).
    unfold at_key at 2 in S6. rewrite F1 in S6. simpl in S6. rewrite S6. simpl. done.
  - intros r' Hr'. assert (r' ≠ r) as Hne by (intros ->; done).
    destruct (R3 r' Hne) as [-> ->]. apply Hfresh. by right.
  - intros r' Hr'. apply Hnone. by right.
Qed.

Lemma initialize_idle (model : Model.t) (tau_tol : float) :
  (∀ r, r < Model.number_reactions model → consumed model r = []) →
  g_i_lambdas (initialize model tau_tol) = ∅.
Proof.
  intros Hnone. unfold initialize, initialize_HOR.
  destruct (initialize_HOR_spec model (seq 0 (Model.number_species model)) tau_args_0)
    as (_ & H2 & _ & H4 & _).
  destruct (initialize_HOR_frame model (seq 0 (Model.number_species model)) tau_args_0)
    as (F1 & _).
  cbv zeta in H2, H4, F1.
  rewrite initialize_fold_idle.
  - by rewrite H2.
  - apply NoDup_seq.
  - intros r _. by rewrite H4, F1.
  - intros r Hr%elem_of_seq. apply Hnone. lia.
Qed.

(** X17. When no reaction of the model consumes a species, [select] called on
    the [tau_args] of [initialize] finds no critical reaction and computes no
    bound, and returns [save_time - current_time] whatever the propensities
    are. *)
Theorem select_without_reactants (model : Model.t)
    (tau_tol current_time save_time : float)
    (propensity_values : list float) (current_state : list Z) :
  (∀ r, r < Model.number_reactions model → consumed model r = []) →
  ∃ a',
    select model (initialize model tau_tol) tau_tol current_time save_time
           propensity_values current_state
    = Returns ((save_time - current_time)%float, a').
Proof.
  intros Hnone. eexists.
  rewrite select_returns by (by apply initialize_idle). f_equal. f_equal.
  unfold select_step. cbv zeta.
  destruct (initialize_records model tau_tol) as (R1 & _ & R3 & R4).
  assert (critical (select_moments model (initialize model tau_tol) propensity_values
                                   current_state).2 = false) as ->.
  { unfold select_moments. rewrite select_moments_fold_critical, moments_0_critical.
    rewrite orb_false_r. apply not_true_is_false. intros Hex.
    apply existsb_exists in Hex as (r & Hr & Hex).
    apply list_elem_of_In, elem_of_seq in Hr.
    apply existsb_exists in Hex as (i & Hi & _).
    unfold at_key in Hi. rewrite R1, decide_True in Hi by lia. simpl in Hi.
    rewrite Hnone in Hi by lia. done. }
  assert (select_bounds model (initialize model tau_tol) propensity_values
                        current_state = ∅) as ->.
  { unfold select_bounds, select_tau_i. rewrite select_moments_fst.
    cbn [reactants set_reactions_reactants]. rewrite R4.
    rewrite bind_consumed_nil; [done |].
    intros r Hr%elem_of_seq. apply Hnone. lia. }
  simpl. by apply clamp_tau_nonpos.
Qed.

Lemma select_without_reactants_witness :
  ∃ a',
    select example_model_production (initialize example_model_production example_tau_tol)
           example_tau_tol 0 1 [2]%float [100]%Z
    = Returns ((1 - 0)%float, a').
Proof.
  assert (∀ r, r < Model.number_reactions example_model_production →
               consumed example_model_production r = []) as H.
  { intros [|r] Hr; [reflexivity | vm_compute in Hr; lia]. }
  exact (select_without_reactants example_model_production example_tau_tol 0 1
           [2]%float [100]%Z H).
Defined.

(** ** [select] at or past [save_time] *)

(** X18. In a call of [select] that finds no function pending, when
    [save_time - current_time] is not positive the step is not capped: a
    positive step is floored at [1e-10] and returned, above the remaining
    interval; otherwise the remaining interval itself, which is not
    positive, is returned. *)
Theorem select_without_remaining_interval (model : Model.t) (tau_args : TauArgs)
    (tau_tol current_time save_time : float)
    (propensity_values : list float) (current_state : list Z) :
  g_i_lambdas tau_args = ∅ →
  (0 <? save_time - current_time)%float = false →
  ∃ pre tau a',
    select_pre_clamp model tau_args tau_tol propensity_values current_state
    = Returns (pre, a') ∧
    select model tau_args tau_tol current_time save_time propensity_values current_state
    = Returns (tau, a') ∧
    ((0 <? pre)%float = true →
     tau = Double.max pre 1e-10 ∧ (1e-10 <=? tau)%float = true ∧
     (tau <=? save_time - current_time)%float = false) ∧
    ((0 <? pre)%float = false → tau = (save_time - current_time)%float).
Proof.
  intros He Hd.
  eexists _, _, _. split; [by apply select_pre_clamp_returns |].
  split; [by apply select_returns |].
  set (pre := select_step model tau_args propensity_values current_state).
  change 1e-10%float with tau_floor.
  split.
  - intros Hpre. unfold clamp_tau, Double.gtb. rewrite Hpre, Hd.
    split; [done |].
    assert ((0 <? Double.max pre tau_floor)%float = true) as Hm
      by (apply max_gt_0; [done | apply tau_floor_gt_0]).
    split.
    + unfold Double.max. destruct (pre <? tau_floor)%float eqn:E.
      * apply leb_refl. eapply ltb_number_r. apply tau_floor_gt_0.
      * apply ltb_false_leb; [eapply ltb_number_r; apply tau_floor_gt_0
                             | by eapply ltb_number_r | done].
    + destruct (_ <=? _)%float eqn:E; [| done].
      pose proof (ltb_leb_trans _ _ _ Hm E). congruence.
  - intros Hpre. by apply clamp_tau_nonpos.
Qed.

Lemma select_without_remaining_interval_witness :
  let a := initialize example_model_A example_tau_tol in
  ∃ pre tau a',
    select_pre_clamp example_model_A a example_tau_tol [2; 0.5]%float [100]%Z
    = Returns (pre, a') ∧
    select example_model_A a example_tau_tol 1 1 [2; 0.5]%float [100]%Z
    = Returns (tau, a') ∧
    ((0 <? pre)%float = true →
     tau = Double.max pre 1e-10 ∧ (1e-10 <=? tau)%float = true ∧
     (tau <=? 1 - 1)%float = false) ∧
    ((0 <? pre)%float = false → tau = (1 - 1)%float).
Proof.
  intros a.
  assert (g_i_lambdas a = ∅) as H0 by (vm_compute; reflexivity).
  assert ((0 <? 1 - 1)%float = false) as H by (vm_compute; reflexivity).
  exact (select_without_remaining_interval example_model_A a example_tau_tol 1 1
           [2; 0.5]%float [100]%Z H0 H).
Defined.

(** ** The returned step when no function is pending *)

(** X25. A call of [select] that finds no function pending, with
    [current_time < save_time], returns a step that is positive and at most
    [save_time - current_time]: the step before the clamp floored at [1e-10]
    and then capped at [save_time - current_time] when it is positive, and
    [save_time - current_time] otherwise. *)
Theorem select_tau_in_range (model : Model.t) (tau_args : TauArgs)
    (tau_tol current_time save_time : float)
    (propensity_values : list float) (current_state : list Z) :
  g_i_lambdas tau_args = ∅ →
  (current_time <? save_time)%float = true →
  ∃ pre tau a',
    select_pre_clamp model tau_args tau_tol propensity_values current_state
    = Returns (pre, a') ∧
    select model tau_args tau_tol current_time save_time propensity_values current_state
    = Returns (tau, a') ∧
    (0 <? tau)%float = true ∧
    (tau <=? save_time - current_time)%float = true ∧
    ((0 <? pre)%float = true →
     tau = Double.min (Double.max pre 1e-10) (save_time - current_time)%float) ∧
    ((0 <? pre)%float = false → tau = (save_time - current_time)%float).
Proof.
  intros He Hlt.
  eexists _, _, _. split; [by apply select_pre_clamp_returns |].
  split; [by apply select_returns |].
  apply sub_pos in Hlt.
  destruct (clamp_tau_bounds (select_step model tau_args propensity_values current_state)
              current_time save_time Hlt) as [H1 H2].
  split; [done |]. split; [done |]. split.
  - intros Hpre. by apply clamp_tau_pos.
  - intros Hpre. by apply clamp_tau_nonpos.
Qed.

Lemma select_tau_in_range_witness :
  let a := initialize example_model_A example_tau_tol in
  ∃ pre tau a',
    select_pre_clamp example_model_A a example_tau_tol [2; 0.5]%float [100]%Z
    = Returns (pre, a') ∧
    select example_model_A a example_tau_tol 0 1 [2; 0.5]%float [100]%Z
    = Returns (tau, a') ∧
    (0 <? tau)%float = true ∧
    (tau <=? 1 - 0)%float = true ∧
    ((0 <? pre)%float = true → tau = Double.min (Double.max pre 1e-10) (1 - 0)%float) ∧
    ((0 <? pre)%float = false → tau = (1 - 0)%float).
Proof.
  intros a.
  assert (g_i_lambdas a = ∅) as H0 by (vm_compute; reflexivity).
  assert ((0 <? 1)%float = true) as H by reflexivity.
  exact (select_tau_in_range example_model_A a example_tau_tol 0 1 [2; 0.5]%float
           [100]%Z H0 H).
Defined.

(** X26. In a call of [select] that finds no function pending, when every
    propensity is zero no reaction is critical, no bound [tau_i] is
    computed, and the call returns [save_time - current_time]. *)
Theorem select_all_propensities_zero (model : Model.t) (tau_args : TauArgs)
    (tau_tol current_time save_time : float)
    (propensity_values : list float) (current_state : list Z) :
  g_i_lambdas tau_args = ∅ →
  Forall (λ p, (p =? 0)%float = true) propensity_values →
  critical (select_moments model tau_args propensity_values current_state).2 = false ∧
  select_bounds model tau_args propensity_values current_state = ∅ ∧
  ∃ a',
    select model tau_args tau_tol current_time save_time propensity_values current_state
    = Returns ((save_time - current_time)%float, a').
Proof.
  intros He Hall.
  destruct (select_moments_quiet model tau_args propensity_values current_state Hall)
    as [Hc Hmu].
  assert (select_bounds model tau_args propensity_values current_state = ∅) as Ht.
  { apply select_tau_i_empty. intros nm. by apply zero_or_nan_not_gt. }
  split; [done |]. split; [done |]. eexists.
  rewrite select_returns by done. f_equal. f_equal.
  unfold select_step. cbv zeta. rewrite Ht, Hc. simpl.
  by apply clamp_tau_nonpos.
Qed.

Lemma select_all_propensities_zero_witness :
  let a := initialize example_model_A example_tau_tol in
  critical (select_moments example_model_A a [0; 0]%float [100]%Z).2 = false ∧
  select_bounds example_model_A a [0; 0]%float [100]%Z = ∅ ∧
  ∃ a',
    select example_model_A a example_tau_tol 0 1 [0; 0]%float [100]%Z
    = Returns ((1 - 0)%float, a').
Proof.
  intros a.
  assert (g_i_lambdas a = ∅) as H0 by (vm_compute; reflexivity).
  assert (Forall (λ p, (p =? 0)%float = true) [0; 0]%float) as H by (repeat constructor).
  exact (select_all_propensities_zero example_model_A a example_tau_tol 0 1 [0; 0]%float
           [100]%Z H0 H).
Defined.

(** ** The counts and the step of [get_reactions] *)

Section FireKeys.

Variable mt19937 : Type.
Variable poisson : float → mt19937 → Z * mt19937.
Variable model : Model.t.
Variable propensity_values : list float.
Variable tau_step : float.

Lemma fire_fold_keys (l : list nat) (rxn_count : gmap string Z) (generator : mt19937)
    (nm : string) :
  is_Some ((foldl (fire mt19937 poisson model propensity_values tau_step)
                  (rxn_count, generator) l).1 !! nm)
  ↔ is_Some (rxn_count !! nm) ∨ nm ∈ Model.reaction_name model <$> l.
Proof.
  revert rxn_count generator. induction l as [|i l IH]; intros rxn_count generator.
  - simpl. split; [by left | intros [?|H]; [done | by apply elem_of_nil in H]].
  - cbn [foldl]. unfold fire at 2.
    destruct (poisson _ generator) as [n generator'].
    rewrite IH, fmap_cons, elem_of_cons.
    destruct (decide (Model.reaction_name model i = nm)) as [->|Hne].
    + rewrite lookup_insert_eq. split; [intros _ | intros _; left; by eexists].
      right. by left.
    + rewrite lookup_insert_ne by done. split; [tauto |].
      intros [?|[?|?]]; [by left | congruence | by right].
Qed.



End FireKeys.

(** X19. The map of counts that [get_reactions] returns has an entry for every
    reaction name of the model and for nothing else. *)
Theorem get_reactions_counts_every_name (mt19937 : Type) (mt19937_seed : Z → mt19937)
    (poisson : float → mt19937 → Z * mt19937) (rd : Z) (model : Model.t)
    (propensity_values : list float) (tau_step current_time save_time : float)
    (nm : string) :
  is_Some ((get_reactions mt19937 mt19937_seed poisson rd model propensity_values
                          tau_step current_time save_time).1 !! nm)
  ↔ nm ∈ Reaction.name <$> Model.reactions model.
Proof.
  rewrite <- reaction_names_seq.
  pose proof (fire_fold_keys mt19937 poisson model propensity_values
                (clip_tau_step tau_step current_time save_time)
                (seq 0 (Model.number_reactions model)) ∅ (mt19937_seed rd) nm) as H.
  unfold get_reactions. destruct (foldl _ _ _) as [rxn_count generator].
  simpl in *. rewrite H, lookup_empty. split; [intros [[? ?]|?]; done | by right].
Qed.



(** X21. When [current_time] is already past [save_time], [get_reactions]
    either replaces the step by [save_time - current_time], which is
    negative, or, where [current_time + tau_step] does not exceed
    [save_time], leaves the step as given. *)
Theorem get_reactions_past_save_time (tau_step current_time save_time : float) :
  (save_time <? current_time)%float = true →
  let step := clip_tau_step tau_step current_time save_time in
  (step = (save_time - current_time)%float ∧ (step <? 0)%float = true)
  ∨ (step = tau_step ∧ (save_time <? current_time + tau_step)%float = false).
Proof.
  intros Hlt. cbv zeta. unfold clip_tau_step, Double.gtb.
  destruct (save_time <? current_time + tau_step)%float.
  - left. split; [done | by apply sub_neg].
  - by right.
Qed.

Lemma get_reactions_past_save_time_witness :
  let step := clip_tau_step 0.5 2 1 in
  (step = (1 - 2)%float ∧ (step <? 0)%float = true)
  ∨ (step = 0.5%float ∧ (1 <? 2 + 0.5)%float = false).
Proof.
  assert ((1 <? 2)%float = true) as H by (vm_compute; reflexivity).
  exact (get_reactions_past_save_time 0.5 2 1 H).
Defined.

(** ** The command line *)

Section CommandLineProperties.

Variable extract_int : string → Z → Z.
Variable extract_unsigned : string → Z → Z.
Variable extract_double : string → float → float.




(** X23. An option is recognised by its first three characters: the rest of
    the argument makes no difference. *)
Theorem parse_option_reads_three_characters (arg value : string)
    (g : CommandLine.Globals) :
  CommandLine.parse_option extract_int extract_unsigned extract_double
                           (String.substring 0 3 arg) value g
  = CommandLine.parse_option extract_int extract_unsigned extract_double arg value g.
Proof.
  destruct arg as [|c0 [|c1 [|c2 rest]]]; reflexivity.
Qed.


End CommandLineProperties.

